(** * Algo trading platform (app.py): indicator, backtest, risk and
    paper-trading pipeline, embedded over exact rationals.

    Numbers.  Every pandas/numpy [float64] value is a [cell]: a finite
    rational, one of the two infinities, or NaN.  The IEEE-754 rules for
    the special values (NaN propagation, x/0, 0*inf, inf-inf, comparisons
    with NaN being false) are written out; finite arithmetic is exact, so
    rounding, overflow and the sign of zero are not modelled.

    Frames.  A [pandas.DataFrame] is a row count together with a finite map
    from column names to columns; frames live in a store and are passed by
    reference, so in-place column assignment and [DataFrame.copy] are
    distinguishable. *)

From Stdlib Require Import QArith Qcanon Qround Lqa.
From stdpp Require Import base option list gmap strings numbers.

Local Open Scope Qc_scope.

(** ** Cells: float64 values with exact finite arithmetic *)

Inductive cell : Type :=
  | Num (q : Qc)
  | PInf
  | NInf
  | NaN.

Global Instance cell_eq_dec : EqDecision cell.
Proof. solve_decision. Defined.

Global Instance cell_inhabited : Inhabited cell := populate NaN.

Definition Qc_of_Z (z : Z) : Qc := Q2Qc (inject_Z z).

Definition cell_of_Z (z : Z) : cell := Num (Qc_of_Z z).

Definition isnan (x : cell) : bool :=
  match x with NaN => true | _ => false end.

Definition is_num (x : cell) : bool :=
  match x with Num _ => true | _ => false end.

Definition Qc_ltb (a b : Qc) : bool := bool_decide (a < b).
Definition Qc_eqb (a b : Qc) : bool := bool_decide (a = b).

(** [-x] *)
Definition cneg (x : cell) : cell :=
  match x with
  | Num a => Num (- a)
  | PInf => NInf
  | NInf => PInf
  | NaN => NaN
  end.

(** [x + y] *)
Definition cadd (x y : cell) : cell :=
  match x, y with
  | NaN, _ | _, NaN => NaN
  | Num a, Num b => Num (a + b)
  | PInf, NInf | NInf, PInf => NaN
  | PInf, _ | _, PInf => PInf
  | NInf, _ | _, NInf => NInf
  end.

(** [x - y] *)
Definition csub (x y : cell) : cell := cadd x (cneg y).

(** The infinity carrying the sign of [a * s], NaN when [a] is zero;
    [s] is [true] for a positive factor. *)
Definition inf_signed (s : bool) (a : Qc) : cell :=
  if Qc_eqb a 0 then NaN
  else if Qc_ltb 0 a then (if s then PInf else NInf)
  else (if s then NInf else PInf).

(** [x * y] *)
Definition cmul (x y : cell) : cell :=
  match x, y with
  | NaN, _ | _, NaN => NaN
  | Num a, Num b => Num (a * b)
  | Num a, PInf | PInf, Num a => inf_signed true a
  | Num a, NInf | NInf, Num a => inf_signed false a
  | PInf, PInf | NInf, NInf => PInf
  | PInf, NInf | NInf, PInf => NInf
  end.

(** [x / y]; a finite non-zero value over zero is an infinity, 0/0 and
    inf/inf are NaN. *)
Definition cdiv (x y : cell) : cell :=
  match x, y with
  | NaN, _ | _, NaN => NaN
  | Num a, Num b => if Qc_eqb b 0 then inf_signed true a else Num (a / b)
  | Num _, (PInf | NInf) => Num 0
  | PInf, Num b => if Qc_ltb b 0 then NInf else PInf
  | NInf, Num b => if Qc_ltb b 0 then PInf else NInf
  | (PInf | NInf), (PInf | NInf) => NaN
  end.

(** [x < y]; false as soon as one side is NaN. *)
Definition cltb (x y : cell) : bool :=
  match x, y with
  | NaN, _ | _, NaN => false
  | Num a, Num b => Qc_ltb a b
  | _, NInf => false
  | PInf, _ => false
  | NInf, _ => true
  | Num _, PInf => true
  end.

(** [x > y] *)
Definition cgtb (x y : cell) : bool := cltb y x.

(** [x == y]; NaN differs from everything, itself included. *)
Definition ceqb (x y : cell) : bool :=
  match x, y with
  | Num a, Num b => Qc_eqb a b
  | PInf, PInf | NInf, NInf => true
  | _, _ => false
  end.

(** [x <= y] *)
Definition cleb (x y : cell) : bool := cltb x y || ceqb x y.

Definition Qc_floor (a : Qc) : Z := Qfloor (this a).

(** numpy's [floor_divide] on floats ([//]): division by zero gives what
    [/] gives, an infinite dividend gives NaN. *)
Definition cfloordiv (x y : cell) : cell :=
  match x, y with
  | NaN, _ | _, NaN => NaN
  | (PInf | NInf), _ => NaN
  | Num a, Num b =>
      if Qc_eqb b 0 then inf_signed true a else cell_of_Z (Qc_floor (a / b))
  | Num a, PInf => if Qc_ltb a 0 then cell_of_Z (-1) else Num 0
  | Num a, NInf => if Qc_ltb 0 a then cell_of_Z (-1) else Num 0
  end.

(** Square root of a non-negative rational, rounded down to a multiple of
    [1 / (den * 2^53)]; exact on squares of such multiples. *)
Definition Qc_sqrt (a : Qc) : Qc :=
  let n := Qnum (this a) in
  let d := Qden (this a) in
  Q2Qc (Z.sqrt (n * Zpos d * 2 ^ 106) # (d * 2 ^ 53)).

(** [np.sqrt] *)
Definition csqrt (x : cell) : cell :=
  match x with
  | Num a => if Qc_ltb a 0 then NaN else Num (Qc_sqrt a)
  | PInf => PInf
  | NInf | NaN => NaN
  end.

(** ** Series: the pandas column operations the program uses *)

Module Series.

(** [s.shift(1)] *)
Definition shift (s : list cell) : list cell := take (length s) (NaN :: s).

(** [s.diff()], computed by pandas as [s - s.shift(1)]. *)
Definition diff (s : list cell) : list cell := zip_with csub s (shift s).

Fixpoint ffill_from (last : cell) (s : list cell) : list cell :=
  match s with
  | [] => []
  | x :: s' =>
      let y := if isnan x then last else x in y :: ffill_from y s'
  end.

(** [s.ffill()]: every NaN takes the last value seen before it. *)
Definition ffill (s : list cell) : list cell := ffill_from NaN s.

(** [s.pct_change()] with its default [fill_method='pad']:
    [p / p.shift(1) - 1] on the forward-filled series [p]. *)
Definition pct_change (s : list cell) : list cell :=
  let p := ffill s in
  (λ r, csub r (Num 1)) <$> zip_with cdiv p (shift p).

Definition csum (s : list cell) : cell := foldr cadd (Num 0) s.

(** One value of [s.rolling(window=w).mean()] ([min_periods] defaults to
    the window): NaN unless the [w] bars ending at [i] all exist and are
    finite (pandas turns infinities into NaN before rolling). *)
Definition rolling_mean_at (w : nat) (s : list cell) (i : nat) : cell :=
  if bool_decide (w = 0%nat ∨ (i + 1 < w)%nat) then NaN
  else
    let win := take w (drop (i + 1 - w) s) in
    if forallb is_num win then cdiv (csum win) (cell_of_Z (Z.of_nat w))
    else NaN.

Definition rolling_mean (w : nat) (s : list cell) : list cell :=
  imap (λ i _, rolling_mean_at w s i) s.

(** [s.where(s > 0, 0)] and [s.where(s < 0, 0)] *)
Definition where_pos (s : list cell) : list cell :=
  (λ d, if cgtb d (Num 0) then d else Num 0) <$> s.
Definition where_neg (s : list cell) : list cell :=
  (λ d, if cltb d (Num 0) then d else Num 0) <$> s.

(** [np.where(a > b, 1, 0)] *)
Definition where_gt (a b : list cell) : list cell :=
  zip_with (λ x y, if cgtb x y then Num 1 else Num 0) a b.

(** The recursion of [s.ewm(span=span, adjust=False).mean()] (pandas'
    [ewm] kernel with [ignore_na=False], [min_periods=0]): [weighted] is
    the running average, [old_wt] the weight it carries into the next
    observation. *)
Fixpoint ewm_from (alpha : Qc) (weighted : cell) (old_wt : Qc)
    (s : list cell) : list cell :=
  match s with
  | [] => []
  | cur :: s' =>
      let '(weighted', old_wt') :=
        if negb (isnan weighted) then
          let old := old_wt * (1 - alpha) in
          if negb (isnan cur) then
            let w :=
              if ceqb weighted cur then weighted
              else cdiv (cadd (cmul (Num old) weighted) (cmul (Num alpha) cur))
                        (Num (old + alpha)) in
            (w, 1)
          else (weighted, old)
        else if negb (isnan cur) then (cur, old_wt)
        else (weighted, old_wt) in
      weighted' :: ewm_from alpha weighted' old_wt' s'
  end.

(** pandas hands a window kernel its values with the infinities turned
    into NaN. *)
Definition prep_values (s : list cell) : list cell :=
  (λ x, if is_num x then x else NaN) <$> s.

Definition ewm_mean (span : Z) (s : list cell) : list cell :=
  let alpha := Qc_of_Z 2 / (Qc_of_Z span + 1) in
  match prep_values s with
  | [] => []
  | x :: s' => x :: ewm_from alpha x 1 s'
  end.

Fixpoint cumprod_from (acc : cell) (s : list cell) : list cell :=
  match s with
  | [] => []
  | x :: s' =>
      if isnan x then NaN :: cumprod_from acc s'
      else let acc' := cmul acc x in acc' :: cumprod_from acc' s'
  end.

(** [s.cumprod()] with [skipna=True]: a NaN entry stays NaN and leaves
    the running product as it was. *)
Definition cumprod (s : list cell) : list cell := cumprod_from (Num 1) s.

Definition cmax (x y : cell) : cell := if cltb x y then y else x.
Definition cmin (x y : cell) : cell := if cltb y x then y else x.

Fixpoint cummax_from (acc : cell) (s : list cell) : list cell :=
  match s with
  | [] => []
  | x :: s' =>
      if isnan x then NaN :: cummax_from acc s'
      else let acc' := cmax acc x in acc' :: cummax_from acc' s'
  end.

(** [s.cummax()] with [skipna=True]. *)
Definition cummax (s : list cell) : list cell := cummax_from NInf s.

Definition dropna (s : list cell) : list cell :=
  filter (λ x, isnan x = false) s.

(** [s.min()]: least of the entries that are not NaN, NaN if none. *)
Definition min (s : list cell) : cell :=
  match dropna s with
  | [] => NaN
  | x :: s' => foldr cmin x s'
  end.

(** [s.mean()]: mean of the entries that are not NaN. *)
Definition mean (s : list cell) : cell :=
  let v := dropna s in
  match v with
  | [] => NaN
  | _ => cdiv (csum v) (cell_of_Z (Z.of_nat (length v)))
  end.

(** [s.std()]: sample standard deviation ([ddof=1]) of the entries that
    are not NaN; NaN with fewer than two of them. *)
Definition std (s : list cell) : cell :=
  let v := dropna s in
  if bool_decide (length v ≤ 1)%nat then NaN
  else
    let m := cdiv (csum v) (cell_of_Z (Z.of_nat (length v))) in
    let sq := (λ x, let d := csub x m in cmul d d) <$> v in
    csqrt (cdiv (csum sq) (cell_of_Z (Z.of_nat (length v) - 1))).

End Series.

(** ** Frames, the store and the exception monad *)

(** A DataFrame: the length of its index and its columns by name.  Row
    labels are the trading dates, which are distinct, so a label is
    identified with its position. *)
Record frame : Type := Frame {
  nrows : nat;
  cols : gmap string (list cell)
}.

(** Every column has one entry per index label. *)
Definition wf_frame (f : frame) : Prop :=
  map_Forall (λ _ c, length c = nrows f) (cols f).

Global Instance wf_frame_dec f : Decision (wf_frame f).
Proof. unfold wf_frame. apply _. Defined.

(** The exceptions the modelled operations raise.  [Dangling] stands for
    a reference that is not in the store; Python has no such thing and the
    program never makes one. *)
Inductive exn : Type :=
  | KeyError (key : string)
  | ValueError
  | IndexError
  | Dangling.

Inductive outcome (A : Type) : Type :=
  | Returns (a : A)
  | Raises (e : exn).
Global Arguments Returns {A} a.
Global Arguments Raises {A} e.

(** Frames are Python objects: a variable holds a reference into the
    store, and two variables may hold the same one. *)
Abbreviation loc := nat (only parsing).
Abbreviation store := (list frame) (only parsing).

Definition M (A : Type) : Type := store → outcome (A * store).

Global Instance M_ret : MRet M := λ A a σ, Returns (a, σ).
Global Instance M_bind : MBind M := λ A B k m σ,
  match m σ with
  | Returns (a, σ') => k a σ'
  | Raises e => Raises e
  end.

Definition raise {A} (e : exn) : M A := λ _, Raises e.

Definition get_frame (l : loc) : M frame := λ σ,
  match σ !! l with
  | Some f => Returns (f, σ)
  | None => Raises Dangling
  end.

Definition put_frame (l : loc) (f : frame) : M unit := λ σ,
  Returns ((), <[l := f]> σ).

(** A new object is stored at the end of the store. *)
Definition alloc (f : frame) : M loc := λ σ,
  Returns (length σ, σ ++ [f]).

(** [df.copy()]: a new object with the same index and columns. *)
Definition df_copy (l : loc) : M loc :=
  f ← get_frame l; alloc f.

(** [pd.DataFrame(index=df.index)]: a new frame without columns. *)
Definition df_new_like (l : loc) : M loc :=
  f ← get_frame l; alloc (Frame (nrows f) ∅).

(** [len(df)] *)
Definition df_len (l : loc) : M nat :=
  f ← get_frame l; mret (nrows f).

(** [name in df.columns] *)
Definition has_col (l : loc) (name : string) : M bool :=
  f ← get_frame l; mret (bool_decide (is_Some (cols f !! name))).

(** [df[name]] *)
Definition get_col (l : loc) (name : string) : M (list cell) :=
  f ← get_frame l;
  match cols f !! name with
  | Some c => mret c
  | None => raise (KeyError name)
  end.

(** [df[name] = values], in place; pandas refuses values whose length is
    not that of the index. *)
Definition set_col (l : loc) (name : string) (c : list cell) : M unit :=
  f ← get_frame l;
  if bool_decide (length c = nrows f)
  then put_frame l (Frame (nrows f) (<[name := c]> (cols f)))
  else raise ValueError.

(** [df[name] = scalar] *)
Definition set_scalar (l : loc) (name : string) (v : cell) : M unit :=
  f ← get_frame l; set_col l name (replicate (nrows f) v).

(** [df.at[df.index[i], name]] *)
Definition at_get (l : loc) (i : nat) (name : string) : M cell :=
  f ← get_frame l;
  if bool_decide (i < nrows f)%nat then
    match cols f !! name with
    | Some c =>
        match c !! i with
        | Some v => mret v
        | None => raise IndexError
        end
    | None => raise (KeyError name)
    end
  else raise IndexError.

(** [df.at[df.index[i], name] = v]; on a name that is not yet a column
    pandas adds the column, NaN elsewhere. *)
Definition at_set (l : loc) (i : nat) (name : string) (v : cell) : M unit :=
  f ← get_frame l;
  if bool_decide (i < nrows f)%nat then
    let c := default (replicate (nrows f) NaN) (cols f !! name) in
    put_frame l (Frame (nrows f) (<[name := <[i := v]> c]> (cols f)))
  else raise IndexError.

(** [for i in idx: body(i)] *)
Fixpoint for_each (idx : list nat) (body : nat → M unit) : M unit :=
  match idx with
  | [] => mret ()
  | i :: idx' => body i;; for_each idx' body
  end.

(** [s.rolling(window=w)]: pandas wants a window of 0 or more. *)
Definition rolling_window (w : Z) : M nat :=
  if bool_decide (w < 0)%Z then raise ValueError else mret (Z.to_nat w).

(** First position of the Python slice [k:] of a sequence of length [n]. *)
Definition slice_start (k : Z) (n : nat) : nat :=
  if bool_decide (k < 0)%Z then Z.to_nat (Z.max 0 (Z.of_nat n + k))
  else Nat.min (Z.to_nat k) n.

(** The length pandas computes for the slice [k:] of a sequence of length
    [n] ([length_of_indexer]): negative when [k] lies past the end, more
    than [n] when [k] is below [-n]. *)
Definition slice_length (k : Z) (n : nat) : Z :=
  if bool_decide (k < 0)%Z then (- k)%Z else (Z.of_nat n - k)%Z.

(** [df[name][k:] = values]: the assignment goes through the column object
    that [df[name]] returns and writes into the frame (pandas before
    copy-on-write); pandas refuses values whose length is not the length
    it computes for the slice. *)
Definition set_slice_from (l : loc) (name : string) (k : Z)
    (values : list cell) : M unit :=
  s ← get_col l name;
  if bool_decide (Z.of_nat (length values) = slice_length k (length s))
  then set_col l name (take (slice_start k (length s)) s ++ values)
  else raise ValueError.

(** ** The program *)

(** [calculate_indicators(data)] *)
Definition calculate_indicators (data : loc) : M loc :=
  (* Simple Moving Averages *)
  close ← get_col data "Close";
  w ← rolling_window 20;
  set_col data "SMA_20" (Series.rolling_mean w close);;
  close ← get_col data "Close";
  w ← rolling_window 50;
  set_col data "SMA_50" (Series.rolling_mean w close);;
  (* RSI *)
  close ← get_col data "Close";
  let delta := Series.diff close in
  w ← rolling_window 14;
  let gain := Series.rolling_mean w (Series.where_pos delta) in
  w ← rolling_window 14;
  let loss := Series.rolling_mean w (cneg <$> Series.where_neg delta) in
  let rs := zip_with cdiv gain loss in
  set_col data "RSI"
    ((λ r, csub (cell_of_Z 100) (cdiv (cell_of_Z 100) (cadd (Num 1) r))) <$> rs);;
  (* MACD *)
  close ← get_col data "Close";
  let exp12 := Series.ewm_mean 12 close in
  close ← get_col data "Close";
  let exp26 := Series.ewm_mean 26 close in
  set_col data "MACD" (zip_with csub exp12 exp26);;
  macd ← get_col data "MACD";
  set_col data "Signal_Line" (Series.ewm_mean 9 macd);;
  mret data.

(** [backtest_strategy(data, sma_short, sma_long)].  The two slices on
    the right of [data['Signal'][sma_short:] = ...] are clamped to the
    column as Python slices are; the assignment on the left raises
    ValueError when [sma_short] lies outside the column. *)
Definition backtest_strategy (data : loc) (sma_short sma_long : Z) : M loc :=
  data ← df_copy data;
  (* Calculate SMAs if not already present *)
  present ← has_col data "SMA_20";
  (if negb present then
     close ← get_col data "Close";
     w ← rolling_window sma_short;
     set_col data "SMA_short" (Series.rolling_mean w close);;
     close ← get_col data "Close";
     w ← rolling_window sma_long;
     set_col data "SMA_long" (Series.rolling_mean w close)
   else
     c ← get_col data "SMA_20";
     set_col data "SMA_short" c;;
     c ← get_col data "SMA_50";
     set_col data "SMA_long" c);;
  (* Generate signals *)
  set_scalar data "Signal" (Num 0);;
  short ← get_col data "SMA_short";
  long ← get_col data "SMA_long";
  let flags :=
    Series.where_gt (drop (slice_start sma_short (length short)) short)
                    (drop (slice_start sma_short (length long)) long) in
  set_slice_from data "Signal" sma_short flags;;
  signal ← get_col data "Signal";
  set_col data "Position" (Series.diff signal);;
  (* Calculate returns *)
  close ← get_col data "Close";
  set_col data "Daily_Return" (Series.pct_change close);;
  position ← get_col data "Position";
  daily ← get_col data "Daily_Return";
  set_col data "Strategy_Return" (zip_with cmul (Series.shift position) daily);;
  daily ← get_col data "Daily_Return";
  set_col data "Cumulative_Market" (Series.cumprod (cadd (Num 1) <$> daily));;
  strat ← get_col data "Strategy_Return";
  set_col data "Cumulative_Strategy" (Series.cumprod (cadd (Num 1) <$> strat));;
  mret data.

(** The figures of the Risk Analysis block. *)
Record risk_report : Type := RiskReport {
  drawdown : list cell;
  max_drawdown : cell;
  volatility : cell;
  sharpe_ratio : cell
}.

(** The Risk Analysis block, run on [st.session_state['backtest_data']]. *)
Definition risk_analysis (backtest_data : loc) : M risk_report :=
  (* Calculate drawdown *)
  cs ← get_col backtest_data "Cumulative_Strategy";
  let cumulative_max := Series.cummax cs in
  cs ← get_col backtest_data "Cumulative_Strategy";
  let dd := zip_with cdiv (zip_with csub cs cumulative_max) cumulative_max in
  (* Risk metrics *)
  let mdd := Series.min dd in
  sr ← get_col backtest_data "Strategy_Return";
  let vol := cmul (Series.std sr) (csqrt (cell_of_Z 252)) in
  sr_mean ← get_col backtest_data "Strategy_Return";
  sr_std ← get_col backtest_data "Strategy_Return";
  let sharpe :=
    cmul (cdiv (Series.mean sr_mean) (Series.std sr_std))
         (csqrt (cell_of_Z 252)) in
  mret (RiskReport dd mdd vol sharpe).

(** One pass of the Run Simulation loop, for bar [i]. *)
Definition simulation_step (data account : loc) (commission : Qc) (i : nat)
    : M unit :=
  cash ← at_get account (i - 1) "Cash";
  at_set account i "Cash" cash;;
  shares ← at_get account (i - 1) "Shares";
  at_set account i "Shares" shares;;
  position ← at_get data i "Position";
  (* Buy signal *)
  (if ceqb position (Num 1) then
     cash ← at_get account i "Cash";
     open ← at_get data i "Open";
     let shares_to_buy := cfloordiv cash open in
     if cgtb shares_to_buy (Num 0) then
       cash ← at_get account i "Cash";
       open ← at_get data i "Open";
       at_set account i "Cash"
         (csub cash (cadd (cmul shares_to_buy open) (Num commission)));;
       shares ← at_get account i "Shares";
       at_set account i "Shares" (cadd shares shares_to_buy)
     else mret ()
   (* Sell signal *)
   else if ceqb position (cell_of_Z (-1)) then
     shares ← at_get account i "Shares";
     if cgtb shares (Num 0) then
       cash ← at_get account i "Cash";
       shares ← at_get account i "Shares";
       open ← at_get data i "Open";
       at_set account i "Cash"
         (cadd cash (csub (cmul shares open) (Num commission)));;
       at_set account i "Shares" (Num 0)
     else mret ()
   else mret ());;
  (* Update total value *)
  cash ← at_get account i "Cash";
  shares ← at_get account i "Shares";
  close ← at_get data i "Close";
  at_set account i "Total" (cadd cash (cmul shares close)).

(** The Run Simulation block in the branch where
    [st.session_state['backtest_data']] exists: it returns the ledger that
    the block stores under [st.session_state['account']].  The capital is
    the integer of its input widget, the commission its float. *)
Definition run_simulation (backtest_data : loc) (initial_capital : Z)
    (commission : Qc) : M loc :=
  data ← df_copy backtest_data;
  (* Initialize account *)
  account ← df_new_like data;
  set_scalar account "Cash" (cell_of_Z initial_capital);;
  set_scalar account "Shares" (Num 0);;
  set_scalar account "Total" (cell_of_Z initial_capital);;
  n ← df_len data;
  for_each (seq 1 (n - 1)) (simulation_step data account commission);;
  mret account.


(** ** The script around the functions

    Streamlit runs the script again on every click; what follows are the
    blocks of the script that compute, each as a function of the session
    state, with the messages it shows.  Charts and widgets are left out. *)

(** [st.error], [st.success] and [st.warning]. *)
Inductive message : Type :=
  | Error (text : string)
  | Success (text : string)
  | Warning (text : string).

(** What [yf.download] does: it hands back a new frame or raises an
    exception with some text. *)
Inductive provider_answer : Type :=
  | Bars (f : frame)
  | Failure (text : string).

(** [df.empty]: some axis has length 0. *)
Definition df_empty (l : loc) : M bool :=
  f ← get_frame l; mret (bool_decide (nrows f = 0%nat ∨ cols f = ∅)).

(** [fetch_data(ticker, start_date, end_date)], given the provider's
    answer; [None] is Python's None. *)
Definition fetch_data (answer : provider_answer)
    : M (option loc * list message) :=
  match answer with
  | Bars f =>
      (data ← alloc f;
       no_rows ← df_empty data;
       if (no_rows : bool) then
         mret (None,
               [Error "No data found for the given ticker and date range."])
       else mret (Some data, [])) : M (option loc * list message)
  | Failure e => mret (None, [Error ("Error fetching data: " +:+ e)])
  end.

(** The Fetch Data button. *)
Definition fetch_button (answer : provider_answer) (ticker : string)
    (session : gmap string loc) : M (gmap string loc * list message) :=
  r ← fetch_data answer;
  match r.1 with
  | Some data =>
      mret (<["data" := data]> session,
            r.2 ++ [Success ("Successfully fetched data for " +:+ ticker)])
  | None => mret (session, r.2)
  end.

(** The Calculate Indicators button, shown once there is data. *)
Definition indicators_button (session : gmap string loc)
    : M (gmap string loc * list message) :=
  match session !! "data" with
  | Some data =>
      data' ← calculate_indicators data;
      mret (<["data" := data']> session, [Success "Indicators calculated!"])
  | None => mret (session, [])
  end.

(** The Run Backtest button, shown once there is data. *)
Definition backtest_button (sma_short sma_long : Z)
    (session : gmap string loc) : M (gmap string loc * list message) :=
  match session !! "data" with
  | Some data =>
      copy ← df_copy data;
      backtest_data ← backtest_strategy copy sma_short sma_long;
      mret (<["backtest_data" := backtest_data]> session,
            [Success "Backtest completed!"])
  | None => mret (session, [])
  end.







(** ** Derived descriptions of what the program computes

    The definitions below are not code of the program: they name the
    values its functions leave behind, and the lemmas further down connect
    them to the functions above. *)

Definition signal_column (sma_short : Z) (n : nat) (short long : list cell)
    : list cell :=
  take (slice_start sma_short n) (replicate n (Num 0)) ++
  Series.where_gt (drop (slice_start sma_short (length short)) short)
                  (drop (slice_start sma_short (length long)) long).

Definition backtest_cols (sma_short : Z) (n : nat)
    (short long close : list cell) (base : gmap string (list cell))
    : gmap string (list cell) :=
  let signal := signal_column sma_short n short long in
  let position := Series.diff signal in
  let daily := Series.pct_change close in
  let strat := zip_with cmul (Series.shift position) daily in
  <["Cumulative_Strategy" := Series.cumprod (cadd (Num 1) <$> strat)]> (
  <["Cumulative_Market" := Series.cumprod (cadd (Num 1) <$> daily)]> (
  <["Strategy_Return" := strat]> (
  <["Daily_Return" := daily]> (
  <["Position" := position]> (
  <["Signal" := signal]> (
  <["SMA_long" := long]> (
  <["SMA_short" := short]> base))))))).

Definition averages_used (f : frame) (sma_short sma_long : Z)
    (close short long : list cell) : Prop :=
  match cols f !! "SMA_20" with
  | None =>
      (0 ≤ sma_short)%Z ∧ (0 ≤ sma_long)%Z ∧
      short = Series.rolling_mean (Z.to_nat sma_short) close ∧
      long = Series.rolling_mean (Z.to_nat sma_long) close
  | Some c => c = short ∧ cols f !! "SMA_50" = Some long
  end.


(** What [backtest_strategy] needs of its input to return: a Close
    column, either both SMA_20 and SMA_50 or (SMA_20 being absent) two
    windows that are not negative, and a short window that does not reach
    outside the rows, in either direction. *)
Definition backtest_ready (f : frame) (sma_short sma_long : Z) : Prop :=
  is_Some (cols f !! "Close") ∧
  match cols f !! "SMA_20" with
  | Some _ => is_Some (cols f !! "SMA_50")
  | None => (0 ≤ sma_short)%Z ∧ (0 ≤ sma_long)%Z
  end ∧
  (- Z.of_nat (nrows f) ≤ sma_short ≤ Z.of_nat (nrows f))%Z.


(** ** Sample inputs *)

Definition prices (l : list Z) : list cell := cell_of_Z <$> l.

(** Daily bars that open and close at the same price. *)
Definition bars (close : list Z) : frame :=
  Frame (length close) {[ "Open" := prices close; "Close" := prices close ]}.


(** Twenty-two bars at 10 and then 12, the close of bar 1 missing. *)
Definition gapped_bars : frame :=
  Frame 22
    {[ "Open" := prices (replicate 22 10%Z);
       "Close" := cell_of_Z 10 :: NaN :: prices (replicate 20 12%Z) ]}.

(** The product of [1 + r] over the returns [rs], an undefined return
    counting as 0. *)
Definition growth (rs : list cell) : cell :=
  foldl cmul (Num 1)
    ((λ r, cadd (Num 1) (if isnan r then Num 0 else r)) <$> rs).

(** Finite and not below zero. *)
Definition nonneg_num (x : cell) : Prop := ∃ q, x = Num q ∧ 0 ≤ q.

(** Twenty-two closes: flat at 10, a step up to 12, a fall to 1 and a
    rebound to 3. *)
Definition spike_and_rebound : list Z :=
  [10; 10; 10; 10; 10; 10; 10; 10; 10; 10; 10; 10; 10; 10; 10;
   12; 12; 12; 12; 12; 1; 3]%Z.

(** The RSI column [calculate_indicators] derives from the closes. *)
Definition rsi_column (close : list cell) : list cell :=
  let delta := Series.diff close in
  let gain := Series.rolling_mean 14 (Series.where_pos delta) in
  let loss := Series.rolling_mean 14 (cneg <$> Series.where_neg delta) in
  (λ r, csub (cell_of_Z 100) (cdiv (cell_of_Z 100) (cadd (Num 1) r))) <$>
    zip_with cdiv gain loss.

(** The columns of a frame after [calculate_indicators]. *)
Definition indicator_cols (close : list cell)
    (base : gmap string (list cell)) : gmap string (list cell) :=
  let macd :=
    zip_with csub (Series.ewm_mean 12 close) (Series.ewm_mean 26 close) in
  <["Signal_Line" := Series.ewm_mean 9 macd]> (
  <["MACD" := macd]> (
  <["RSI" := rsi_column close]> (
  <["SMA_50" := Series.rolling_mean 50 close]> (
  <["SMA_20" := Series.rolling_mean 20 close]> base)))).

(** Fifteen closes at 100. *)
Definition flat_closes : list Z := replicate 15 100%Z.

(** The columns [calculate_indicators] writes. *)
Definition indicator_names : list string :=
  ["SMA_20"; "SMA_50"; "RSI"; "MACD"; "Signal_Line"].

(** A backtest output cut down to the two columns the Risk Analysis block
    reads: undefined on bars 0 and 1, then an equity curve 1, 2, 1 built
    from the returns 0, 1, -1/2. *)
Definition equity_sample : frame :=
  Frame 5
    {[ "Cumulative_Strategy" := [NaN; NaN] ++ prices [1; 2; 1]%Z;
       "Strategy_Return" :=
         [NaN; NaN; Num 0; Num 1; cdiv (cell_of_Z (-1)) (cell_of_Z 2)] ]}.

(** The account frame of the simulation: its three columns over [n]
    bars. *)
Definition ledger_frame (n : nat) (cash shares total : list cell) : frame :=
  Frame n
    (<["Total" := total]> (<["Shares" := shares]> (<["Cash" := cash]> ∅))).

(** Cash and shares after the buy/sell decision of one bar, from the cash
    and shares carried into it. *)
Definition trade (commission : Qc) (cash shares position open : cell)
    : cell * cell :=
  if ceqb position (Num 1) then
    let shares_to_buy := cfloordiv cash open in
    if cgtb shares_to_buy (Num 0) then
      (csub cash (cadd (cmul shares_to_buy open) (Num commission)),
       cadd shares shares_to_buy)
    else (cash, shares)
  else if ceqb position (cell_of_Z (-1)) then
    if cgtb shares (Num 0) then
      (cadd cash (csub (cmul shares open) (Num commission)), Num 0)
    else (cash, shares)
  else (cash, shares).

(** The three ledger columns after the pass for bar [i]. *)
Definition ledger_step (commission : Qc) (position open close : list cell)
    (st : list cell * list cell * list cell) (i : nat)
    : list cell * list cell * list cell :=
  let '(cash, shares, total) := st in
  let '(c, s) :=
    trade commission (cash !!! (i - 1)%nat) (shares !!! (i - 1)%nat)
      (position !!! i) (open !!! i) in
  (<[i := c]> cash, <[i := s]> shares,
   <[i := cadd c (cmul s (close !!! i))]> total).

(** The ledger columns once the loop has run over all bars. *)
Definition ledger_columns (initial_capital : Z) (commission : Qc)
    (position open close : list cell) (n : nat)
    : list cell * list cell * list cell :=
  foldl (ledger_step commission position open close)
    (replicate n (cell_of_Z initial_capital), replicate n (Num 0),
     replicate n (cell_of_Z initial_capital))
    (seq 1 (n - 1)).

(** Bars given by their opens and closes, with a Position column as a
    backtest leaves it. *)
Definition positioned_bars (open close : list Z) (position : list cell)
    : frame :=
  Frame (length close)
    {[ "Open" := prices open; "Close" := prices close;
       "Position" := position ]}.




(** State of the ledger columns once the loop has passed bar [k]: rows 1
    to [k] follow from the row before them. *)
Definition ledger_passed (commission : Qc) (position open close : list cell)
    (n k : nat) (st : list cell * list cell * list cell) : Prop :=
  let '(cash, shares, total) := st in
  (length cash = n ∧ length shares = n ∧ length total = n) ∧
  (∀ i, (1 ≤ i ≤ k)%nat → (i < n)%nat →
     (cash !!! i, shares !!! i) =
       trade commission (cash !!! (i - 1)%nat) (shares !!! (i - 1)%nat)
         (position !!! i) (open !!! i) ∧
     total !!! i = cadd (cash !!! i) (cmul (shares !!! i) (close !!! i))).

(** Three bars with an entry on bar 1 and an exit on bar 2. *)
Definition round_trip_bars : frame :=
  positioned_bars [10; 11; 12]%Z [10; 12; 11]%Z
    [NaN; Num 1; cell_of_Z (-1)].


(** ** Facts about cells and series *)

Section series_facts.
Implicit Types (s : list cell) (x y : cell) (i n : nat).

Lemma csub_NaN_r x : csub x NaN = NaN.
Proof. by destruct x. Qed.

Lemma cdiv_NaN_r x : cdiv x NaN = NaN.
Proof. by destruct x. Qed.

Lemma length_shift s : length (Series.shift s) = length s.
Proof. unfold Series.shift. rewrite length_take. simpl. lia. Qed.

Lemma shift_lookup_0 s : s ≠ [] → Series.shift s !! 0%nat = Some NaN.
Proof. by destruct s. Qed.

Lemma shift_lookup_S s i :
  (S i < length s)%nat → Series.shift s !! S i = s !! i.
Proof.
  intros Hi. unfold Series.shift. rewrite lookup_take_lt by done. done.
Qed.

Lemma length_diff s : length (Series.diff s) = length s.
Proof. unfold Series.diff. rewrite length_zip_with, length_shift. lia. Qed.

Lemma diff_lookup_0 s : s ≠ [] → Series.diff s !! 0%nat = Some NaN.
Proof.
  intros Hs. unfold Series.diff. rewrite lookup_zip_with.
  rewrite shift_lookup_0 by done. destruct s as [|x s]; [done|].
  simpl. by rewrite csub_NaN_r.
Qed.

Lemma diff_lookup_S s i a b :
  s !! i = Some a → s !! S i = Some b →
  Series.diff s !! S i = Some (csub b a).
Proof.
  intros Ha Hb. unfold Series.diff. rewrite lookup_zip_with.
  rewrite shift_lookup_S by (by eapply lookup_lt_Some).
  by rewrite Ha, Hb.
Qed.

Lemma length_ffill_from x s : length (Series.ffill_from x s) = length s.
Proof. revert x. induction s as [|y s IH]; intros x; simpl; [done|]. by rewrite IH. Qed.

Lemma length_pct_change s : length (Series.pct_change s) = length s.
Proof.
  unfold Series.pct_change, Series.ffill.
  rewrite length_fmap, length_zip_with, length_shift, length_ffill_from. lia.
Qed.

Lemma pct_change_lookup_0 s : s ≠ [] → Series.pct_change s !! 0%nat = Some NaN.
Proof. by destruct s as [|x s]; [|intros _; cbn; destruct (isnan x), x]. Qed.

Lemma ffill_from_lookup x s i y :
  s !! i = Some y → isnan y = false →
  Series.ffill_from x s !! i = Some y.
Proof.
  revert x i. induction s as [|z s IH]; intros x i Hy Hnan; [done|].
  destruct i as [|i]; cbn in *.
  - injection Hy as ->. by rewrite Hnan.
  - by apply IH.
Qed.

(** Between two defined values forward filling changes nothing. *)
Lemma pct_change_lookup_defined s i a b :
  s !! i = Some a → s !! S i = Some b →
  isnan a = false → isnan b = false →
  Series.pct_change s !! S i = Some (csub (cdiv b a) (Num 1)).
Proof.
  intros Ha Hb Hna Hnb. unfold Series.pct_change, Series.ffill.
  rewrite list_lookup_fmap, lookup_zip_with.
  rewrite shift_lookup_S
    by (rewrite length_ffill_from; by eapply lookup_lt_Some).
  by rewrite (ffill_from_lookup _ _ _ _ Ha Hna),
    (ffill_from_lookup _ _ _ _ Hb Hnb).
Qed.

Lemma length_rolling_mean w s : length (Series.rolling_mean w s) = length s.
Proof. unfold Series.rolling_mean. by rewrite length_imap. Qed.

Lemma rolling_mean_lookup w s i :
  (i < length s)%nat →
  Series.rolling_mean w s !! i = Some (Series.rolling_mean_at w s i).
Proof.
  intros Hi. unfold Series.rolling_mean. rewrite list_lookup_imap.
  destruct (lookup_lt_is_Some_2 s i Hi) as [x ->]. done.
Qed.

Lemma length_ewm_from a x o s : length (Series.ewm_from a x o s) = length s.
Proof.
  revert x o. induction s as [|y s IH]; intros x o; simpl; [done|].
  destruct (if negb (isnan x) then _ else _) as [x' o']. simpl. by rewrite IH.
Qed.

Lemma length_prep_values s : length (Series.prep_values s) = length s.
Proof. unfold Series.prep_values. by rewrite length_fmap. Qed.

Lemma length_ewm_mean k s : length (Series.ewm_mean k s) = length s.
Proof.
  unfold Series.ewm_mean. rewrite <- (length_prep_values s).
  destruct (Series.prep_values s); simpl; [done|].
  by rewrite length_ewm_from.
Qed.

Lemma length_cumprod_from x s : length (Series.cumprod_from x s) = length s.
Proof.
  revert x. induction s as [|y s IH]; intros x; simpl; [done|].
  destruct (isnan y); simpl; by rewrite IH.
Qed.

Lemma length_cumprod s : length (Series.cumprod s) = length s.
Proof. apply length_cumprod_from. Qed.

Lemma length_cummax_from x s : length (Series.cummax_from x s) = length s.
Proof.
  revert x. induction s as [|y s IH]; intros x; simpl; [done|].
  destruct (isnan y); simpl; by rewrite IH.
Qed.

Lemma length_where_gt a b :
  length (Series.where_gt a b) = Nat.min (length a) (length b).
Proof. unfold Series.where_gt. by rewrite length_zip_with. Qed.

End series_facts.


(** ** The order on cells *)

(** Moves an order goal on canonical rationals to [Q], where [lra] works. *)
Ltac qc_lra :=
  unfold Qcle, Qclt, Qcplus, Qcmult, Qcopp, Qcminus, Qc_of_Z, Q2Qc,
    inject_Z in *;
  cbn [this] in *; rewrite ?Qred_correct in *; lra.

Section cell_order.
Implicit Types (x y z : cell) (a b : Qc).

Lemma Qc_ltb_lt (a b : Qc) : Qc_ltb a b = true ↔ a < b.
Proof. unfold Qc_ltb. by rewrite bool_decide_eq_true. Qed.

Lemma Qc_eqb_eq (a b : Qc) : Qc_eqb a b = true ↔ a = b.
Proof. unfold Qc_eqb. by rewrite bool_decide_eq_true. Qed.

Lemma cleb_refl x : isnan x = false → cleb x x = true.
Proof.
  destruct x as [a| | |]; try done. intros _. unfold cleb. cbn.
  apply orb_true_iff. right. by apply Qc_eqb_eq.
Qed.

Lemma cleb_num a b : cleb (Num a) (Num b) = true ↔ a ≤ b.
Proof.
  unfold cleb. cbn [cltb ceqb]. rewrite orb_true_iff, Qc_ltb_lt, Qc_eqb_eq.
  split.
  - intros [H | ->]; [by apply Qclt_le_weak|apply Qcle_refl].
  - intros H. destruct (Qcle_lt_or_eq _ _ H); auto.
Qed.

Lemma cltb_cleb x y : cltb x y = true → cleb x y = true.
Proof. intros H. unfold cleb. by rewrite H. Qed.

Lemma not_cltb_cleb x y :
  isnan x = false → isnan y = false → cltb x y = false → cleb y x = true.
Proof.
  destruct x as [a| | |], y as [b| | |]; try done; intros _ _.
  cbn [cltb]. intros H. apply cleb_num. apply Qcnot_lt_le. intros Hlt.
  apply Qc_ltb_lt in Hlt. congruence.
Qed.

Lemma cleb_trans x y z : cleb x y = true → cleb y z = true → cleb x z = true.
Proof.
  destruct x as [a| | |], y as [b| | |], z as [c| | |]; try done.
  rewrite !cleb_num. apply Qcle_trans.
Qed.

Lemma cmax_notnan x y :
  isnan x = false → isnan y = false → isnan (Series.cmax x y) = false.
Proof. intros Hx Hy. unfold Series.cmax. by destruct (cltb x y). Qed.

Lemma cmax_ub_l x y :
  isnan x = false → isnan y = false → cleb x (Series.cmax x y) = true.
Proof.
  intros Hx Hy. unfold Series.cmax. destruct (cltb x y) eqn:E.
  - by apply cltb_cleb.
  - by apply cleb_refl.
Qed.

Lemma cmax_ub_r x y :
  isnan x = false → isnan y = false → cleb y (Series.cmax x y) = true.
Proof.
  intros Hx Hy. unfold Series.cmax. destruct (cltb x y) eqn:E.
  - by apply cleb_refl.
  - by apply not_cltb_cleb.
Qed.

Lemma cmin_notnan x y :
  isnan x = false → isnan y = false → isnan (Series.cmin x y) = false.
Proof. intros Hx Hy. unfold Series.cmin. by destruct (cltb y x). Qed.

Lemma cmin_lb_l x y :
  isnan x = false → isnan y = false → cleb (Series.cmin x y) x = true.
Proof.
  intros Hx Hy. unfold Series.cmin. destruct (cltb y x) eqn:E.
  - by apply cltb_cleb.
  - by apply cleb_refl.
Qed.

Lemma cmin_lb_r x y :
  isnan x = false → isnan y = false → cleb (Series.cmin x y) y = true.
Proof.
  intros Hx Hy. unfold Series.cmin. destruct (cltb y x) eqn:E.
  - by apply cleb_refl.
  - by apply not_cltb_cleb.
Qed.

End cell_order.


(** ** Running the store monad *)

Section monad_facts.
Implicit Types (σ : store) (f : frame) (l : loc) (name : string).

Lemma bind_run {A B} (m : M A) (k : A → M B) σ :
  (m ≫= k) σ = match m σ with
               | Returns (a, σ') => k a σ'
               | Raises e => Raises e
               end.
Proof. reflexivity. Qed.

Lemma ret_run {A} (a : A) σ : (mret a : M A) σ = Returns (a, σ).
Proof. reflexivity. Qed.

Lemma bind_returns {A B} (m : M A) (k : A → M B) σ a σ' :
  m σ = Returns (a, σ') → (m ≫= k) σ = k a σ'.
Proof. intros H. by rewrite bind_run, H. Qed.

Lemma get_frame_run σ l f :
  σ !! l = Some f → get_frame l σ = Returns (f, σ).
Proof. intros H. unfold get_frame. by rewrite H. Qed.

Lemma has_col_run σ l f name :
  σ !! l = Some f →
  has_col l name σ = Returns (bool_decide (is_Some (cols f !! name)), σ).
Proof. intros H. unfold has_col. by rewrite (bind_returns _ _ _ _ _ (get_frame_run _ _ _ H)). Qed.

Lemma get_col_run σ l f name c :
  σ !! l = Some f → cols f !! name = Some c →
  get_col l name σ = Returns (c, σ).
Proof.
  intros H Hc. unfold get_col.
  rewrite (bind_returns _ _ _ _ _ (get_frame_run _ _ _ H)). by rewrite Hc.
Qed.

Lemma set_col_run σ l f name c :
  σ !! l = Some f → length c = nrows f →
  set_col l name c σ =
    Returns ((), <[l := Frame (nrows f) (<[name := c]> (cols f))]> σ).
Proof.
  intros H Hc. unfold set_col.
  rewrite (bind_returns _ _ _ _ _ (get_frame_run _ _ _ H)).
  by rewrite bool_decide_eq_true_2.
Qed.

Lemma df_copy_run σ l f :
  σ !! l = Some f → df_copy l σ = Returns (length σ, σ ++ [f]).
Proof.
  intros H. unfold df_copy.
  by rewrite (bind_returns _ _ _ _ _ (get_frame_run _ _ _ H)).
Qed.

Lemma lookup_top σ f : (σ ++ [f]) !! length σ = Some f.
Proof. by rewrite list_lookup_middle. Qed.

Lemma insert_top σ f f' : <[length σ := f']> (σ ++ [f]) = σ ++ [f'].
Proof.
  rewrite insert_app_r_alt by lia. by rewrite Nat.sub_diag.
Qed.

End monad_facts.


(** ** Symbolic execution of [backtest_strategy] *)

Section top_frame.
Implicit Types (σ : store) (f : frame) (l : loc) (name : string).

Lemma get_col_top σ f name :
  get_col (length σ) name (σ ++ [f]) =
    match cols f !! name with
    | Some c => Returns (c, σ ++ [f])
    | None => Raises (KeyError name)
    end.
Proof.
  unfold get_col. rewrite (bind_returns _ _ _ _ _ (get_frame_run _ _ _ (lookup_top σ f))).
  by destruct (cols f !! name).
Qed.

Lemma has_col_top σ f name :
  has_col (length σ) name (σ ++ [f]) =
    Returns (bool_decide (is_Some (cols f !! name)), σ ++ [f]).
Proof. apply has_col_run, lookup_top. Qed.

Lemma set_col_top σ f name c :
  set_col (length σ) name c (σ ++ [f]) =
    if bool_decide (length c = nrows f)
    then Returns ((), σ ++ [Frame (nrows f) (<[name := c]> (cols f))])
    else Raises ValueError.
Proof.
  unfold set_col. rewrite (bind_returns _ _ _ _ _ (get_frame_run _ _ _ (lookup_top σ f))).
  case_bool_decide; [|done]. unfold put_frame. by rewrite insert_top.
Qed.

Lemma set_scalar_top σ f name v :
  set_scalar (length σ) name v (σ ++ [f]) =
    Returns ((), σ ++ [Frame (nrows f)
                         (<[name := replicate (nrows f) v]> (cols f))]).
Proof.
  unfold set_scalar. rewrite (bind_returns _ _ _ _ _ (get_frame_run _ _ _ (lookup_top σ f))).
  rewrite set_col_top. by rewrite bool_decide_eq_true_2 by apply length_replicate.
Qed.

Lemma rolling_window_run w σ :
  (0 ≤ w)%Z → rolling_window w σ = Returns (Z.to_nat w, σ).
Proof. intros H. unfold rolling_window. by rewrite bool_decide_eq_false_2 by lia. Qed.

Lemma wf_frame_length f name c :
  wf_frame f → cols f !! name = Some c → length c = nrows f.
Proof. intros Hwf Hc. exact (Hwf _ _ Hc). Qed.

Lemma length_signal_column w n short long :
  length short = n → length long = n →
  length (signal_column w n short long) = n.
Proof.
  intros Hs Hl. unfold signal_column.
  rewrite length_app, length_take, length_replicate, length_where_gt, !length_drop.
  rewrite Hs, Hl. unfold slice_start. case_bool_decide; lia.
Qed.

(** Within the rows, the flags on the right of the slice assignment are
    as many as the slice on its left holds. *)
Lemma flags_fit_slice w n short long :
  length short = n → length long = n →
  (- Z.of_nat n ≤ w ≤ Z.of_nat n)%Z →
  Z.of_nat
    (length (Series.where_gt (drop (slice_start w (length short)) short)
                             (drop (slice_start w (length long)) long))) =
    slice_length w n.
Proof.
  intros Hs Hl Hw. rewrite length_where_gt, !length_drop, Hs, Hl.
  unfold slice_start, slice_length. case_bool_decide; lia.
Qed.

(** Outside the rows they are not. *)
Lemma flags_miss_slice w n short long :
  length short = n → length long = n →
  (w < - Z.of_nat n ∨ Z.of_nat n < w)%Z →
  Z.of_nat
    (length (Series.where_gt (drop (slice_start w (length short)) short)
                             (drop (slice_start w (length long)) long))) ≠
    slice_length w n.
Proof.
  intros Hs Hl Hw. rewrite length_where_gt, !length_drop, Hs, Hl.
  unfold slice_start, slice_length. case_bool_decide; lia.
Qed.
End top_frame.

(** Length side conditions of column assignments. *)
Ltac len_solve :=
  repeat first
    [ rewrite length_rolling_mean | rewrite length_diff
    | rewrite length_pct_change | rewrite length_cumprod
    | rewrite length_fmap | rewrite length_zip_with
    | rewrite length_shift | rewrite length_replicate
    | rewrite length_ewm_mean
    | rewrite length_signal_column by (len_solve) ];
  lia.

(** Runs the primitive at the head of a program on the frame at the end of the
    store. *)
Ltac run_top :=
  repeat first
    [ rewrite bind_run
    | rewrite get_col_top
    | rewrite set_col_top
    | rewrite set_scalar_top
    | rewrite has_col_top
    | rewrite rolling_window_run by lia
    | progress cbn [cols nrows]
    | rewrite lookup_insert_eq
    | rewrite lookup_insert_ne by done
    | rewrite bool_decide_eq_true_2 by len_solve ].


Section backtest_run.
Implicit Types (σ : store) (f : frame).

Lemma backtest_strategy_run σ data f w wl close short long :
  σ !! data = Some f → wf_frame f →
  cols f !! "Close" = Some close →
  averages_used f w wl close short long →
  (- Z.of_nat (nrows f) ≤ w ≤ Z.of_nat (nrows f))%Z →
  backtest_strategy data w wl σ =
    Returns (length σ,
             σ ++ [Frame (nrows f)
                     (backtest_cols w (nrows f) short long close (cols f))]).
Proof.
  intros Hf Hwf Hclose Havg Hw.
  pose proof (wf_frame_length _ _ _ Hwf Hclose) as Hlc.
  unfold backtest_strategy, set_slice_from, averages_used in *.
  rewrite bind_run, (df_copy_run _ _ _ Hf).
  rewrite bind_run, has_col_top.
  destruct (cols f !! "SMA_20") as [c20|] eqn:H20.
  - destruct Havg as [-> H50].
    pose proof (wf_frame_length _ _ _ Hwf H20) as Hls.
    pose proof (wf_frame_length _ _ _ Hwf H50) as Hll.
    rewrite bool_decide_eq_true_2 by eauto. cbn [negb].
    run_top. rewrite H20. run_top. rewrite H50. run_top.
    rewrite length_replicate.
    rewrite (bool_decide_eq_true_2 _ (flags_fit_slice w _ _ _ Hls Hll Hw)).
    change (take _ _ ++ _) with (signal_column w (nrows f) short long).
    run_top. rewrite Hclose. run_top.
    rewrite insert_insert_eq. reflexivity.
  - destruct Havg as (Hw0 & Hwl & -> & ->).
    rewrite bool_decide_eq_false_2 by (intros [? ?]; done). cbn [negb].
    run_top. rewrite Hclose. run_top. rewrite Hclose. run_top.
    rewrite length_replicate.
    rewrite bool_decide_eq_true_2
      by (apply flags_fit_slice; [by rewrite length_rolling_mean..|done]).
    change (take _ _ ++ _) with
      (signal_column w (nrows f)
         (Series.rolling_mean (Z.to_nat w) close)
         (Series.rolling_mean (Z.to_nat wl) close)).
    run_top. rewrite Hclose. run_top.
    rewrite insert_insert_eq. reflexivity.
Qed.
End backtest_run.


Section signal_facts.
Implicit Types (short long : list cell) (w : Z) (i n : nat).

Lemma backtest_ready_averages f w wl :
  backtest_ready f w wl →
  ∃ close short long,
    cols f !! "Close" = Some close ∧ averages_used f w wl close short long.
Proof.
  intros ([close Hc] & H & _). unfold averages_used.
  destruct (cols f !! "SMA_20") as [c|].
  - destruct H as [long Hl]. by exists close, c, long.
  - destruct H as [? ?]. by eexists close, _, _.
Qed.

Lemma backtest_ready_bound f w wl :
  backtest_ready f w wl →
  (- Z.of_nat (nrows f) ≤ w ≤ Z.of_nat (nrows f))%Z.
Proof. by intros (_ & _ & ?). Qed.


Lemma where_gt_binary a b i v :
  Series.where_gt a b !! i = Some v → v = Num 0 ∨ v = Num 1.
Proof.
  unfold Series.where_gt. rewrite lookup_zip_with.
  destruct (a !! i) as [x|]; [|done]. destruct (b !! i) as [y|]; [|done].
  simpl. intros [= <-]. destruct (cgtb x y); auto.
Qed.

Lemma signal_column_binary w n short long i v :
  signal_column w n short long !! i = Some v → v = Num 0 ∨ v = Num 1.
Proof.
  unfold signal_column. intros [H|[_ H]]%lookup_app_Some.
  - apply lookup_take_Some in H as [H _].
    apply lookup_replicate in H as [-> _]. by left.
  - by eapply where_gt_binary.
Qed.

Lemma slice_start_nonneg w n :
  (0 ≤ w)%Z → slice_start w n = Nat.min (Z.to_nat w) n.
Proof. intros H. unfold slice_start. by rewrite bool_decide_eq_false_2 by lia. Qed.

Lemma signal_column_warmup w n short long i :
  (0 ≤ w)%Z → (i < n)%nat → (Z.of_nat i < w)%Z →
  signal_column w n short long !! i = Some (Num 0).
Proof.
  intros Hw Hi Hiw. unfold signal_column.
  rewrite slice_start_nonneg by done.
  rewrite lookup_app_l by (rewrite length_take, length_replicate; lia).
  rewrite lookup_take_lt by lia. apply lookup_replicate. split; [done|lia].
Qed.

End signal_facts.

(** Discharges [backtest_ready] on a concrete frame. *)
Ltac ready_solve :=
  split; [by eexists|];
  split; [vm_compute; first [by eexists | split; discriminate]
         |vm_compute; split; discriminate].


(** ** The Signal column and the averages it is built from *)

Section backtest_columns.
Implicit Types (base : gmap string (list cell)).

Lemma backtest_cols_short w n short long close base :
  backtest_cols w n short long close base !! "SMA_short" = Some short.
Proof. unfold backtest_cols. by repeat (rewrite lookup_insert_ne by done); rewrite lookup_insert_eq. Qed.

Lemma backtest_cols_long w n short long close base :
  backtest_cols w n short long close base !! "SMA_long" = Some long.
Proof. unfold backtest_cols. by repeat (rewrite lookup_insert_ne by done); rewrite lookup_insert_eq. Qed.

Lemma backtest_cols_signal w n short long close base :
  backtest_cols w n short long close base !! "Signal" =
    Some (signal_column w n short long).
Proof. unfold backtest_cols. by repeat (rewrite lookup_insert_ne by done); rewrite lookup_insert_eq. Qed.

Lemma backtest_cols_position w n short long close base :
  backtest_cols w n short long close base !! "Position" =
    Some (Series.diff (signal_column w n short long)).
Proof. unfold backtest_cols. by repeat (rewrite lookup_insert_ne by done); rewrite lookup_insert_eq. Qed.

Lemma backtest_cols_daily w n short long close base :
  backtest_cols w n short long close base !! "Daily_Return" =
    Some (Series.pct_change close).
Proof. unfold backtest_cols. by repeat (rewrite lookup_insert_ne by done); rewrite lookup_insert_eq. Qed.

Lemma backtest_cols_strategy w n short long close base :
  backtest_cols w n short long close base !! "Strategy_Return" =
    Some (zip_with cmul
            (Series.shift (Series.diff (signal_column w n short long)))
            (Series.pct_change close)).
Proof. unfold backtest_cols. by repeat (rewrite lookup_insert_ne by done); rewrite lookup_insert_eq. Qed.

Lemma backtest_cols_market w n short long close base :
  backtest_cols w n short long close base !! "Cumulative_Market" =
    Some (Series.cumprod (cadd (Num 1) <$> Series.pct_change close)).
Proof. unfold backtest_cols. by repeat (rewrite lookup_insert_ne by done); rewrite lookup_insert_eq. Qed.

Lemma backtest_cols_cumulative w n short long close base :
  backtest_cols w n short long close base !! "Cumulative_Strategy" =
    Some (Series.cumprod
            (cadd (Num 1) <$>
             zip_with cmul
               (Series.shift (Series.diff (signal_column w n short long)))
               (Series.pct_change close))).
Proof. unfold backtest_cols. by rewrite lookup_insert_eq. Qed.

Lemma backtest_cols_close w n short long close base :
  backtest_cols w n short long close base !! "Close" = base !! "Close".
Proof. unfold backtest_cols. by repeat (rewrite lookup_insert_ne by done). Qed.

Lemma averages_used_lengths f w wl close short long :
  wf_frame f → cols f !! "Close" = Some close →
  averages_used f w wl close short long →
  length short = nrows f ∧ length long = nrows f.
Proof.
  intros Hwf Hc. unfold averages_used.
  destruct (cols f !! "SMA_20") as [c|] eqn:H20.
  - intros [-> H50]. eauto using wf_frame_length.
  - intros (_ & _ & -> & ->). rewrite !length_rolling_mean.
    eauto using wf_frame_length.
Qed.

End backtest_columns.







(** ** Daily and strategy returns *)

Section position_facts.
Implicit Types (s : list cell) (i : nat).

Lemma csub_binary a b :
  (a = Num 0 ∨ a = Num 1) → (b = Num 0 ∨ b = Num 1) →
  csub b a = Num (-1) ∨ csub b a = Num 0 ∨ csub b a = Num 1.
Proof.
  intros [-> | ->] [-> | ->]; unfold csub; cbn [cneg cadd].
  - right; left; f_equal; ring.
  - right; right; f_equal; ring.
  - left; f_equal; ring.
  - right; left; f_equal; ring.
Qed.

Lemma diff_binary_lookup s i a :
  (∀ j v, s !! j = Some v → v = Num 0 ∨ v = Num 1) →
  s !! i = Some a → (S i < length s)%nat →
  ∃ p, Series.diff s !! S i = Some p ∧
       (p = Num (-1) ∨ p = Num 0 ∨ p = Num 1).
Proof.
  intros Hbin Ha Hi.
  destruct (lookup_lt_is_Some_2 s (S i) Hi) as [b Hb].
  exists (csub b a). split; [by apply diff_lookup_S|].
  apply csub_binary; eauto.
Qed.
End position_facts.

(** C1, as the code has it, on every frame the backtest is ready for:
    Position is the signal delta, undefined at bar 0 and
    [Signal[i] - Signal[i-1]], one of -1, 0 and +1, at every later bar;
    the daily return is undefined at bar 0 and is
    [Close[i]/Close[i-1] - 1] wherever both closes are defined; for every
    bar [i >= 1] the strategy return is the Position of bar [i-1] times
    the daily return of bar [i], which leaves it undefined at bars 0
    and 1. *)
Theorem strategy_return_lagged (σ : store) (data : loc) (f : frame)
    (sma_short sma_long : Z) (close : list cell) :
  σ !! data = Some f → wf_frame f → backtest_ready f sma_short sma_long →
  cols f !! "Close" = Some close →
  ∃ f' signal position daily strat,
    backtest_strategy data sma_short sma_long σ =
      Returns (length σ, σ ++ [f']) ∧
    cols f' !! "Close" = Some close ∧
    cols f' !! "Signal" = Some signal ∧
    cols f' !! "Position" = Some position ∧
    cols f' !! "Daily_Return" = Some daily ∧
    cols f' !! "Strategy_Return" = Some strat ∧
    (length signal = nrows f ∧ length position = nrows f ∧
     length daily = nrows f ∧ length strat = nrows f) ∧
    (nrows f ≠ 0%nat →
       position !! 0%nat = Some NaN ∧ daily !! 0%nat = Some NaN ∧
       strat !! 0%nat = Some NaN) ∧
    (∀ i s0 s1, signal !! i = Some s0 → signal !! S i = Some s1 →
       position !! S i = Some (csub s1 s0) ∧
       (csub s1 s0 = Num (-1) ∨ csub s1 s0 = Num 0 ∨ csub s1 s0 = Num 1)) ∧
    (∀ i c0 c1, close !! i = Some c0 → close !! S i = Some c1 →
       isnan c0 = false → isnan c1 = false →
       daily !! S i = Some (csub (cdiv c1 c0) (Num 1))) ∧
    (∀ i p d, position !! i = Some p → daily !! S i = Some d →
       strat !! S i = Some (cmul p d)) ∧
    ((2 ≤ nrows f)%nat → strat !! 1%nat = Some NaN).
Proof.
  intros Hf Hwf Hready Hclose.
  pose proof (backtest_ready_bound _ _ _ Hready) as Hbound.
  destruct (backtest_ready_averages _ _ _ Hready)
    as (close' & short & long & Hclose' & Havg).
  assert (close' = close) as -> by congruence.
  destruct (averages_used_lengths _ _ _ _ _ _ Hwf Hclose Havg) as [Hs Hl].
  pose proof (wf_frame_length _ _ _ Hwf Hclose) as Hlc.
  pose proof (length_signal_column sma_short _ _ _ Hs Hl) as Hlsig.
  set (signal := signal_column sma_short (nrows f) short long) in *.
  assert (∀ i p d, Series.diff signal !! i = Some p →
            Series.pct_change close !! S i = Some d →
            zip_with cmul (Series.shift (Series.diff signal))
              (Series.pct_change close) !! S i = Some (cmul p d)) as Hlag.
  { intros i p d Hp Hd. pose proof (lookup_lt_Some _ _ _ Hd) as Hi.
    rewrite length_pct_change in Hi.
    rewrite lookup_zip_with, shift_lookup_S, Hp, Hd; [done|].
    rewrite length_diff. lia. }
  eexists _, signal, _, _, _. split; [by eapply backtest_strategy_run|].
  cbn [cols].
  rewrite backtest_cols_position, backtest_cols_daily, backtest_cols_strategy.
  rewrite backtest_cols_close, backtest_cols_signal.
  fold signal.
  do 5 (split; [done|]). split.
  { rewrite length_diff, length_pct_change, length_zip_with, length_shift,
      length_diff, length_pct_change. repeat split; lia. }
  split.
  { intros Hn. repeat split.
    - apply diff_lookup_0. intros E. by rewrite E in Hlsig.
    - apply pct_change_lookup_0. intros E. by rewrite E in Hlc.
    - rewrite lookup_zip_with, shift_lookup_0.
      + rewrite pct_change_lookup_0; [done|]. intros E. by rewrite E in Hlc.
      + intros E. apply (f_equal length) in E.
        rewrite length_diff, Hlsig in E. done. }
  split.
  { intros i s0 s1 H0 H1. split; [by apply diff_lookup_S|].
    apply csub_binary; by eapply signal_column_binary. }
  split.
  { intros i c0 c1 H0 H1 Hn0 Hn1. by apply pct_change_lookup_defined. }
  split; [done|].
  intros Hn.
  destruct (lookup_lt_is_Some_2 (Series.pct_change close) 1) as [d Hd];
    [rewrite length_pct_change; lia|].
  rewrite (Hlag 0%nat NaN d); [done| |done].
  apply diff_lookup_0. intros E. rewrite E in Hlsig. cbn in Hlsig. lia.
Qed.

Lemma strategy_return_lagged_witness :
  ∃ f' signal position daily strat,
    backtest_strategy 0%nat 2 3 [bars [10; 11; 12; 11; 13]%Z] =
      Returns (1%nat, [bars [10; 11; 12; 11; 13]%Z] ++ [f']) ∧
    cols f' !! "Close" = Some (prices [10; 11; 12; 11; 13]%Z) ∧
    cols f' !! "Signal" = Some signal ∧
    cols f' !! "Position" = Some position ∧
    cols f' !! "Daily_Return" = Some daily ∧
    cols f' !! "Strategy_Return" = Some strat ∧
    (length signal = 5%nat ∧ length position = 5%nat ∧
     length daily = 5%nat ∧ length strat = 5%nat) ∧
    (5%nat ≠ 0%nat →
       position !! 0%nat = Some NaN ∧ daily !! 0%nat = Some NaN ∧
       strat !! 0%nat = Some NaN) ∧
    (∀ i s0 s1, signal !! i = Some s0 → signal !! S i = Some s1 →
       position !! S i = Some (csub s1 s0) ∧
       (csub s1 s0 = Num (-1) ∨ csub s1 s0 = Num 0 ∨ csub s1 s0 = Num 1)) ∧
    (∀ i c0 c1,
       prices [10; 11; 12; 11; 13]%Z !! i = Some c0 →
       prices [10; 11; 12; 11; 13]%Z !! S i = Some c1 →
       isnan c0 = false → isnan c1 = false →
       daily !! S i = Some (csub (cdiv c1 c0) (Num 1))) ∧
    (∀ i p d, position !! i = Some p → daily !! S i = Some d →
       strat !! S i = Some (cmul p d)) ∧
    ((2 ≤ 5)%nat → strat !! 1%nat = Some NaN).
Proof.
  apply (strategy_return_lagged
           [bars [10; 11; 12; 11; 13]%Z] 0%nat
           (bars [10; 11; 12; 11; 13]%Z) 2 3
           (prices [10; 11; 12; 11; 13]%Z)).
  - reflexivity.
  - apply (bool_decide_unpack _). vm_compute. exact I.
  - ready_solve.
  - vm_compute. reflexivity.
Defined.

(** C1 as stated fails in two places.  In every backtest, here twenty-two
    bars under the default windows 20 and 50, Position at bar 0 is NaN,
    none of -1, 0 and +1, and so the strategy return of bar 1 is undefined
    too.  And where a close is missing the daily return is not
    [Close[i]/Close[i-1] - 1]: pandas fills the gap with the close before
    it, so on [gapped_bars] the daily return of bar 1 is 0 while that
    quotient is undefined. *)
Lemma position_undefined_at_bar0 :
  (∃ f' position strat,
     backtest_strategy 0%nat 20 50 [bars spike_and_rebound] =
       Returns (1%nat, [bars spike_and_rebound; f']) ∧
     cols f' !! "Position" = Some position ∧
     cols f' !! "Strategy_Return" = Some strat ∧
     position !! 0%nat = Some NaN ∧
     strat !! 1%nat = Some NaN ∧
     ¬ (∀ i, (1 ≤ i < 22)%nat →
          ∃ p, position !! (i - 1)%nat = Some p ∧
               (p = Num (-1) ∨ p = Num 0 ∨ p = Num 1))) ∧
  (∃ f' close daily c0 c1,
     backtest_strategy 0%nat 20 50 [gapped_bars] =
       Returns (1%nat, [gapped_bars; f']) ∧
     cols f' !! "Close" = Some close ∧
     cols f' !! "Daily_Return" = Some daily ∧
     close !! 0%nat = Some c0 ∧ close !! 1%nat = Some c1 ∧
     daily !! 1%nat = Some (Num 0) ∧
     csub (cdiv c1 c0) (Num 1) = NaN).
Proof.
  split.
  - eexists _, _, _.
    split; [vm_compute; reflexivity|].
    split; [vm_compute; reflexivity|].
    split; [vm_compute; reflexivity|].
    split; [reflexivity|]. split; [reflexivity|].
    intros H. destruct (H 1%nat) as (p & Hp & Hcases); [lia|].
    injection Hp as <-. by destruct Hcases as [|[|]].
  - eexists _, _, _, _, _.
    split; [vm_compute; reflexivity|].
    split; [vm_compute; reflexivity|].
    split; [vm_compute; reflexivity|].
    split; [reflexivity|]. split; [reflexivity|].
    split; [|reflexivity].
    vm_compute. do 2 f_equal; by apply Qc_is_canon.
Qed.


(** ** Cumulative returns *)

Section cumprod_facts.
Implicit Types (s rs : list cell) (x y acc : cell) (i : nat).

Lemma cmul_one_r x : cmul x (Num 1) = x.
Proof. destruct x; try done. cbn. f_equal; ring. Qed.

Lemma isnan_cadd_one x : isnan (cadd (Num 1) x) = isnan x.
Proof. by destruct x. Qed.

Lemma cumprod_from_growth rs acc i r :
  rs !! i = Some r →
  Series.cumprod_from acc (cadd (Num 1) <$> rs) !! i =
    Some (if isnan r then NaN
          else foldl cmul acc
                 ((λ r, cadd (Num 1) (if isnan r then Num 0 else r)) <$>
                  take (S i) rs)).
Proof.
  revert acc i. induction rs as [|x rs IH]; intros acc i Hr; [done|].
  cbn [fmap list_fmap Series.cumprod_from].
  rewrite isnan_cadd_one.
  destruct i as [|i]; cbn in Hr.
  - injection Hr as ->. destruct (isnan r) eqn:E; [done|]. cbn. by rewrite E.
  - rewrite firstn_cons. cbn [fmap list_fmap foldl].
    destruct (isnan x) eqn:Hx.
    + rewrite lookup_cons_ne_0 by done. cbn [pred].
      rewrite (IH _ _ Hr).
      replace (cadd (Num 1) (Num 0)) with (Num 1) by (cbn; f_equal; ring).
      by rewrite cmul_one_r.
    + rewrite lookup_cons_ne_0 by done. cbn [pred]. by rewrite (IH _ _ Hr).
Qed.

Lemma cumprod_growth rs i r :
  rs !! i = Some r →
  Series.cumprod (cadd (Num 1) <$> rs) !! i =
    Some (if isnan r then NaN else growth (take (S i) rs)).
Proof. apply cumprod_from_growth. Qed.

Lemma inf_signed_pos (s : bool) (a : Qc) :
  0 < a → inf_signed s a = if s then PInf else NInf.
Proof.
  intros Ha. unfold inf_signed, Qc_eqb.
  rewrite bool_decide_eq_false_2, (proj2 (Qc_ltb_lt 0 a)); [done..|].
  intros ->. by apply Qclt_not_eq in Ha.
Qed.

Lemma cmul_positive x y :
  cltb (Num 0) x = true → cltb (Num 0) y = true →
  cltb (Num 0) (cmul x y) = true.
Proof.
  destruct x as [a| | |], y as [b| | |]; cbn [cmul cltb]; try done.
  - rewrite !Qc_ltb_lt. apply Qcmult_pos_pos.
  - rewrite Qc_ltb_lt. intros Ha _. by rewrite inf_signed_pos.
  - rewrite Qc_ltb_lt. intros _ Hb. by rewrite inf_signed_pos.
Qed.

Lemma cumprod_from_positive s acc :
  cltb (Num 0) acc = true →
  (∀ x, x ∈ s → isnan x = false → cltb (Num 0) x = true) →
  ∀ i y, Series.cumprod_from acc s !! i = Some y →
         isnan y = false → cltb (Num 0) y = true.
Proof.
  revert acc. induction s as [|x s IH]; intros acc Hacc Hs i y; [done|].
  cbn [Series.cumprod_from]. destruct (isnan x) eqn:Hx.
  - destruct i as [|i]; cbn.
    + by intros [= <-].
    + apply IH; [done|]. intros z Hz. apply Hs. by right.
  - assert (cltb (Num 0) (cmul acc x) = true) as Hacc'.
    { apply cmul_positive; [done|]. apply Hs; [by left|done]. }
    destruct i as [|i]; cbn.
    + by intros [= <-].
    + apply IH; [done|]. intros z Hz. apply Hs. by right.
Qed.

Lemma cumprod_from_nonneg s acc :
  nonneg_num acc →
  (∀ x, x ∈ s → isnan x = false → nonneg_num x) →
  ∀ i y, Series.cumprod_from acc s !! i = Some y →
         isnan y = false → nonneg_num y.
Proof.
  revert acc. induction s as [|x s IH]; intros acc Hacc Hs i y; [done|].
  cbn [Series.cumprod_from]. destruct (isnan x) eqn:Hx.
  - destruct i as [|i]; cbn.
    + by intros [= <-].
    + apply IH; [done|]. intros z Hz. apply Hs. by right.
  - assert (nonneg_num (cmul acc x)) as Hacc'.
    { destruct Hacc as (a & -> & Ha).
      destruct (Hs x) as (b & -> & Hb); [by left|done|].
      exists (a * b). split; [done|]. by apply Qcmult_nonneg_nonneg. }
    destruct i as [|i]; cbn.
    + by intros [= <-].
    + apply IH; [done|]. intros z Hz. apply Hs. by right.
Qed.

Lemma nonneg_num_cleb x : nonneg_num x → cleb (Num 0) x = true.
Proof.
  intros (q & -> & Hq). unfold cleb. cbn [cltb ceqb].
  apply orb_true_iff. destruct (Qcle_lt_or_eq _ _ Hq) as [Hlt | <-].
  - left. by apply Qc_ltb_lt.
  - right. by apply Qc_eqb_eq.
Qed.

Lemma positive_cleb x : cltb (Num 0) x = true → cleb (Num 0) x = true.
Proof. intros H. unfold cleb. by rewrite H. Qed.

Lemma market_factor_positive r :
  isnan r = false → cltb (Num (-1)) r = true →
  cltb (Num 0) (cadd (Num 1) r) = true.
Proof.
  destruct r as [q| | |]; cbn [cltb cadd]; try done.
  rewrite !Qc_ltb_lt. intros _ Hq. qc_lra.
Qed.

Lemma strategy_factor_nonneg p r :
  (p = NaN ∨ p = Num (-1) ∨ p = Num 0 ∨ p = Num 1) →
  cltb (Num (-1)) r = true → cleb r (Num 1) = true →
  isnan (cmul p r) = false →
  nonneg_num (cadd (Num 1) (cmul p r)).
Proof.
  intros Hp Hlo Hhi Hnan.
  destruct r as [q| | |]; try done.
  cbn [cltb] in Hlo. apply Qc_ltb_lt in Hlo.
  unfold cleb in Hhi. cbn [cltb ceqb] in Hhi.
  assert (q ≤ 1) as Hq.
  { apply orb_true_iff in Hhi as [H%Qc_ltb_lt | ->%Qc_eqb_eq].
    - by apply Qclt_le_weak.
    - apply Qcle_refl. }
  destruct Hp as [-> | [-> | [-> | ->]]]; [done|..];
    cbn [cmul cadd]; eexists; (split; [done|]); qc_lra.
Qed.

Lemma shift_diff_binary s i p :
  (∀ j v, s !! j = Some v → v = Num 0 ∨ v = Num 1) →
  Series.shift (Series.diff s) !! i = Some p →
  p = NaN ∨ p = Num (-1) ∨ p = Num 0 ∨ p = Num 1.
Proof.
  intros Hbin Hp. pose proof (lookup_lt_Some _ _ _ Hp) as Hi.
  rewrite length_shift, length_diff in Hi.
  destruct i as [|[|i]].
  - rewrite shift_lookup_0 in Hp; [left; congruence|].
    intros E. apply (f_equal length) in E. rewrite length_diff in E.
    cbn in E. lia.
  - rewrite shift_lookup_S in Hp by (rewrite length_diff; lia).
    rewrite diff_lookup_0 in Hp; [left; congruence|].
    intros ->. cbn in Hi. lia.
  - rewrite shift_lookup_S in Hp by (rewrite length_diff; lia).
    destruct (lookup_lt_is_Some_2 s i) as [a Ha]; [lia|].
    destruct (diff_binary_lookup s i a Hbin Ha) as (p' & Hp' & Hcases); [lia|].
    right. congruence.
Qed.
End cumprod_facts.

(** C2, as the code has it, on every frame the backtest is ready for (a
    history of at least [sma_short] bars): both cumulative series are
    undefined (NaN) at index 0, not 1.0.  At every index whose return is defined the
    cumulative value is the product of [1 + return] over the bars so far,
    undefined returns counting as 0.  The market series is non-negative
    wherever it is defined when every defined daily return is above -1;
    the strategy series is when those returns are also at most 1. *)
Theorem cumulative_returns (σ : store) (data : loc) (f : frame)
    (sma_short sma_long : Z) :
  σ !! data = Some f → wf_frame f → backtest_ready f sma_short sma_long →
  ∃ f' daily strat market cumulative,
    backtest_strategy data sma_short sma_long σ =
      Returns (length σ, σ ++ [f']) ∧
    cols f' !! "Daily_Return" = Some daily ∧
    cols f' !! "Strategy_Return" = Some strat ∧
    cols f' !! "Cumulative_Market" = Some market ∧
    cols f' !! "Cumulative_Strategy" = Some cumulative ∧
    (nrows f ≠ 0%nat →
       market !! 0%nat = Some NaN ∧ cumulative !! 0%nat = Some NaN) ∧
    (∀ i r, daily !! i = Some r →
       market !! i =
         Some (if isnan r then NaN else growth (take (S i) daily))) ∧
    (∀ i r, strat !! i = Some r →
       cumulative !! i =
         Some (if isnan r then NaN else growth (take (S i) strat))) ∧
    ((∀ r, r ∈ daily → isnan r = false → cltb (Num (-1)) r = true) →
     ∀ i x, market !! i = Some x → isnan x = false →
            cleb (Num 0) x = true) ∧
    ((∀ r, r ∈ daily → isnan r = false →
           cltb (Num (-1)) r = true ∧ cleb r (Num 1) = true) →
     ∀ i x, cumulative !! i = Some x → isnan x = false →
            cleb (Num 0) x = true).
Proof.
  intros Hf Hwf Hready.
  pose proof (backtest_ready_bound _ _ _ Hready) as Hbound.
  destruct (backtest_ready_averages _ _ _ Hready)
    as (close & short & long & Hclose & Havg).
  destruct (averages_used_lengths _ _ _ _ _ _ Hwf Hclose Havg) as [Hs Hl].
  pose proof (wf_frame_length _ _ _ Hwf Hclose) as Hlc.
  pose proof (length_signal_column sma_short _ _ _ Hs Hl) as Hlsig.
  set (signal := signal_column sma_short (nrows f) short long) in *.
  eexists _, _, _, _, _. split; [by eapply backtest_strategy_run|].
  cbn [cols].
  rewrite backtest_cols_daily, backtest_cols_strategy, backtest_cols_market,
    backtest_cols_cumulative.
  fold signal.
  do 4 (split; [done|]).
  set (daily := Series.pct_change close).
  set (strat := zip_with cmul (Series.shift (Series.diff signal)) daily).
  assert (nrows f ≠ 0%nat → daily !! 0%nat = Some NaN) as Hd0.
  { intros Hn. apply pct_change_lookup_0. intros E. by rewrite E in Hlc. }
  assert (nrows f ≠ 0%nat → strat !! 0%nat = Some NaN) as Hs0.
  { intros Hn. unfold strat. rewrite lookup_zip_with, shift_lookup_0.
    - by rewrite (Hd0 Hn).
    - intros E. apply (f_equal length) in E.
      rewrite length_diff, Hlsig in E. done. }
  split; [|split; [|split; [|split]]].
  - intros Hn. split.
    + by rewrite (cumprod_growth _ _ _ (Hd0 Hn)).
    + by rewrite (cumprod_growth _ _ _ (Hs0 Hn)).
  - intros i r. apply cumprod_growth.
  - intros i r. apply cumprod_growth.
  - intros Hret i x Hx Hnan. apply positive_cleb.
    eapply (cumprod_from_positive _ (Num 1)); [done| |exact Hx|done].
    intros y [r [-> Hr]]%list_elem_of_fmap. rewrite isnan_cadd_one.
    intros Hy. apply market_factor_positive; [done|]. by apply Hret.
  - intros Hret i x Hx Hnan. apply nonneg_num_cleb.
    eapply (cumprod_from_nonneg _ (Num 1)); [|  |exact Hx|done].
    { exists 1. split; [done|]. qc_lra. }
    intros y [r [-> Hr]]%list_elem_of_fmap. rewrite isnan_cadd_one.
    intros Hy. apply list_elem_of_lookup in Hr as [j Hj].
    unfold strat in Hj. rewrite lookup_zip_with in Hj.
    destruct (Series.shift (Series.diff signal) !! j) as [p|] eqn:Hp; [|done].
    destruct (daily !! j) as [d|] eqn:Hd; [|done].
    cbn in Hj. injection Hj as <-.
    assert (isnan d = false) as Hdn by (by destruct p, d).
    destruct (Hret d) as [Hlo Hhi]; [by eapply list_elem_of_lookup_2|done|].
    apply strategy_factor_nonneg; try done.
    eapply shift_diff_binary; [|exact Hp]. apply signal_column_binary.
Qed.

Lemma cumulative_returns_witness :
  ∃ f' daily strat market cumulative,
    backtest_strategy 0%nat 2 3 [bars [10; 11; 12; 11; 13]%Z] =
      Returns (1%nat, [bars [10; 11; 12; 11; 13]%Z] ++ [f']) ∧
    cols f' !! "Daily_Return" = Some daily ∧
    cols f' !! "Strategy_Return" = Some strat ∧
    cols f' !! "Cumulative_Market" = Some market ∧
    cols f' !! "Cumulative_Strategy" = Some cumulative ∧
    market !! 0%nat = Some NaN ∧ cumulative !! 0%nat = Some NaN ∧
    (∀ i r, daily !! i = Some r →
       market !! i =
         Some (if isnan r then NaN else growth (take (S i) daily))) ∧
    (∀ i r, strat !! i = Some r →
       cumulative !! i =
         Some (if isnan r then NaN else growth (take (S i) strat))) ∧
    (∀ i x, market !! i = Some x → isnan x = false →
            cleb (Num 0) x = true) ∧
    (∀ i x, cumulative !! i = Some x → isnan x = false →
            cleb (Num 0) x = true).
Proof.
  destruct (cumulative_returns
              [bars [10; 11; 12; 11; 13]%Z] 0%nat
              (bars [10; 11; 12; 11; 13]%Z) 2 3)
    as (f' & daily & strat & market & cumulative & Hrun & Hd & Hs & Hm & Hc &
        H0 & Hgm & Hgs & Hmkt & Hstr).
  - reflexivity.
  - apply (bool_decide_unpack _). vm_compute. exact I.
  - ready_solve.
  - exists f', daily, strat, market, cumulative.
    do 5 (split; [assumption|]).
    destruct H0 as [Hm0 Hc0]; [cbn; lia|].
    do 4 (split; [assumption|]).
    pose proof Hrun as Hrun'. vm_compute in Hrun'.
    injection Hrun' as <-. vm_compute in Hd. injection Hd as <-.
    split.
    + apply Hmkt.
      apply (proj1 (list.Forall_forall
                      (λ r, isnan r = false → cltb (Num (-1)) r = true) _)).
      apply (bool_decide_unpack _). vm_compute. exact I.
    + apply Hstr.
      apply (proj1 (list.Forall_forall
                      (λ r, isnan r = false →
                            cltb (Num (-1)) r = true ∧
                            cleb r (Num 1) = true) _)).
      apply (bool_decide_unpack _). vm_compute. exact I.
Defined.

(** C2 as stated fails on [spike_and_rebound] under windows 5 and 20:
    both cumulative series are NaN at index 0 rather than 1.0, and
    although every defined daily return is above -1 the cumulative
    strategy value of the last bar is negative (an exit is recorded on
    bar 20 and the close triples on bar 21). *)
Lemma cumulative_undefined_then_negative :
  ∃ f' daily market cumulative x,
    backtest_strategy 0%nat 5 20 [bars spike_and_rebound] =
      Returns (1%nat, [bars spike_and_rebound; f']) ∧
    cols f' !! "Daily_Return" = Some daily ∧
    cols f' !! "Cumulative_Market" = Some market ∧
    cols f' !! "Cumulative_Strategy" = Some cumulative ∧
    market !! 0%nat = Some NaN ∧
    cumulative !! 0%nat = Some NaN ∧
    (∀ r, r ∈ daily → isnan r = false → cltb (Num (-1)) r = true) ∧
    cumulative !! 21%nat = Some x ∧
    isnan x = false ∧ cltb x (Num 0) = true ∧ cleb (Num 0) x = false.
Proof.
  eexists _, _, _, _, _.
  split; [vm_compute; reflexivity|].
  split; [vm_compute; reflexivity|].
  split; [vm_compute; reflexivity|].
  split; [vm_compute; reflexivity|].
  split; [reflexivity|]. split; [reflexivity|].
  split.
  { apply (proj1 (list.Forall_forall
                    (λ r, isnan r = false → cltb (Num (-1)) r = true) _)).
    apply (bool_decide_unpack _).
    vm_compute. exact I. }
  split; [reflexivity|].
  split; [reflexivity|]. split; vm_compute; reflexivity.
Qed.


(** ** Symbolic execution of [calculate_indicators] *)

Section in_place.
Implicit Types (σ : store) (f : frame) (l : loc) (name : string).

Lemma lookup_updated σ l f :
  (l < length σ)%nat → (<[l := f]> σ) !! l = Some f.
Proof. intros H. by apply list_lookup_insert_eq. Qed.

Lemma get_col_at σ l f name :
  (l < length σ)%nat →
  get_col l name (<[l := f]> σ) =
    match cols f !! name with
    | Some c => Returns (c, <[l := f]> σ)
    | None => Raises (KeyError name)
    end.
Proof.
  intros H. unfold get_col.
  rewrite (bind_returns _ _ _ _ _
             (get_frame_run _ _ _ (lookup_updated σ l f H))).
  by destruct (cols f !! name).
Qed.

Lemma set_col_at σ l f name c :
  (l < length σ)%nat →
  set_col l name c (<[l := f]> σ) =
    if bool_decide (length c = nrows f)
    then Returns ((), <[l := Frame (nrows f) (<[name := c]> (cols f))]> σ)
    else Raises ValueError.
Proof.
  intros H. unfold set_col.
  rewrite (bind_returns _ _ _ _ _
             (get_frame_run _ _ _ (lookup_updated σ l f H))).
  case_bool_decide; [|done]. unfold put_frame.
  by rewrite list_insert_insert_eq.
Qed.

Lemma length_rsi_column close : length (rsi_column close) = length close.
Proof.
  unfold rsi_column.
  rewrite length_fmap, length_zip_with, !length_rolling_mean.
  unfold Series.where_pos, Series.where_neg.
  rewrite !length_fmap, length_diff. lia.
Qed.
End in_place.

(** Runs the primitive at the head of a program on the frame at [l]. *)
Ltac run_at Hl :=
  repeat first
    [ rewrite bind_run
    | rewrite (get_col_at _ _ _ _ Hl)
    | rewrite (set_col_at _ _ _ _ _ Hl)
    | rewrite rolling_window_run by lia
    | progress cbn [cols nrows]
    | rewrite lookup_insert_eq
    | rewrite lookup_insert_ne by done ].

Section indicators_run.
Implicit Types (σ : store) (f : frame).

Lemma calculate_indicators_run σ data f close :
  σ !! data = Some f → wf_frame f → cols f !! "Close" = Some close →
  calculate_indicators data σ =
    Returns (data,
             <[data := Frame (nrows f) (indicator_cols close (cols f))]> σ).
Proof.
  intros Hf Hwf Hclose.
  pose proof (lookup_lt_Some _ _ _ Hf) as Hl.
  pose proof (wf_frame_length _ _ _ Hwf Hclose) as Hlc.
  rewrite <- (list_insert_id σ data f Hf) at 1.
  unfold calculate_indicators.
  run_at Hl. rewrite Hclose. run_at Hl.
  rewrite bool_decide_eq_true_2 by len_solve.
  run_at Hl. rewrite Hclose. run_at Hl.
  rewrite bool_decide_eq_true_2 by len_solve.
  run_at Hl. rewrite Hclose. run_at Hl.
  change (_ <$> zip_with cdiv _ _) with (rsi_column close).
  rewrite bool_decide_eq_true_2 by (rewrite length_rsi_column; lia).
  run_at Hl. rewrite Hclose. run_at Hl. rewrite Hclose. run_at Hl.
  rewrite bool_decide_eq_true_2 by len_solve.
  run_at Hl.
  rewrite bool_decide_eq_true_2 by len_solve.
  reflexivity.
Qed.
End indicators_run.


(** ** The RSI column *)

Section rsi_facts.
Implicit Types (s : list cell) (x g l : cell) (a b q : Qc) (i k w : nat).

Lemma Qc_of_Z_pos (n : Z) : (0 < n)%Z → 0 < Qc_of_Z n.
Proof.
  intros Hn. unfold Qc_of_Z, Qclt, Q2Qc. cbn [this].
  rewrite !Qred_correct. unfold Qlt. cbn. lia.
Qed.

Lemma Qcdiv_nonneg a b : 0 ≤ a → 0 < b → 0 ≤ a / b.
Proof.
  intros Ha Hb. apply Qcmult_nonneg_nonneg; [done|].
  by apply Qclt_le_weak, Qcinv_pos.
Qed.

Lemma Qcdiv_pos a b : 0 < a → 0 < b → 0 < a / b.
Proof. intros Ha Hb. apply Qcmult_pos_pos; [done|]. by apply Qcinv_pos. Qed.

Lemma Qc_pos_ne a : 0 < a → a ≠ 0.
Proof. intros Ha ->. by apply Qclt_not_eq in Ha. Qed.

Lemma csum_nonneg s : (∀ x, x ∈ s → nonneg_num x) → nonneg_num (Series.csum s).
Proof.
  induction s as [|x s IH]; intros Hs.
  - exists 0. split; [done|]. apply Qcle_refl.
  - change (Series.csum (x :: s)) with (cadd x (Series.csum s)).
    destruct (Hs x) as (a & -> & Ha); [by left|].
    destruct IH as (t & -> & Ht); [intros y Hy; apply Hs; by right|].
    exists (a + t). split; [done|]. by apply Qcplus_nonneg_nonneg.
Qed.

Lemma csum_pos s x q :
  (∀ y, y ∈ s → nonneg_num y) → x ∈ s → x = Num q → 0 < q →
  ∃ t, Series.csum s = Num t ∧ 0 < t.
Proof.
  induction s as [|y s IH]; intros Hs Hx -> Hq; [by apply elem_of_nil in Hx|].
  assert (∀ z, z ∈ s → nonneg_num z) as Hs' by (intros z Hz; apply Hs; by right).
  destruct (csum_nonneg s Hs') as (t & Ht & Ht0).
  destruct (Hs y) as (a & -> & Ha); [by left|].
  change (Series.csum (Num a :: s)) with (cadd (Num a) (Series.csum s)).
  rewrite Ht. cbn [cadd]. exists (a + t). split; [done|].
  apply elem_of_cons in Hx as [[= <-] | Hx].
  - by apply Qcplus_pos_nonneg.
  - destruct (IH Hs' Hx eq_refl Hq) as (t' & Ht' & Hpos).
    assert (t' = t) as -> by congruence.
    by apply Qcplus_nonneg_pos.
Qed.

Lemma csum_zero s : (∀ x, x ∈ s → x = Num 0) → Series.csum s = Num 0.
Proof.
  induction s as [|x s IH]; intros Hs; [done|].
  change (Series.csum (x :: s)) with (cadd x (Series.csum s)).
  rewrite (Hs x) by (by left).
  rewrite IH by (intros y Hy; apply Hs; by right).
  cbn [cadd]. f_equal; ring.
Qed.

Lemma window_elem w i s x :
  x ∈ take w (drop (i + 1 - w) s) →
  ∃ k, (i + 1 - w ≤ k < i + 1 - w + w)%nat ∧ s !! k = Some x.
Proof.
  intros [j Hj]%list_elem_of_lookup.
  apply lookup_take_Some in Hj as [Hj Hjw]. rewrite lookup_drop in Hj.
  exists (i + 1 - w + j)%nat. split; [lia|done].
Qed.

Lemma elem_window w i s k x :
  (i + 1 - w ≤ k < i + 1 - w + w)%nat → s !! k = Some x →
  x ∈ take w (drop (i + 1 - w) s).
Proof.
  intros Hk Hx. apply list_elem_of_lookup.
  exists (k - (i + 1 - w))%nat. rewrite lookup_take_lt by lia.
  rewrite lookup_drop. rewrite <- Hx. f_equal. lia.
Qed.

Lemma forallb_is_num s :
  (∀ x, x ∈ s → nonneg_num x) → forallb is_num s = true.
Proof.
  intros Hs. apply forallb_forall. intros x Hx%list_elem_of_In.
  by destruct (Hs x Hx) as (q & -> & _).
Qed.

(** A rolling mean over values whose finite ones are not negative is
    undefined or not negative. *)
Lemma rolling_mean_at_nonneg w s i :
  (∀ x q, x ∈ s → x = Num q → 0 ≤ q) →
  Series.rolling_mean_at w s i = NaN ∨
  nonneg_num (Series.rolling_mean_at w s i).
Proof.
  intros Hs. unfold Series.rolling_mean_at.
  case_bool_decide as Hw; [by left|].
  destruct (forallb is_num _) eqn:Hnum; [|by left]. right.
  set (win := take w (drop (i + 1 - w) s)) in *.
  assert (∀ x, x ∈ win → nonneg_num x) as Hwin.
  { intros x Hx. pose proof Hx as Hx'.
    apply list_elem_of_In in Hx'.
    pose proof (proj1 (forallb_forall _ _) Hnum x Hx') as Hn.
    destruct x as [q| | |]; try done. exists q. split; [done|].
    apply window_elem in Hx as (k & _ & Hk).
    eapply Hs; [|done]. by eapply list_elem_of_lookup_2. }
  destruct (csum_nonneg win Hwin) as (t & -> & Ht).
  assert (0 < Qc_of_Z (Z.of_nat w)) as Hpos by (apply Qc_of_Z_pos; lia).
  unfold cell_of_Z. cbn [cdiv]. unfold Qc_eqb.
  rewrite bool_decide_eq_false_2 by by apply Qc_pos_ne.
  eexists. split; [done|]. by apply Qcdiv_nonneg.
Qed.

Lemma where_pos_nonneg s x q :
  x ∈ Series.where_pos s → x = Num q → 0 ≤ q.
Proof.
  unfold Series.where_pos. intros [d [Hx _]]%list_elem_of_fmap ->.
  destruct (cgtb d (Num 0)) eqn:Hd.
  - subst d. cbn in Hd. apply Qc_ltb_lt in Hd. by apply Qclt_le_weak.
  - injection Hx as ->. apply Qcle_refl.
Qed.

Lemma where_neg_nonneg s x q :
  x ∈ cneg <$> Series.where_neg s → x = Num q → 0 ≤ q.
Proof.
  unfold Series.where_neg. rewrite <- list_fmap_compose.
  intros [d [Hx _]]%list_elem_of_fmap ->. cbn in Hx.
  destruct (cltb d (Num 0)) eqn:Hd.
  - destruct d as [a| | |]; try done. injection Hx as ->.
    cbn in Hd. apply Qc_ltb_lt in Hd. qc_lra.
  - injection Hx as ->. qc_lra.
Qed.

(** The RSI formula on a mean gain and a mean loss. *)
Lemma rsi_value_range g l :
  (g = NaN ∨ nonneg_num g) → (l = NaN ∨ nonneg_num l) →
  let v := csub (cell_of_Z 100)
             (cdiv (cell_of_Z 100) (cadd (Num 1) (cdiv g l))) in
  v = NaN ∨ ∃ q, v = Num q ∧ 0 ≤ q ∧ q ≤ Qc_of_Z 100.
Proof.
  intros [-> | (a & -> & Ha)] [-> | (b & -> & Hb)]; cbn zeta;
    [by left..|].
  cbn [cdiv]. unfold Qc_eqb. case_bool_decide as Hb0.
  - unfold inf_signed, Qc_eqb. case_bool_decide as Ha0; [by left|].
    assert (0 < a) as Hpos.
    { destruct (Qcle_lt_or_eq _ _ Ha) as [?|?]; [done|congruence]. }
    rewrite (proj2 (Qc_ltb_lt 0 a) Hpos). right.
    unfold cell_of_Z. cbn [cadd cdiv csub cneg]. eexists. split; [done|].
    split; qc_lra.
  - assert (0 < b) as Hpos.
    { destruct (Qcle_lt_or_eq _ _ Hb) as [?|?]; [done|congruence]. }
    pose proof (Qcdiv_nonneg a b Ha Hpos) as Hr.
    set (r := a / b) in *. right.
    unfold cell_of_Z. cbn [cadd cdiv]. unfold Qc_eqb.
    assert (0 < 1 + r) as Hy by qc_lra.
    rewrite bool_decide_eq_false_2 by by apply Qc_pos_ne.
    cbn [csub cneg cadd]. eexists. split; [done|].
    pose proof (Qcinv_pos _ Hy) as Hinv.
    assert (/ (1 + r) ≤ 1) as Hinv1.
    { apply (Qcmult_le_mono_pos_r _ _ (1 + r) Hy).
      rewrite Qcmult_inv_l by by apply Qc_pos_ne. qc_lra. }
    unfold Qcdiv. set (z := / (1 + r)) in *.
    split; qc_lra.
Qed.

End rsi_facts.

Section rsi_column_facts.
Implicit Types (close s : list cell) (i k : nat).

Lemma rsi_column_lookup close i :
  (i < length close)%nat →
  rsi_column close !! i =
    Some (csub (cell_of_Z 100)
            (cdiv (cell_of_Z 100)
               (cadd (Num 1)
                  (cdiv
                     (Series.rolling_mean_at 14
                        (Series.where_pos (Series.diff close)) i)
                     (Series.rolling_mean_at 14
                        (cneg <$> Series.where_neg (Series.diff close)) i))))).
Proof.
  intros Hi. unfold rsi_column.
  rewrite list_lookup_fmap, lookup_zip_with.
  rewrite !rolling_mean_lookup; [done|..];
    unfold Series.where_pos, Series.where_neg;
    rewrite !length_fmap, length_diff; lia.
Qed.

Lemma rolling_mean_at_window w s i :
  w ≠ 0%nat → (w ≤ i + 1)%nat →
  (∀ x, x ∈ take w (drop (i + 1 - w) s) → nonneg_num x) →
  Series.rolling_mean_at w s i =
    cdiv (Series.csum (take w (drop (i + 1 - w) s)))
         (cell_of_Z (Z.of_nat w)).
Proof.
  intros Hw Hi Hwin. unfold Series.rolling_mean_at.
  rewrite bool_decide_eq_false_2 by lia.
  by rewrite forallb_is_num.
Qed.

Lemma cdiv_zero_nat (n : nat) :
  n ≠ 0%nat → cdiv (Num 0) (cell_of_Z (Z.of_nat n)) = Num 0.
Proof.
  intros Hn. unfold cell_of_Z. cbn [cdiv]. unfold Qc_eqb.
  rewrite bool_decide_eq_false_2 by (apply Qc_pos_ne, Qc_of_Z_pos; lia).
  f_equal. unfold Qcdiv. apply Qcmult_0_l.
Qed.

Lemma where_pos_lookup s k d :
  s !! k = Some d →
  Series.where_pos s !! k = Some (if cgtb d (Num 0) then d else Num 0).
Proof. intros H. unfold Series.where_pos. by rewrite list_lookup_fmap, H. Qed.

(** A delta that is undefined or not negative adds nothing to the
    losses. *)
Lemma loss_of_gain d :
  (d = NaN ∨ ∃ q, d = Num q ∧ 0 ≤ q) →
  cneg (if cltb d (Num 0) then d else Num 0) = Num 0.
Proof.
  intros [-> | (q & -> & Hq)].
  - cbn. f_equal; ring.
  - cbn [cltb]. unfold Qc_ltb.
    rewrite bool_decide_eq_false_2 by by apply Qcle_not_lt.
    cbn. f_equal; ring.
Qed.

Lemma gain_of_gain d :
  (d = NaN ∨ ∃ q, d = Num q ∧ 0 ≤ q) →
  nonneg_num (if cgtb d (Num 0) then d else Num 0).
Proof.
  intros [-> | (q & -> & Hq)].
  - exists 0. split; [done|]. apply Qcle_refl.
  - destruct (cgtb _ _); [by exists q|].
    exists 0. split; [done|]. apply Qcle_refl.
Qed.

End rsi_column_facts.

Section rsi_windows.
Variables (delta : list cell) (i : nat).
Hypothesis Hi : (13 ≤ i)%nat.
Hypothesis Hgains : ∀ k d,
  (i - 13 ≤ k ≤ i)%nat → delta !! k = Some d →
  d = NaN ∨ ∃ q, d = Num q ∧ 0 ≤ q.

Lemma gains_window_nonneg x :
  x ∈ take 14 (drop (i + 1 - 14) (Series.where_pos delta)) → nonneg_num x.
Proof using Hi Hgains.
  intros (k & Hk & Hx)%window_elem.
  unfold Series.where_pos in Hx. rewrite list_lookup_fmap in Hx.
  destruct (delta !! k) as [d|] eqn:Hd; [|done].
  injection Hx as <-. apply gain_of_gain. eapply Hgains; [|done]. lia.
Qed.

Lemma losses_window_zero x :
  x ∈ take 14 (drop (i + 1 - 14) (cneg <$> Series.where_neg delta)) →
  x = Num 0.
Proof using Hi Hgains.
  intros (k & Hk & Hx)%window_elem.
  unfold Series.where_neg in Hx. rewrite !list_lookup_fmap in Hx.
  destruct (delta !! k) as [d|] eqn:Hd; [|done].
  injection Hx as <-. apply loss_of_gain. eapply Hgains; [|done]. lia.
Qed.

Lemma mean_loss_zero :
  Series.rolling_mean_at 14 (cneg <$> Series.where_neg delta) i = Num 0.
Proof using Hi Hgains.
  rewrite rolling_mean_at_window; [|done|lia|].
  - rewrite csum_zero by apply losses_window_zero.
    by apply (cdiv_zero_nat 14).
  - intros x ->%losses_window_zero. exists 0. split; [done|]. apply Qcle_refl.
Qed.

Lemma mean_gain_positive k q :
  (i - 13 ≤ k ≤ i)%nat → delta !! k = Some (Num q) → 0 < q →
  ∃ a, Series.rolling_mean_at 14 (Series.where_pos delta) i = Num a ∧ 0 < a.
Proof using Hi Hgains.
  intros Hk Hd Hq.
  rewrite rolling_mean_at_window; [|done|lia|apply gains_window_nonneg].
  destruct (csum_pos (take 14 (drop (i + 1 - 14) (Series.where_pos delta)))
              (Num q) q) as (t & -> & Ht); [apply gains_window_nonneg| |done..|].
  { eapply (elem_window 14 i _ k); [lia|].
    rewrite (where_pos_lookup _ _ _ Hd). cbn.
    by rewrite (proj2 (Qc_ltb_lt 0 q) Hq). }
  assert (0 < Qc_of_Z (Z.of_nat 14)) as Hpos by (apply Qc_of_Z_pos; lia).
  unfold cell_of_Z. cbn [cdiv]. unfold Qc_eqb.
  rewrite bool_decide_eq_false_2 by by apply Qc_pos_ne.
  eexists. split; [done|]. by apply Qcdiv_pos.
Qed.

Lemma mean_gain_zero :
  (∀ k d, (i - 13 ≤ k ≤ i)%nat → delta !! k = Some d →
          d = NaN ∨ d = Num 0) →
  Series.rolling_mean_at 14 (Series.where_pos delta) i = Num 0.
Proof using Hi.
  intros Hflat.
  assert (∀ x, x ∈ take 14 (drop (i + 1 - 14) (Series.where_pos delta)) →
               x = Num 0) as Hzero.
  { intros x (k & Hk & Hx)%window_elem.
    unfold Series.where_pos in Hx. rewrite list_lookup_fmap in Hx.
    destruct (delta !! k) as [d|] eqn:Hd; [|done].
    injection Hx as <-.
    destruct (Hflat k d ltac:(lia) Hd) as [-> | ->]; [done|].
    by repeat case_match. }
  rewrite rolling_mean_at_window; [|done|lia|].
  - rewrite csum_zero by done. by apply (cdiv_zero_nat 14).
  - intros x ->%Hzero. exists 0. split; [done|]. apply Qcle_refl.
Qed.

End rsi_windows.

(** C6, as the code has it: every defined RSI value lies in [0, 100];
    at a bar whose 14 trailing Close deltas are all non-negative (an
    undefined delta counting as 0) the RSI is exactly 100 when at least
    one of them is positive, and undefined (NaN, from 0/0) when all of
    them are zero. *)
Theorem rsi_range_and_all_gains (σ : store) (data : loc) (f : frame)
    (close : list cell) :
  σ !! data = Some f → wf_frame f → cols f !! "Close" = Some close →
  ∃ f' rsi,
    calculate_indicators data σ = Returns (data, <[data := f']> σ) ∧
    cols f' !! "RSI" = Some rsi ∧
    length rsi = nrows f ∧
    (∀ i v, rsi !! i = Some v →
       v = NaN ∨ ∃ q, v = Num q ∧ 0 ≤ q ∧ q ≤ Qc_of_Z 100) ∧
    (∀ i, (13 ≤ i < nrows f)%nat →
       (∀ k d, (i - 13 ≤ k ≤ i)%nat → Series.diff close !! k = Some d →
               d = NaN ∨ ∃ q, d = Num q ∧ 0 ≤ q) →
       (∃ k q, (i - 13 ≤ k ≤ i)%nat ∧
               Series.diff close !! k = Some (Num q) ∧ 0 < q) →
       rsi !! i = Some (cell_of_Z 100)) ∧
    (∀ i, (13 ≤ i < nrows f)%nat →
       (∀ k d, (i - 13 ≤ k ≤ i)%nat → Series.diff close !! k = Some d →
               d = NaN ∨ d = Num 0) →
       rsi !! i = Some NaN).
Proof.
  intros Hf Hwf Hclose.
  pose proof (wf_frame_length _ _ _ Hwf Hclose) as Hlc.
  eexists _, _. split; [by apply calculate_indicators_run|].
  cbn [cols]. unfold indicator_cols.
  rewrite !(lookup_insert_ne _ _ "RSI") by done. rewrite lookup_insert_eq.
  split; [done|]. split; [by rewrite length_rsi_column|].
  split; [|split].
  - intros i v Hv.
    assert (i < length close)%nat as Hi.
    { apply lookup_lt_Some in Hv. by rewrite length_rsi_column in Hv. }
    rewrite (rsi_column_lookup _ _ Hi) in Hv. injection Hv as <-.
    apply rsi_value_range.
    + apply rolling_mean_at_nonneg. intros x q. apply where_pos_nonneg.
    + apply rolling_mean_at_nonneg. intros x q. apply where_neg_nonneg.
  - intros i [Hi Hin] Hgains (k & q & Hk & Hd & Hq).
    rewrite rsi_column_lookup by lia.
    rewrite (mean_loss_zero _ _ Hi Hgains).
    destruct (mean_gain_positive _ _ Hi Hgains k q Hk Hd Hq) as (a & -> & Ha).
    f_equal. cbn [cdiv]. unfold Qc_eqb at 1.
    rewrite bool_decide_eq_true_2 by done.
    rewrite inf_signed_pos by done.
    unfold cell_of_Z. cbn. f_equal; ring.
  - intros i [Hi Hin] Hflat.
    assert (∀ k d, (i - 13 ≤ k ≤ i)%nat → Series.diff close !! k = Some d →
                   d = NaN ∨ ∃ q, d = Num q ∧ 0 ≤ q) as Hgains.
    { intros k d Hk Hd. destruct (Hflat k d Hk Hd) as [-> | ->]; [by left|].
      right. exists 0. split; [done|]. apply Qcle_refl. }
    rewrite rsi_column_lookup by lia.
    rewrite (mean_loss_zero _ _ Hi Hgains).
    rewrite (mean_gain_zero _ _ Hi Hflat).
    reflexivity.
Qed.

Section delta_windows.
Implicit Types (l : list cell) (d : cell) (k lo len : nat).

Lemma window_forall (P : cell → Prop) l lo len :
  Forall P (take len (drop lo l)) →
  ∀ k d, (lo ≤ k < lo + len)%nat → l !! k = Some d → P d.
Proof.
  intros HP k d Hk Hd.
  apply (proj1 (list.Forall_forall _ _) HP), list_elem_of_lookup.
  exists (k - lo)%nat. rewrite lookup_take_lt by lia.
  rewrite lookup_drop. rewrite <- Hd. f_equal. lia.
Qed.

Lemma nonneg_or_nan d :
  isnan d || (is_num d && cleb (Num 0) d) = true →
  d = NaN ∨ ∃ q, d = Num q ∧ 0 ≤ q.
Proof.
  destruct d as [q| | |]; cbn [isnan is_num orb andb]; try done.
  - intros H%cleb_num. right. by exists q.
  - by left.
Qed.

Lemma zero_or_nan d :
  isnan d || ceqb d (Num 0) = true → d = NaN ∨ d = Num 0.
Proof.
  destruct d as [q| | |]; cbn [isnan ceqb orb]; try done.
  - intros ->%Qc_eqb_eq. by right.
  - by left.
Qed.
End delta_windows.

Lemma rsi_range_and_all_gains_witness :
  ∃ f' rsi,
    calculate_indicators 0%nat [bars spike_and_rebound] =
      Returns (0%nat, [f']) ∧
    cols f' !! "RSI" = Some rsi ∧
    length rsi = 22%nat ∧
    (∀ i v, rsi !! i = Some v →
       v = NaN ∨ ∃ q, v = Num q ∧ 0 ≤ q ∧ q ≤ Qc_of_Z 100) ∧
    rsi !! 15%nat = Some (cell_of_Z 100) ∧
    rsi !! 14%nat = Some NaN.
Proof.
  destruct (rsi_range_and_all_gains [bars spike_and_rebound] 0%nat
              (bars spike_and_rebound) (prices spike_and_rebound))
    as (f' & rsi & Hrun & Hrsi & Hlen & Hrange & Hgains & Hflat).
  - reflexivity.
  - apply (bool_decide_unpack _). vm_compute. exact I.
  - vm_compute. reflexivity.
  - exists f', rsi. do 4 (split; [assumption|]). split.
    + apply (Hgains 15%nat); [cbn; lia| |].
      * intros k d Hk Hd. apply nonneg_or_nan.
        refine (window_forall
                  (λ d, isnan d || (is_num d && cleb (Num 0) d) = true)
                  (Series.diff (prices spike_and_rebound)) 2 14 _ k d _ Hd);
          [|cbn in Hk; lia].
        apply (bool_decide_unpack _). vm_compute. exact I.
      * exists 15%nat, (Qc_of_Z 12 + - Qc_of_Z 10).
        split; [lia|]. split; [reflexivity|].
        apply Qc_ltb_lt. vm_compute. reflexivity.
    + apply (Hflat 14%nat); [cbn; lia|].
      intros k d Hk Hd. apply zero_or_nan.
      refine (window_forall (λ d, isnan d || ceqb d (Num 0) = true)
                (Series.diff (prices spike_and_rebound)) 1 14 _ k d _ Hd);
        [|cbn in Hk; lia].
      apply (bool_decide_unpack _). vm_compute. exact I.
Defined.

(** C6 as stated fails on a flat series: at bar 14 of [flat_closes] all 14
    trailing deltas are 0, hence non-negative, the mean gain and the mean
    loss are both 0 and the RSI is NaN, not 100. *)
Lemma rsi_undefined_on_flat_series :
  ∃ f' rsi,
    calculate_indicators 0%nat [bars flat_closes] = Returns (0%nat, [f']) ∧
    cols f' !! "RSI" = Some rsi ∧
    Series.diff (prices flat_closes) = NaN :: replicate 14 (Num 0) ∧
    rsi !! 14%nat = Some NaN ∧
    rsi !! 14%nat ≠ Some (cell_of_Z 100).
Proof.
  eexists _, _.
  split; [vm_compute; reflexivity|].
  split; [vm_compute; reflexivity|].
  split; [apply (bool_decide_unpack _); vm_compute; exact I|].
  split; [reflexivity|]. discriminate.
Qed.


(** ** Which stage writes into the frame it is given *)

(** C9, as the code has it: [backtest_strategy], on every frame it is
    ready for, works on a copy, so every frame already in the store, its
    own input included, is unchanged after the call and the result is a
    new frame; [calculate_indicators] returns the very frame it was given,
    having added the five indicator columns to it in place, and leaves its
    other columns and all other frames unchanged. *)
Theorem backtest_copies_indicators_write_in_place (σ : store) (data : loc)
    (f : frame) (close : list cell) (sma_short sma_long : Z) :
  σ !! data = Some f → wf_frame f → cols f !! "Close" = Some close →
  (backtest_ready f sma_short sma_long →
     ∃ f',
       backtest_strategy data sma_short sma_long σ =
         Returns (length σ, σ ++ [f']) ∧
       length σ ≠ data ∧
       (σ ++ [f']) !! data = Some f ∧
       (∀ l, (l < length σ)%nat → (σ ++ [f']) !! l = σ !! l)) ∧
  (∃ f',
     calculate_indicators data σ = Returns (data, <[data := f']> σ) ∧
     (<[data := f']> σ) !! data = Some f' ∧
     (∀ l, l ≠ data → (<[data := f']> σ) !! l = σ !! l) ∧
     nrows f' = nrows f ∧
     (∀ name, name ∈ indicator_names → is_Some (cols f' !! name)) ∧
     (∀ name, name ∉ indicator_names → cols f' !! name = cols f !! name)).
Proof.
  intros Hf Hwf Hclose.
  pose proof (lookup_lt_Some _ _ _ Hf) as Hl. split.
  - intros Hready.
    pose proof (backtest_ready_bound _ _ _ Hready) as Hbound.
    destruct (backtest_ready_averages _ _ _ Hready)
      as (close' & short & long & Hclose' & Havg).
    eexists. split; [by eapply backtest_strategy_run|].
    split; [lia|]. split.
    + by rewrite lookup_app_l.
    + intros l Hlt. by rewrite lookup_app_l.
  - eexists. split; [by apply calculate_indicators_run|].
    split; [by apply list_lookup_insert_eq|].
    split; [intros l Hne; by apply list_lookup_insert_ne|].
    split; [done|]. cbn [cols]. unfold indicator_cols, indicator_names. split.
    + intros name Hname.
      repeat (apply elem_of_cons in Hname as [-> | Hname];
              [repeat (rewrite lookup_insert_ne by done);
               rewrite lookup_insert_eq; by eexists|]).
      by apply elem_of_nil in Hname.
    + intros name Hname.
      repeat (rewrite lookup_insert_ne;
              [|intros <-; apply Hname; repeat constructor]).
      done.
Qed.

Lemma backtest_copies_indicators_write_in_place_witness :
  (∃ f',
     backtest_strategy 0%nat 2 3 [bars [10; 11; 12; 11; 13]%Z] =
       Returns (1%nat, [bars [10; 11; 12; 11; 13]%Z] ++ [f']) ∧
     1%nat ≠ 0%nat ∧
     ([bars [10; 11; 12; 11; 13]%Z] ++ [f']) !! 0%nat =
       Some (bars [10; 11; 12; 11; 13]%Z) ∧
     (∀ l, (l < 1)%nat →
           ([bars [10; 11; 12; 11; 13]%Z] ++ [f']) !! l =
           [bars [10; 11; 12; 11; 13]%Z] !! l)) ∧
  (∃ f',
     calculate_indicators 0%nat [bars [10; 11; 12; 11; 13]%Z] =
       Returns (0%nat, <[0%nat := f']> [bars [10; 11; 12; 11; 13]%Z]) ∧
     (<[0%nat := f']> [bars [10; 11; 12; 11; 13]%Z]) !! 0%nat = Some f' ∧
     (∀ l, l ≠ 0%nat →
           (<[0%nat := f']> [bars [10; 11; 12; 11; 13]%Z]) !! l =
           [bars [10; 11; 12; 11; 13]%Z] !! l) ∧
     nrows f' = 5%nat ∧
     (∀ name, name ∈ indicator_names → is_Some (cols f' !! name)) ∧
     (∀ name, name ∉ indicator_names →
              cols f' !! name =
              cols (bars [10; 11; 12; 11; 13]%Z) !! name)).
Proof.
  destruct (backtest_copies_indicators_write_in_place
              [bars [10; 11; 12; 11; 13]%Z] 0%nat
              (bars [10; 11; 12; 11; 13]%Z)
              (prices [10; 11; 12; 11; 13]%Z) 2 3)
    as [Hbacktest Hindicators].
  - reflexivity.
  - apply (bool_decide_unpack _). vm_compute. exact I.
  - vm_compute. reflexivity.
  - split; [|exact Hindicators]. apply Hbacktest. ready_solve.
Defined.

(** C9 as stated fails for the Indicator Engine: after
    [calculate_indicators] the frame that was passed in is no longer the
    frame it was; it has gained the column SMA_20 (and four more). *)
Lemma calculate_indicators_changes_its_input :
  ∃ σ' f',
    [bars [10; 11; 12]%Z] !! 0%nat = Some (bars [10; 11; 12]%Z) ∧
    calculate_indicators 0%nat [bars [10; 11; 12]%Z] = Returns (0%nat, σ') ∧
    σ' !! 0%nat = Some f' ∧
    cols (bars [10; 11; 12]%Z) !! "SMA_20" = None ∧
    cols f' !! "SMA_20" = Some [NaN; NaN; NaN] ∧
    σ' !! 0%nat ≠ Some (bars [10; 11; 12]%Z).
Proof.
  eexists _, _.
  split; [reflexivity|].
  split; [vm_compute; reflexivity|].
  split; [reflexivity|].
  split; [vm_compute; reflexivity|].
  split; [vm_compute; reflexivity|].
  intros E.
  apply (f_equal (λ o, o ≫= λ g : frame, cols g !! "SMA_20")) in E.
  vm_compute in E. discriminate.
Qed.


(** ** The Risk Analysis block *)

Section running_max.
Implicit Types (s : list cell) (x y acc m : cell) (i j : nat).

Lemma cummax_from_nan s acc i x :
  s !! i = Some x → isnan x = true →
  Series.cummax_from acc s !! i = Some NaN.
Proof.
  revert acc i. induction s as [|y s IH]; intros acc i Hx Hnan; [done|].
  cbn [Series.cummax_from]. destruct i as [|i]; cbn in Hx.
  - injection Hx as ->. by rewrite Hnan.
  - destruct (isnan y); cbn; by eapply IH.
Qed.

(** At a defined entry the running maximum is defined, bounds the start
    value and every defined entry so far, and is one of them. *)
Lemma cummax_from_defined s acc i x :
  isnan acc = false → s !! i = Some x → isnan x = false →
  ∃ m, Series.cummax_from acc s !! i = Some m ∧
       isnan m = false ∧ cleb acc m = true ∧
       (∀ j y, (j ≤ i)%nat → s !! j = Some y → isnan y = false →
               cleb y m = true) ∧
       (m = acc ∨ ∃ j, (j ≤ i)%nat ∧ s !! j = Some m).
Proof.
  revert acc i. induction s as [|y s IH]; intros acc i Hacc Hx Hnan; [done|].
  cbn [Series.cummax_from]. destruct i as [|i]; cbn in Hx.
  - injection Hx as ->. rewrite Hnan. cbn.
    exists (Series.cmax acc x). split; [done|].
    split; [by apply cmax_notnan|]. split; [by apply cmax_ub_l|]. split.
    + intros j y Hj Hy Hyn. assert (j = 0%nat) as -> by lia.
      injection Hy as <-. by apply cmax_ub_r.
    + unfold Series.cmax. destruct (cltb acc x); [right|by left].
      by exists 0%nat.
  - destruct (isnan y) eqn:Hy; cbn.
    + destruct (IH acc i Hacc Hx Hnan) as (m & Hm & Hmn & Hle & Hub & Hat).
      exists m. split; [done|]. split; [done|]. split; [done|]. split.
      * intros [|j] z Hj Hz Hzn; cbn in Hz.
        -- congruence.
        -- eapply Hub; [|done..]. lia.
      * destruct Hat as [-> | (j & Hj & Hjm)]; [by left|right].
        exists (S j). split; [lia|done].
    + assert (isnan (Series.cmax acc y) = false) as Hacc'
        by by apply cmax_notnan.
      destruct (IH _ i Hacc' Hx Hnan) as (m & Hm & Hmn & Hle & Hub & Hat).
      exists m. split; [done|]. split; [done|]. split.
      { eapply cleb_trans; [|done]. by apply cmax_ub_l. }
      split.
      * intros [|j] z Hj Hz Hzn; cbn in Hz.
        -- injection Hz as <-. eapply cleb_trans; [|done].
           by apply cmax_ub_r.
        -- eapply Hub; [|done..]. lia.
      * destruct Hat as [-> | (j & Hj & Hjm)].
        -- unfold Series.cmax. destruct (cltb acc y); [right|by left].
           exists 0%nat. split; [lia|done].
        -- right. exists (S j). split; [lia|done].
Qed.

Lemma cummax_defined s i x :
  s !! i = Some x → isnan x = false →
  ∃ m, Series.cummax s !! i = Some m ∧
       isnan m = false ∧
       (∀ j y, (j ≤ i)%nat → s !! j = Some y → isnan y = false →
               cleb y m = true) ∧
       (∃ j, (j ≤ i)%nat ∧ s !! j = Some m).
Proof.
  intros Hx Hnan.
  destruct (cummax_from_defined s NInf i x eq_refl Hx Hnan)
    as (m & Hm & Hmn & _ & Hub & Hat).
  exists m. split; [done|]. split; [done|]. split; [done|].
  destruct Hat as [-> | ?]; [|done].
  exists i. split; [lia|]. rewrite Hx. f_equal.
  pose proof (Hub i x (le_n _) Hx Hnan) as Hle. by destruct x.
Qed.

End running_max.

Section series_min.
Implicit Types (s : list cell) (x y d : cell).

Lemma foldr_cmin_spec s x :
  isnan x = false → Forall (λ y, isnan y = false) s →
  isnan (foldr Series.cmin x s) = false ∧
  foldr Series.cmin x s ∈ x :: s ∧
  (∀ y, y ∈ x :: s → cleb (foldr Series.cmin x s) y = true).
Proof.
  intros Hx Hs. induction Hs as [|y s Hy Hs IH]; cbn [foldr].
  - split; [done|]. split; [by left|].
    intros y ->%list_elem_of_singleton. by apply cleb_refl.
  - destruct IH as (Hm & Hin & Hlb).
    set (m := foldr Series.cmin x s) in *.
    split; [by apply cmin_notnan|]. split.
    + unfold Series.cmin. destruct (cltb m y).
      * apply elem_of_cons in Hin as [-> | Hin]; [by left|].
        right. by right.
      * right. by left.
    + intros z Hz.
      assert (z = y ∨ z ∈ x :: s) as [-> | Hz'].
      { apply elem_of_cons in Hz as [-> | Hz]; [right; by left|].
        apply elem_of_cons in Hz as [-> | Hz]; [by left|].
        right. by right. }
      * by apply cmin_lb_l.
      * eapply cleb_trans; [|by apply Hlb]. by apply cmin_lb_r.
Qed.

Lemma dropna_elem s d : d ∈ Series.dropna s ↔ isnan d = false ∧ d ∈ s.
Proof.
  unfold Series.dropna.
  apply (list_elem_of_filter (λ x, isnan x = false)).
Qed.

Lemma dropna_notnan s : Forall (λ y, isnan y = false) (Series.dropna s).
Proof. apply list.Forall_forall. intros d Hd. by apply dropna_elem in Hd as [? _]. Qed.

(** [s.min()] is below every defined entry, and is one of them when
    there is any. *)
Lemma min_lower_bound s d :
  d ∈ s → isnan d = false → cleb (Series.min s) d = true.
Proof.
  intros Hd Hnan. unfold Series.min.
  assert (d ∈ Series.dropna s) as Hin by by apply dropna_elem.
  pose proof (dropna_notnan s) as Hall.
  destruct (Series.dropna s) as [|x v]; [by apply elem_of_nil in Hin|].
  apply list.Forall_cons_1 in Hall as [Hx Hv].
  by apply (foldr_cmin_spec v x Hx Hv).
Qed.

Lemma min_attained s d :
  d ∈ s → isnan d = false →
  Series.min s ∈ s ∧ isnan (Series.min s) = false.
Proof.
  intros Hd Hnan. unfold Series.min.
  assert (d ∈ Series.dropna s) as Hin by by apply dropna_elem.
  pose proof (dropna_notnan s) as Hall.
  pose proof (λ y, proj1 (dropna_elem s y)) as Hsub.
  destruct (Series.dropna s) as [|x v]; [by apply elem_of_nil in Hin|].
  apply list.Forall_cons_1 in Hall as [Hx Hv].
  destruct (foldr_cmin_spec v x Hx Hv) as (Hm & Hmin & _).
  split; [|done]. by apply Hsub.
Qed.

Lemma min_undefined s :
  (∀ d, d ∈ s → isnan d = true) → Series.min s = NaN.
Proof.
  intros Hs. unfold Series.min.
  pose proof (λ y, proj1 (dropna_elem s y)) as Hsub.
  destruct (Series.dropna s) as [|x v]; [done|].
  destruct (Hsub x) as [Hx Hin]; [by left|].
  rewrite (Hs x Hin) in Hx. done.
Qed.

End series_min.

Section risk_run.
Implicit Types (σ : store) (f : frame) (cs sr : list cell).

Lemma risk_analysis_run σ bt f cs sr :
  σ !! bt = Some f →
  cols f !! "Cumulative_Strategy" = Some cs →
  cols f !! "Strategy_Return" = Some sr →
  risk_analysis bt σ =
    Returns
      (RiskReport
         (zip_with cdiv (zip_with csub cs (Series.cummax cs))
            (Series.cummax cs))
         (Series.min
            (zip_with cdiv (zip_with csub cs (Series.cummax cs))
               (Series.cummax cs)))
         (cmul (Series.std sr) (csqrt (cell_of_Z 252)))
         (cmul (cdiv (Series.mean sr) (Series.std sr))
            (csqrt (cell_of_Z 252))),
       σ).
Proof.
  intros Hf Hcs Hsr. unfold risk_analysis.
  rewrite bind_run, (get_col_run _ _ _ _ _ Hf Hcs).
  rewrite bind_run, (get_col_run _ _ _ _ _ Hf Hcs).
  rewrite bind_run, (get_col_run _ _ _ _ _ Hf Hsr).
  rewrite bind_run, (get_col_run _ _ _ _ _ Hf Hsr).
  rewrite bind_run, (get_col_run _ _ _ _ _ Hf Hsr).
  reflexivity.
Qed.

Lemma drawdown_value (a b : Qc) :
  0 < b → a ≤ b →
  ∃ d, cdiv (csub (Num a) (Num b)) (Num b) = Num d ∧ d ≤ 0 ∧
       (a = b → d = 0).
Proof.
  intros Hb Hab. cbn [csub cneg cadd cdiv]. unfold Qc_eqb.
  rewrite bool_decide_eq_false_2 by by apply Qc_pos_ne.
  eexists. split; [done|]. split.
  - pose proof (Qcinv_pos _ Hb) as Hinv.
    assert (0 ≤ (b + - a) * / b) as Hn.
    { apply Qcmult_nonneg_nonneg; [qc_lra|by apply Qclt_le_weak]. }
    replace ((a + - b) / b) with (- ((b + - a) * / b))
      by (unfold Qcdiv; ring).
    set (t := (b + - a) * / b) in *. qc_lra.
  - intros ->. unfold Qcdiv. ring.
Qed.

End risk_run.

Section drawdown_facts.
Implicit Types (cs : list cell) (c m : cell) (i : nat).

Lemma length_cummax cs : length (Series.cummax cs) = length cs.
Proof. apply length_cummax_from. Qed.

Lemma drawdown_lookup cs i c m :
  cs !! i = Some c → Series.cummax cs !! i = Some m →
  zip_with cdiv (zip_with csub cs (Series.cummax cs)) (Series.cummax cs)
    !! i = Some (cdiv (csub c m) m).
Proof. intros Hc Hm. by rewrite !lookup_zip_with, Hc, Hm. Qed.

Lemma sqrt_252_positive : 0 < Qc_sqrt (Qc_of_Z 252).
Proof. apply Qc_ltb_lt. vm_compute. reflexivity. Qed.

End drawdown_facts.

(** C8, as the code has it: Drawdown[i] = (CumulativeStrategy[i] -
    RunningMax[i]) / RunningMax[i], where RunningMax[i] is the greatest
    defined value of the curve up to [i]; where the curve is undefined
    (bars 0 and 1 of every backtest) the drawdown is undefined; where the
    curve and its running maximum are finite and the running maximum is
    positive the drawdown is at most 0, and 0 where the curve is at its
    running maximum; MaxDrawdown is the least defined drawdown. *)
Theorem drawdown_below_running_max (σ : store) (bt : loc) (f : frame)
    (cs sr : list cell) :
  σ !! bt = Some f →
  cols f !! "Cumulative_Strategy" = Some cs →
  cols f !! "Strategy_Return" = Some sr →
  ∃ r,
    risk_analysis bt σ = Returns (r, σ) ∧
    length (drawdown r) = length cs ∧
    (∀ i c, cs !! i = Some c → isnan c = true →
       drawdown r !! i = Some NaN) ∧
    (∀ i c, cs !! i = Some c → isnan c = false →
       ∃ m, Series.cummax cs !! i = Some m ∧
            isnan m = false ∧
            (∀ j y, (j ≤ i)%nat → cs !! j = Some y → isnan y = false →
                    cleb y m = true) ∧
            (∃ j, (j ≤ i)%nat ∧ cs !! j = Some m) ∧
            drawdown r !! i = Some (cdiv (csub c m) m)) ∧
    (∀ i a b, cs !! i = Some (Num a) →
       Series.cummax cs !! i = Some (Num b) → 0 < b →
       ∃ d, drawdown r !! i = Some (Num d) ∧ d ≤ 0 ∧ (a = b → d = 0)) ∧
    (∀ d, d ∈ drawdown r → isnan d = false →
       cleb (max_drawdown r) d = true ∧ max_drawdown r ∈ drawdown r) ∧
    ((∀ d, d ∈ drawdown r → isnan d = true) → max_drawdown r = NaN).
Proof.
  intros Hf Hcs Hsr.
  eexists. split; [by eapply risk_analysis_run|].
  cbn [drawdown max_drawdown].
  split; [|split; [|split; [|split; [|split]]]].
  - rewrite !length_zip_with, length_cummax. lia.
  - intros i c Hc Hnan.
    rewrite (drawdown_lookup _ _ _ _ Hc (cummax_from_nan _ _ _ _ Hc Hnan)).
    by rewrite cdiv_NaN_r.
  - intros i c Hc Hnan.
    destruct (cummax_defined cs i c Hc Hnan) as (m & Hm & Hmn & Hub & Hat).
    exists m. repeat split; try done. by apply drawdown_lookup.
  - intros i a b Ha Hb Hpos.
    destruct (cummax_defined cs i (Num a) Ha eq_refl)
      as (m & Hm & _ & Hub & _).
    assert (m = Num b) as -> by congruence.
    assert (a ≤ b) as Hab.
    { apply cleb_num. by apply (Hub i (Num a)). }
    destruct (drawdown_value a b Hpos Hab) as (d & Hd & Hle & Heq).
    exists d. split; [|done].
    rewrite (drawdown_lookup _ _ _ _ Ha Hb). by rewrite Hd.
  - intros d Hd Hnan. split.
    + by apply min_lower_bound.
    + by eapply min_attained.
  - apply min_undefined.
Qed.

(** C7, as the code has it: the Sharpe ratio is computed by one unguarded
    formula and the block returns in every case.  With a finite mean and a
    finite non-zero standard deviation it is mean / stddev * sqrt(252);
    with a zero standard deviation no error is raised and the result is
    NaN for a zero mean and the infinity of the mean's sign otherwise. *)
Theorem sharpe_ratio_unguarded (σ : store) (bt : loc) (f : frame)
    (cs sr : list cell) :
  σ !! bt = Some f →
  cols f !! "Cumulative_Strategy" = Some cs →
  cols f !! "Strategy_Return" = Some sr →
  ∃ r,
    risk_analysis bt σ = Returns (r, σ) ∧
    (∀ m s, Series.mean sr = Num m → Series.std sr = Num s → s ≠ 0 →
       sharpe_ratio r = Num (m / s * Qc_sqrt (Qc_of_Z 252))) ∧
    (∀ m, Series.mean sr = Num m → Series.std sr = Num 0 →
       sharpe_ratio r =
         if decide (m = 0) then NaN
         else if decide (0 < m) then PInf else NInf).
Proof.
  intros Hf Hcs Hsr.
  eexists. split; [by eapply risk_analysis_run|].
  cbn [sharpe_ratio]. unfold cell_of_Z. cbn [csqrt].
  assert (Qc_ltb (Qc_of_Z 252) 0 = false) as ->.
  { apply bool_decide_eq_false_2, Qcle_not_lt, Qclt_le_weak, Qc_of_Z_pos. lia. }
  pose proof sqrt_252_positive as Hsq. split.
  - intros m s -> -> Hs. cbn [cdiv]. unfold Qc_eqb.
    by rewrite bool_decide_eq_false_2.
  - intros m -> ->. cbn [cdiv]. unfold Qc_eqb at 1.
    rewrite bool_decide_eq_true_2 by done.
    unfold inf_signed, Qc_eqb, Qc_ltb.
    destruct (decide (m = 0)) as [->|Hm].
    + by rewrite bool_decide_eq_true_2.
    + rewrite bool_decide_eq_false_2 by done.
      destruct (decide (0 < m)) as [Hpos|Hneg].
      * rewrite bool_decide_eq_true_2 by done. cbn [cmul].
        by rewrite inf_signed_pos.
      * rewrite bool_decide_eq_false_2 by done. cbn [cmul].
        by rewrite inf_signed_pos.
Qed.

Lemma drawdown_below_running_max_witness :
  ∃ r d,
    risk_analysis 0%nat [equity_sample] = Returns (r, [equity_sample]) ∧
    length (drawdown r) = 5%nat ∧
    drawdown r !! 0%nat = Some NaN ∧
    drawdown r !! 4%nat = Some (Num d) ∧ d ≤ 0 ∧
    (∀ d', d' ∈ drawdown r → isnan d' = false →
       cleb (max_drawdown r) d' = true ∧ max_drawdown r ∈ drawdown r).
Proof.
  destruct (drawdown_below_running_max [equity_sample] 0%nat equity_sample
              ([NaN; NaN] ++ prices [1; 2; 1]%Z)
              [NaN; NaN; Num 0; Num 1; cdiv (cell_of_Z (-1)) (cell_of_Z 2)])
    as (r & Hrun & Hlen & Hnan & _ & Hle & Hmin & _).
  - reflexivity.
  - vm_compute. reflexivity.
  - vm_compute. reflexivity.
  - destruct (Hle 4%nat (Qc_of_Z 1) (Qc_of_Z 2)) as (d & Hd & Hd0 & _).
    + reflexivity.
    + vm_compute. reflexivity.
    + apply Qc_of_Z_pos. lia.
    + exists r, d. split; [assumption|]. split; [assumption|].
      split; [by apply (Hnan 0%nat NaN)|].
      split; [assumption|]. split; assumption.
Defined.

(** C8 as stated fails in two ways.  On the output of every backtest,
    here twenty-two bars under the default windows 20 and 50, the
    cumulative strategy curve is undefined at bar 0, so is the drawdown
    there, and an undefined value is not less than or equal to 0.  And the
    bound needs a positive running maximum: the backtest of the closes
    10, 11, -11, 11 under windows 1 and 2 enters on bar 1, loses twice
    its stake on bar 2 and leaves the curve NaN, NaN, -1, -3, whose
    running maximum is -1 and whose drawdown on the last bar is +2. *)
Lemma drawdown_undefined_at_bar0 :
  (∃ σ' r d,
     backtest_strategy 0%nat 20 50 [bars spike_and_rebound] =
       Returns (1%nat, σ') ∧
     risk_analysis 1%nat σ' = Returns (r, σ') ∧
     drawdown r !! 0%nat = Some d ∧
     d = NaN ∧ cleb d (Num 0) = false) ∧
  (∃ σ' f' r d,
     backtest_strategy 0%nat 1 2 [bars [10; 11; -11; 11]%Z] =
       Returns (1%nat, σ') ∧
     σ' !! 1%nat = Some f' ∧
     cols f' !! "Cumulative_Strategy" =
       Some ([NaN; NaN] ++ prices [-1; -3]%Z) ∧
     risk_analysis 1%nat σ' = Returns (r, σ') ∧
     drawdown r !! 3%nat = Some d ∧
     d = cell_of_Z 2 ∧ cleb d (Num 0) = false).
Proof.
  split.
  - eexists _, _, _.
    split; [vm_compute; reflexivity|].
    split; [vm_compute; reflexivity|].
    split; [reflexivity|]. split; reflexivity.
  - eexists _, _, _, _.
    split; [vm_compute; reflexivity|].
    split; [reflexivity|].
    split.
    { apply (bool_decide_unpack _). vm_compute. exact I. }
    split; [vm_compute; reflexivity|].
    split; [reflexivity|].
    split; [|reflexivity].
    apply (bool_decide_unpack _). vm_compute. exact I.
Qed.

Lemma sharpe_ratio_unguarded_witness :
  ∃ r m s,
    risk_analysis 0%nat [equity_sample] = Returns (r, [equity_sample]) ∧
    Series.mean
      [NaN; NaN; Num 0; Num 1; cdiv (cell_of_Z (-1)) (cell_of_Z 2)] =
      Num m ∧
    Series.std
      [NaN; NaN; Num 0; Num 1; cdiv (cell_of_Z (-1)) (cell_of_Z 2)] =
      Num s ∧
    s ≠ 0 ∧
    sharpe_ratio r = Num (m / s * Qc_sqrt (Qc_of_Z 252)).
Proof.
  destruct (sharpe_ratio_unguarded [equity_sample] 0%nat equity_sample
              ([NaN; NaN] ++ prices [1; 2; 1]%Z)
              [NaN; NaN; Num 0; Num 1; cdiv (cell_of_Z (-1)) (cell_of_Z 2)])
    as (r & Hrun & Hfinite & _).
  - reflexivity.
  - vm_compute. reflexivity.
  - vm_compute. reflexivity.
  - assert (∃ m, Series.mean
                   [NaN; NaN; Num 0; Num 1;
                    cdiv (cell_of_Z (-1)) (cell_of_Z 2)] = Num m)
      as [m Hm] by (vm_compute; eexists; reflexivity).
    assert (∃ s, Series.std
                   [NaN; NaN; Num 0; Num 1;
                    cdiv (cell_of_Z (-1)) (cell_of_Z 2)] = Num s ∧ 0 < s)
      as (s & Hs & Hpos).
    { vm_compute. eexists. split; [reflexivity|]. reflexivity. }
    exists r, m, s. split; [assumption|]. split; [assumption|].
    split; [assumption|].
    assert (s ≠ 0) as Hne by by apply Qc_pos_ne.
    split; [assumption|]. by apply Hfinite.
Defined.

(** C7 as stated fails whenever the strategy never trades, here
    twenty-two bars under the default windows 20 and 50 (the long average
    needs fifty): the defined strategy returns are all 0, their standard
    deviation is 0, and the block returns a report whose Sharpe ratio is
    NaN instead of signalling anything. *)
Lemma sharpe_ratio_silently_nan :
  ∃ σ' f' sr r,
    backtest_strategy 0%nat 20 50 [bars spike_and_rebound] =
      Returns (1%nat, σ') ∧
    σ' !! 1%nat = Some f' ∧
    cols f' !! "Strategy_Return" = Some sr ∧
    sr = [NaN; NaN] ++ replicate 20 (Num 0) ∧
    Series.mean sr = Num 0 ∧
    Series.std sr = Num 0 ∧
    risk_analysis 1%nat σ' = Returns (r, σ') ∧
    sharpe_ratio r = NaN.
Proof.
  eexists _, _, _, _.
  split; [vm_compute; reflexivity|].
  split; [reflexivity|].
  split; [vm_compute; reflexivity|].
  split; [apply (bool_decide_unpack _); vm_compute; exact I|].
  split; [apply (bool_decide_unpack _); vm_compute; exact I|].
  split; [apply (bool_decide_unpack _); vm_compute; exact I|].
  split; [vm_compute; reflexivity|].
  reflexivity.
Qed.


(** ** Symbolic execution of the Run Simulation block *)

Section ledger_access.
Implicit Types (σ : store) (f : frame) (cash shares total : list cell).
Implicit Types (i n : nat) (v : cell).

Lemma at_get_top σ f i name :
  at_get (length σ) i name (σ ++ [f]) =
    if bool_decide (i < nrows f)%nat then
      match cols f !! name with
      | Some c =>
          match c !! i with
          | Some v => Returns (v, σ ++ [f])
          | None => Raises IndexError
          end
      | None => Raises (KeyError name)
      end
    else Raises IndexError.
Proof.
  unfold at_get.
  rewrite (bind_returns _ _ _ _ _ (get_frame_run _ _ _ (lookup_top σ f))).
  case_bool_decide; [|done].
  destruct (cols f !! name) as [c|]; [|done]. by destruct (c !! i).
Qed.

Lemma at_get_below σ f g i name :
  at_get (length σ) i name ((σ ++ [f]) ++ [g]) =
    if bool_decide (i < nrows f)%nat then
      match cols f !! name with
      | Some c =>
          match c !! i with
          | Some v => Returns (v, (σ ++ [f]) ++ [g])
          | None => Raises IndexError
          end
      | None => Raises (KeyError name)
      end
    else Raises IndexError.
Proof.
  unfold at_get.
  assert (((σ ++ [f]) ++ [g]) !! length σ = Some f) as Hf.
  { rewrite lookup_app_l by (rewrite length_app; cbn; lia).
    apply lookup_top. }
  rewrite (bind_returns _ _ _ _ _ (get_frame_run _ _ _ Hf)).
  case_bool_decide; [|done].
  destruct (cols f !! name) as [c|]; [|done]. by destruct (c !! i).
Qed.

Lemma at_set_top σ f i name v :
  at_set (length σ) i name v (σ ++ [f]) =
    if bool_decide (i < nrows f)%nat then
      Returns ((), σ ++ [Frame (nrows f)
         (<[name := <[i := v]>
                      (default (replicate (nrows f) NaN) (cols f !! name))]>
            (cols f))])
    else Raises IndexError.
Proof.
  unfold at_set.
  rewrite (bind_returns _ _ _ _ _ (get_frame_run _ _ _ (lookup_top σ f))).
  case_bool_decide; [|done]. unfold put_frame. by rewrite insert_top.
Qed.

Lemma at_get_cash σ n cash shares total i :
  (i < n)%nat →
  at_get (length σ) i "Cash" (σ ++ [ledger_frame n cash shares total]) =
    match cash !! i with
    | Some v => Returns (v, σ ++ [ledger_frame n cash shares total])
    | None => Raises IndexError
    end.
Proof.
  intros Hi. rewrite at_get_top. cbn [nrows cols ledger_frame].
  rewrite bool_decide_eq_true_2 by done.
  by rewrite !lookup_insert_ne, lookup_insert_eq by done.
Qed.

Lemma at_get_shares σ n cash shares total i :
  (i < n)%nat →
  at_get (length σ) i "Shares" (σ ++ [ledger_frame n cash shares total]) =
    match shares !! i with
    | Some v => Returns (v, σ ++ [ledger_frame n cash shares total])
    | None => Raises IndexError
    end.
Proof.
  intros Hi. rewrite at_get_top. cbn [nrows cols ledger_frame].
  rewrite bool_decide_eq_true_2 by done.
  by rewrite lookup_insert_ne, lookup_insert_eq by done.
Qed.

Lemma at_set_cash σ n cash shares total i v :
  (i < n)%nat →
  at_set (length σ) i "Cash" v (σ ++ [ledger_frame n cash shares total]) =
    Returns ((), σ ++ [ledger_frame n (<[i := v]> cash) shares total]).
Proof.
  intros Hi. rewrite at_set_top. cbn [nrows cols ledger_frame].
  rewrite bool_decide_eq_true_2 by done.
  rewrite !lookup_insert_ne, lookup_insert_eq by done. cbn [default].
  unfold ledger_frame.
  apply (f_equal (λ m, Returns ((), σ ++ [Frame n m]))).
  rewrite (insert_insert_ne _ "Cash" "Total") by done.
  rewrite (insert_insert_ne _ "Cash" "Shares") by done.
  by rewrite insert_insert_eq.
Qed.

Lemma at_set_shares σ n cash shares total i v :
  (i < n)%nat →
  at_set (length σ) i "Shares" v (σ ++ [ledger_frame n cash shares total]) =
    Returns ((), σ ++ [ledger_frame n cash (<[i := v]> shares) total]).
Proof.
  intros Hi. rewrite at_set_top. cbn [nrows cols ledger_frame].
  rewrite bool_decide_eq_true_2 by done.
  rewrite lookup_insert_ne, lookup_insert_eq by done. cbn [default].
  unfold ledger_frame.
  apply (f_equal (λ m, Returns ((), σ ++ [Frame n m]))).
  rewrite (insert_insert_ne _ "Shares" "Total") by done.
  by rewrite insert_insert_eq.
Qed.

Lemma at_set_total σ n cash shares total i v :
  (i < n)%nat →
  at_set (length σ) i "Total" v (σ ++ [ledger_frame n cash shares total]) =
    Returns ((), σ ++ [ledger_frame n cash shares (<[i := v]> total)]).
Proof.
  intros Hi. rewrite at_set_top. cbn [nrows cols ledger_frame].
  rewrite bool_decide_eq_true_2 by done.
  rewrite lookup_insert_eq. cbn [default].
  unfold ledger_frame.
  apply (f_equal (λ m, Returns ((), σ ++ [Frame n m]))).
  by rewrite insert_insert_eq.
Qed.
End ledger_access.

Section simulation_run.
Variables (σ : store) (f : frame) (n : nat) (commission : Qc).
Variables (position open close : list cell).
Hypothesis Hrows : nrows f = n.
Hypothesis Hposition : cols f !! "Position" = Some position.
Hypothesis Hopen : cols f !! "Open" = Some open.
Hypothesis Hclose : cols f !! "Close" = Some close.
Hypothesis Hlp : length position = n.
Hypothesis Hlo : length open = n.
Hypothesis Hlc : length close = n.

Lemma simulation_step_run cash shares total i :
  length cash = n → length shares = n → length total = n →
  (1 ≤ i < n)%nat →
  simulation_step (length σ) (length (σ ++ [f])) commission i
    ((σ ++ [f]) ++ [ledger_frame n cash shares total]) =
  Returns
    ((),
     (σ ++ [f]) ++
     [let '(cash', shares', total') :=
        ledger_step commission position open close
          (cash, shares, total) i in
      ledger_frame n cash' shares' total']).
Proof using All.
  intros Hcash Hshares Htotal Hi.
  destruct (lookup_lt_is_Some_2 cash (i - 1)) as [c0 Hc0]; [lia|].
  destruct (lookup_lt_is_Some_2 shares (i - 1)) as [s0 Hs0]; [lia|].
  destruct (lookup_lt_is_Some_2 position i) as [p Hp]; [lia|].
  destruct (lookup_lt_is_Some_2 open i) as [o Ho]; [lia|].
  destruct (lookup_lt_is_Some_2 close i) as [c Hc]; [lia|].
  unfold ledger_step.
  rewrite (list_lookup_total_correct _ _ _ Hc0),
    (list_lookup_total_correct _ _ _ Hs0),
    (list_lookup_total_correct _ _ _ Hp),
    (list_lookup_total_correct _ _ _ Ho),
    (list_lookup_total_correct _ _ _ Hc).
  unfold simulation_step, trade.
  destruct (ceqb p (Num 1)) eqn:Hbuy;
    [destruct (cgtb (cfloordiv c0 o) (Num 0)) eqn:Hsome
    |destruct (ceqb p (cell_of_Z (-1))) eqn:Hsell;
      [destruct (cgtb s0 (Num 0)) eqn:Hheld|]];
    repeat first
      [ rewrite bind_run
      | rewrite ret_run
      | rewrite at_get_cash by lia
      | rewrite at_get_shares by lia
      | rewrite at_set_cash by lia
      | rewrite at_set_shares by lia
      | rewrite at_set_total by lia
      | rewrite at_get_below
      | rewrite Hrows | rewrite Hposition | rewrite Hopen | rewrite Hclose
      | rewrite Hc0 | rewrite Hs0 | rewrite Hp | rewrite Ho | rewrite Hc
      | rewrite Hbuy | rewrite Hsome | rewrite Hsell | rewrite Hheld
      | rewrite bool_decide_eq_true_2 by lia
      | rewrite list_lookup_insert_eq by lia
      | rewrite list_insert_insert_eq
      | progress cbv beta iota ];
    reflexivity.
Qed.

Lemma ledger_step_lengths st i :
  let '(cash, shares, total) := st in
  let '(cash', shares', total') :=
    ledger_step commission position open close st i in
  length cash' = length cash ∧ length shares' = length shares ∧
  length total' = length total.
Proof using Type.
  destruct st as [[cash shares] total]. unfold ledger_step.
  destruct (trade _ _ _ _ _) as [c s]. by rewrite !length_insert.
Qed.

Lemma for_each_simulation_run idx cash shares total :
  length cash = n → length shares = n → length total = n →
  Forall (λ i, 1 ≤ i < n)%nat idx →
  for_each idx (simulation_step (length σ) (length (σ ++ [f])) commission)
    ((σ ++ [f]) ++ [ledger_frame n cash shares total]) =
  Returns
    ((),
     (σ ++ [f]) ++
     [let '(cash', shares', total') :=
        foldl (ledger_step commission position open close)
          (cash, shares, total) idx in
      ledger_frame n cash' shares' total']).
Proof using All.
  intros Hcash Hshares Htotal Hidx. revert cash shares total Hcash Hshares Htotal.
  induction Hidx as [|i idx Hi Hidx IH]; intros cash shares total Hcash Hshares Htotal.
  - reflexivity.
  - cbn [for_each foldl].
    rewrite bind_run, simulation_step_run by done.
    pose proof (ledger_step_lengths (cash, shares, total) i) as Hlen.
    destruct (ledger_step commission position open close
                (cash, shares, total) i) as [[cash' shares'] total'].
    destruct Hlen as (H1 & H2 & H3).
    apply IH; congruence.
Qed.
End simulation_run.

Section run_simulation_facts.
Implicit Types (σ : store) (f : frame).

Lemma run_simulation_run σ bt f initial_capital commission
    position open close :
  σ !! bt = Some f →
  cols f !! "Position" = Some position →
  cols f !! "Open" = Some open →
  cols f !! "Close" = Some close →
  length position = nrows f → length open = nrows f →
  length close = nrows f →
  run_simulation bt initial_capital commission σ =
    Returns
      (length (σ ++ [f]),
       (σ ++ [f]) ++
       [let '(cash, shares, total) :=
          ledger_columns initial_capital commission position open close
            (nrows f) in
        ledger_frame (nrows f) cash shares total]).
Proof.
  intros Hf Hp Ho Hc Hlp Hlo Hlc. unfold run_simulation.
  rewrite bind_run, (df_copy_run _ _ _ Hf).
  rewrite bind_run. unfold df_new_like.
  rewrite bind_run, (get_frame_run _ _ _ (lookup_top σ f)).
  unfold alloc.
  rewrite bind_run, set_scalar_top. cbn [nrows cols].
  rewrite bind_run, set_scalar_top. cbn [nrows cols].
  rewrite bind_run, set_scalar_top. cbn [nrows cols].
  rewrite bind_run. unfold df_len.
  assert (((σ ++ [f]) ++
           [Frame (nrows f)
              (<["Total" := replicate (nrows f) (cell_of_Z initial_capital)]>
               (<["Shares" := replicate (nrows f) (Num 0)]>
                (<["Cash" := replicate (nrows f) (cell_of_Z initial_capital)]>
                 ∅)))]) !! length σ = Some f) as Hdata.
  { rewrite lookup_app_l by (rewrite length_app; cbn; lia).
    apply lookup_top. }
  rewrite bind_run, (get_frame_run _ _ _ Hdata), ret_run.
  rewrite bind_run.
  change (Frame (nrows f) _) with
    (ledger_frame (nrows f)
       (replicate (nrows f) (cell_of_Z initial_capital))
       (replicate (nrows f) (Num 0))
       (replicate (nrows f) (cell_of_Z initial_capital))).
  rewrite (for_each_simulation_run σ f (nrows f) commission
             position open close eq_refl Hp Ho Hc Hlp Hlo Hlc);
    [reflexivity|by rewrite length_replicate..|].
  apply list.Forall_forall. intros i Hi%elem_of_seq. lia.
Qed.
End run_simulation_facts.


(** ** The account ledger *)

Section ledger_facts.
Variables (commission : Qc) (position open close : list cell) (n : nat).
Implicit Types (st : list cell * list cell * list cell) (i : nat).

Lemma foldl_invariant (P : list cell * list cell * list cell → Prop)
    (idx : list nat) st :
  P st →
  (∀ st' i, i ∈ idx → P st' →
            P (ledger_step commission position open close st' i)) →
  P (foldl (ledger_step commission position open close) st idx).
Proof.
  revert st. induction idx as [|i idx IH]; intros st Hst Hstep; [done|].
  cbn [foldl]. apply IH.
  - apply Hstep; [by left|done].
  - intros st' j Hj. apply Hstep. by right.
Qed.

Lemma ledger_columns_lengths initial_capital :
  let '(cash, shares, total) :=
    ledger_columns initial_capital commission position open close n in
  length cash = n ∧ length shares = n ∧ length total = n.
Proof.
  unfold ledger_columns.
  apply (foldl_invariant
           (λ '(cash, shares, total),
              length cash = n ∧ length shares = n ∧ length total = n)).
  - by rewrite !length_replicate.
  - intros [[cash shares] total] i _ (H1 & H2 & H3).
    pose proof (ledger_step_lengths commission position open close
                  (cash, shares, total) i) as Hlen.
    destruct (ledger_step _ _ _ _ _ _) as [[cash' shares'] total'].
    destruct Hlen as (? & ? & ?). repeat split; congruence.
Qed.

(** The loop starts at bar 1, so row 0 keeps what the initialisation
    put there. *)
Lemma ledger_columns_row0 initial_capital :
  n ≠ 0%nat →
  let '(cash, shares, total) :=
    ledger_columns initial_capital commission position open close n in
  cash !! 0%nat = Some (cell_of_Z initial_capital) ∧
  shares !! 0%nat = Some (Num 0) ∧
  total !! 0%nat = Some (cell_of_Z initial_capital).
Proof.
  intros Hn. unfold ledger_columns.
  apply (foldl_invariant
           (λ '(cash, shares, total),
              cash !! 0%nat = Some (cell_of_Z initial_capital) ∧
              shares !! 0%nat = Some (Num 0) ∧
              total !! 0%nat = Some (cell_of_Z initial_capital))).
  - rewrite !lookup_replicate. repeat split; (done || lia).
  - intros [[cash shares] total] i Hi%elem_of_seq (H1 & H2 & H3).
    unfold ledger_step. destruct (trade _ _ _ _ _) as [c s].
    by rewrite !list_lookup_insert_ne by lia.
Qed.

Lemma trade_idle cash shares p o :
  ceqb p (Num 1) = false → ceqb p (cell_of_Z (-1)) = false →
  trade commission cash shares p o = (cash, shares).
Proof. intros H1 H2. unfold trade. by rewrite H1, H2. Qed.

(** Without a +1 or -1 in Position past bar 0 and with finite closes,
    every row stays at the initial values. *)
Lemma ledger_columns_idle initial_capital :
  length position = n → length close = n →
  (∀ i p, (1 ≤ i)%nat → position !! i = Some p →
          ceqb p (Num 1) = false ∧ ceqb p (cell_of_Z (-1)) = false) →
  Forall (λ c, is_num c = true) close →
  ledger_columns initial_capital commission position open close n =
    (replicate n (cell_of_Z initial_capital), replicate n (Num 0),
     replicate n (cell_of_Z initial_capital)).
Proof.
  intros Hlp Hlc Hidle Hnum. unfold ledger_columns.
  apply (foldl_invariant
           (λ st, st = (replicate n (cell_of_Z initial_capital),
                        replicate n (Num 0),
                        replicate n (cell_of_Z initial_capital))));
    [done|].
  intros st i Hi%elem_of_seq ->. unfold ledger_step.
  destruct (lookup_lt_is_Some_2 position i) as [p Hp]; [lia|].
  destruct (lookup_lt_is_Some_2 close i) as [c Hc]; [lia|].
  rewrite (list_lookup_total_correct _ _ _ Hp),
    (list_lookup_total_correct _ _ _ Hc).
  rewrite !lookup_total_replicate_2 by lia.
  destruct (Hidle i p) as [H1 H2]; [lia|done|].
  rewrite trade_idle by done.
  assert (is_num c = true) as Hcn.
  { eapply (proj1 (list.Forall_forall _ _) Hnum).
    by eapply list_elem_of_lookup_2. }
  destruct c as [q| | |]; try done. unfold cell_of_Z. cbn [cmul cadd].
  replace (Qc_of_Z initial_capital + 0 * q) with (Qc_of_Z initial_capital)
    by ring.
  by rewrite !insert_replicate.
Qed.
End ledger_facts.

Section ledger_frame_facts.
Implicit Types (cash shares total : list cell) (n : nat).

Lemma ledger_frame_cash n cash shares total :
  cols (ledger_frame n cash shares total) !! "Cash" = Some cash.
Proof.
  cbn [cols ledger_frame].
  by rewrite !lookup_insert_ne, lookup_insert_eq by done.
Qed.

Lemma ledger_frame_shares n cash shares total :
  cols (ledger_frame n cash shares total) !! "Shares" = Some shares.
Proof.
  cbn [cols ledger_frame].
  by rewrite lookup_insert_ne, lookup_insert_eq by done.
Qed.

Lemma ledger_frame_total n cash shares total :
  cols (ledger_frame n cash shares total) !! "Total" = Some total.
Proof. cbn [cols ledger_frame]. by rewrite lookup_insert_eq. Qed.
End ledger_frame_facts.

(** C4, as the code has it: the ledger starts at (InitialCapital, 0,
    InitialCapital) on bar 0, and when Position is never +1 or -1 after
    bar 0 and every close is a number TotalValue is InitialCapital on
    every bar. *)
Theorem ledger_initial_row_and_idle_account (σ : store) (bt : loc)
    (f : frame) (initial_capital : Z) (commission : Qc)
    (position open close : list cell) :
  σ !! bt = Some f → wf_frame f →
  cols f !! "Position" = Some position →
  cols f !! "Open" = Some open →
  cols f !! "Close" = Some close →
  nrows f ≠ 0%nat →
  ∃ account cash shares total,
    run_simulation bt initial_capital commission σ =
      Returns (length (σ ++ [f]), (σ ++ [f]) ++ [account]) ∧
    nrows account = nrows f ∧
    cols account !! "Cash" = Some cash ∧
    cols account !! "Shares" = Some shares ∧
    cols account !! "Total" = Some total ∧
    length total = nrows f ∧
    cash !! 0%nat = Some (cell_of_Z initial_capital) ∧
    shares !! 0%nat = Some (Num 0) ∧
    total !! 0%nat = Some (cell_of_Z initial_capital) ∧
    ((∀ i p, (1 ≤ i)%nat → position !! i = Some p →
             ceqb p (Num 1) = false ∧ ceqb p (cell_of_Z (-1)) = false) →
     Forall (λ c, is_num c = true) close →
     ∀ i, (i < nrows f)%nat →
          total !! i = Some (cell_of_Z initial_capital)).
Proof.
  intros Hf Hwf Hp Ho Hc Hn.
  pose proof (wf_frame_length _ _ _ Hwf Hp) as Hlp.
  pose proof (wf_frame_length _ _ _ Hwf Ho) as Hlo.
  pose proof (wf_frame_length _ _ _ Hwf Hc) as Hlc.
  pose proof (run_simulation_run σ bt f initial_capital commission
                position open close Hf Hp Ho Hc Hlp Hlo Hlc) as Hrun.
  pose proof (ledger_columns_lengths commission position open close
                (nrows f) initial_capital) as Hlen.
  pose proof (ledger_columns_row0 commission position open close
                (nrows f) initial_capital Hn) as Hrow0.
  pose proof (ledger_columns_idle commission position open close
                (nrows f) initial_capital Hlp Hlc) as Hidle.
  destruct (ledger_columns initial_capital commission position open close
              (nrows f)) as [[cash shares] total].
  destruct Hlen as (Hl1 & Hl2 & Hl3). destruct Hrow0 as (H1 & H2 & H3).
  exists (ledger_frame (nrows f) cash shares total), cash, shares, total.
  split; [done|]. split; [done|].
  rewrite ledger_frame_cash, ledger_frame_shares, ledger_frame_total.
  do 7 (split; [done|]).
  intros Hnone Hnum i Hi.
  injection (Hidle Hnone Hnum) as _ _ ->.
  apply lookup_replicate. done.
Qed.

Lemma ledger_initial_row_and_idle_account_witness :
  ∃ account cash shares total,
    run_simulation 0%nat 10000 0
      [positioned_bars [10; 11; 12]%Z [10; 12; 11]%Z [NaN; Num 0; Num 0]] =
      Returns
        (2%nat,
         [positioned_bars [10; 11; 12]%Z [10; 12; 11]%Z [NaN; Num 0; Num 0];
          positioned_bars [10; 11; 12]%Z [10; 12; 11]%Z [NaN; Num 0; Num 0];
          account]) ∧
    cols account !! "Cash" = Some cash ∧
    cols account !! "Shares" = Some shares ∧
    cols account !! "Total" = Some total ∧
    cash !! 0%nat = Some (cell_of_Z 10000) ∧
    shares !! 0%nat = Some (Num 0) ∧
    total !! 0%nat = Some (cell_of_Z 10000) ∧
    (∀ i, (i < 3)%nat → total !! i = Some (cell_of_Z 10000)).
Proof.
  destruct (ledger_initial_row_and_idle_account
              [positioned_bars [10; 11; 12]%Z [10; 12; 11]%Z
                 [NaN; Num 0; Num 0]]
              0%nat
              (positioned_bars [10; 11; 12]%Z [10; 12; 11]%Z
                 [NaN; Num 0; Num 0])
              10000 0 [NaN; Num 0; Num 0]
              (prices [10; 11; 12]%Z) (prices [10; 12; 11]%Z))
    as (account & cash & shares & total & Hrun & _ & Hc & Hs & Ht & _ &
        Hc0 & Hs0 & Ht0 & Hidle).
  - reflexivity.
  - apply (bool_decide_unpack _). vm_compute. exact I.
  - vm_compute. reflexivity.
  - vm_compute. reflexivity.
  - vm_compute. reflexivity.
  - cbn. lia.
  - exists account, cash, shares, total.
    do 7 (split; [assumption|]).
    apply Hidle.
    + intros [|[|[|i]]] p Hi Hp; [lia|..]; cbn in Hp;
        [injection Hp as <-; split; vm_compute; reflexivity..|discriminate].
    + apply (bool_decide_unpack _). vm_compute. exact I.
Defined.

(** C4 as stated fails where a close is missing.  The backtest of
    [gapped_bars] under the default windows 20 and 50 never marks a bar
    +1 or -1, the simulation never trades, and yet the total of bar 1 is
    InitialCapital + 0 * NaN, which is NaN. *)
Lemma idle_total_undefined_on_missing_close :
  ∃ σ' f' position σ'' account cash shares total,
    backtest_strategy 0%nat 20 50 [gapped_bars] = Returns (1%nat, σ') ∧
    σ' !! 1%nat = Some f' ∧
    cols f' !! "Position" = Some position ∧
    position = NaN :: replicate 21 (Num 0) ∧
    run_simulation 1%nat 10000 0 σ' = Returns (3%nat, σ'') ∧
    σ'' !! 3%nat = Some account ∧
    cols account !! "Cash" = Some cash ∧
    cols account !! "Shares" = Some shares ∧
    cols account !! "Total" = Some total ∧
    cash !! 1%nat = Some (cell_of_Z 10000) ∧
    shares !! 1%nat = Some (Num 0) ∧
    total !! 1%nat = Some NaN ∧
    total !! 1%nat ≠ Some (cell_of_Z 10000).
Proof.
  eexists _, _, _, _, _, _, _, _.
  split; [vm_compute; reflexivity|].
  split; [reflexivity|].
  split; [vm_compute; reflexivity|].
  split; [apply (bool_decide_unpack _); vm_compute; exact I|].
  split; [vm_compute; reflexivity|].
  split; [reflexivity|].
  split; [vm_compute; reflexivity|].
  split; [vm_compute; reflexivity|].
  split; [vm_compute; reflexivity|].
  split; [reflexivity|]. split; [reflexivity|].
  split; [reflexivity|]. discriminate.
Qed.

Section whole_shares.
Implicit Types (a b c o : Qc) (z k : Z).






End whole_shares.

Section sound_ledger.
Variables (position open close : list cell) (n : nat).
Hypothesis Hlo : length open = n.
Hypothesis Hlc : length close = n.
Hypothesis Hopen : ∀ i o, open !! i = Some o → ∃ q, o = Num q ∧ 0 < q.
Hypothesis Hclose : ∀ i c, close !! i = Some c → ∃ q, c = Num q ∧ 0 ≤ q.


End sound_ledger.


Section sample_prices.
Implicit Types (l : list Z).


End sample_prices.




(** ** The ledger, bar by bar *)

Section ledger_recurrence.
Variables (commission : Qc) (position open close : list cell) (n : nat).
Variable initial_capital : Z.
Implicit Types (st : list cell * list cell * list cell) (i k : nat).

Local Abbreviation passed :=
  (ledger_passed commission position open close n).

Lemma passed_start :
  passed 0
    (replicate n (cell_of_Z initial_capital), replicate n (Num 0),
     replicate n (cell_of_Z initial_capital)).
Proof. split; [by rewrite !length_replicate|]. intros i Hi. lia. Qed.

Lemma passed_step k st :
  (S k < n)%nat → passed k st →
  passed (S k) (ledger_step commission position open close st (S k)).
Proof.
  destruct st as [[cash shares] total]. intros Hk [(Hl1 & Hl2 & Hl3) Hrec].
  unfold ledger_step. cbn [Nat.sub]. rewrite Nat.sub_0_r.
  destruct (trade commission (cash !!! k) (shares !!! k)
              (position !!! S k) (open !!! S k)) as [c s] eqn:Htrade.
  split; [by rewrite !length_insert|].
  intros i Hi Hin. destruct (decide (i = S k)) as [->|Hne].
  - cbn [Nat.sub]. rewrite Nat.sub_0_r.
    rewrite !list_lookup_total_insert_eq by lia.
    rewrite !list_lookup_total_insert_ne by lia.
    by rewrite Htrade.
  - rewrite !list_lookup_total_insert_ne by lia.
    apply Hrec; lia.
Qed.

Lemma passed_all k :
  (k < n)%nat →
  passed k
    (foldl (ledger_step commission position open close)
       (replicate n (cell_of_Z initial_capital), replicate n (Num 0),
        replicate n (cell_of_Z initial_capital))
       (seq 1 k)).
Proof.
  induction k as [|k IH]; intros Hk; [apply passed_start|].
  rewrite seq_S, foldl_app. cbn [foldl Nat.add].
  apply passed_step; [done|]. apply IH. lia.
Qed.

(** Every row of the finished ledger comes from the row before it by
    the bar's buy/sell decision, and its total is cash plus shares at
    the close. *)
Lemma ledger_columns_recurrence :
  let '(cash, shares, total) :=
    ledger_columns initial_capital commission position open close n in
  ∀ i, (1 ≤ i < n)%nat →
    (cash !!! i, shares !!! i) =
      trade commission (cash !!! (i - 1)%nat) (shares !!! (i - 1)%nat)
        (position !!! i) (open !!! i) ∧
    total !!! i = cadd (cash !!! i) (cmul (shares !!! i) (close !!! i)).
Proof.
  unfold ledger_columns.
  destruct (decide (n = 0%nat)) as [->|Hn].
  { cbn. intros i Hi. lia. }
  pose proof (passed_all (n - 1) ltac:(lia)) as Hp.
  destruct (foldl _ _ _) as [[cash shares] total].
  destruct Hp as [_ Hrec]. intros i Hi. apply Hrec; lia.
Qed.
End ledger_recurrence.

Section simulation_rows.
Implicit Types (σ : store) (f : frame).

(** The simulation returns a ledger whose rows obey the recurrence. *)
Lemma run_simulation_rows σ bt f initial_capital commission
    position open close :
  σ !! bt = Some f → wf_frame f →
  cols f !! "Position" = Some position →
  cols f !! "Open" = Some open →
  cols f !! "Close" = Some close →
  ∃ cash shares total,
    run_simulation bt initial_capital commission σ =
      Returns (length (σ ++ [f]),
               (σ ++ [f]) ++ [ledger_frame (nrows f) cash shares total]) ∧
    (length cash = nrows f ∧ length shares = nrows f ∧
     length total = nrows f) ∧
    (∀ i, (1 ≤ i < nrows f)%nat →
       (cash !!! i, shares !!! i) =
         trade commission (cash !!! (i - 1)%nat) (shares !!! (i - 1)%nat)
           (position !!! i) (open !!! i) ∧
       total !!! i = cadd (cash !!! i) (cmul (shares !!! i) (close !!! i))).
Proof.
  intros Hf Hwf Hp Ho Hc.
  pose proof (wf_frame_length _ _ _ Hwf Hp) as Hlp.
  pose proof (wf_frame_length _ _ _ Hwf Ho) as Hlo.
  pose proof (wf_frame_length _ _ _ Hwf Hc) as Hlc.
  pose proof (run_simulation_run σ bt f initial_capital commission
                position open close Hf Hp Ho Hc Hlp Hlo Hlc) as Hrun.
  pose proof (ledger_columns_lengths commission position open close
                (nrows f) initial_capital) as Hlen.
  pose proof (ledger_columns_recurrence commission position open close
                (nrows f) initial_capital) as Hrec.
  destruct (ledger_columns initial_capital commission position open close
              (nrows f)) as [[cash shares] total].
  by exists cash, shares, total.
Qed.

Lemma trade_cases commission c0 s0 p o c1 s1 :
  trade commission c0 s0 p o = (c1, s1) →
  (ceqb p (Num 1) = true ∧ cgtb (cfloordiv c0 o) (Num 0) = true ∧
   c1 = csub c0 (cadd (cmul (cfloordiv c0 o) o) (Num commission)) ∧
   s1 = cadd s0 (cfloordiv c0 o)) ∨
  (ceqb p (Num 1) = false ∧ ceqb p (cell_of_Z (-1)) = true ∧
   cgtb s0 (Num 0) = true ∧
   c1 = cadd c0 (csub (cmul s0 o) (Num commission)) ∧ s1 = Num 0) ∨
  ((ceqb p (Num 1) = true ∧ cgtb (cfloordiv c0 o) (Num 0) = false ∨
    ceqb p (Num 1) = false ∧ ceqb p (cell_of_Z (-1)) = true ∧
    cgtb s0 (Num 0) = false ∨
    ceqb p (Num 1) = false ∧ ceqb p (cell_of_Z (-1)) = false) ∧
   c1 = c0 ∧ s1 = s0).
Proof.
  unfold trade.
  destruct (ceqb p (Num 1));
    [destruct (cgtb (cfloordiv c0 o) (Num 0))
    |destruct (ceqb p (cell_of_Z (-1))); [destruct (cgtb s0 (Num 0))|]];
    intros [= <- <-]; naive_solver.
Qed.
End simulation_rows.

(** Bar by bar, the ledger is the state machine the loop writes: the row
    of bar [i >= 1] is the row of bar [i-1] after at most one trade at the
    open of bar [i].  A buy (Position = 1 and at least one whole share
    affordable) takes floor(Cash/Open) shares and pays for them plus the
    commission; a sell (Position = -1 with shares held) turns all shares
    into cash less the commission; otherwise cash and shares carry over.
    The total is cash plus shares at the bar's close. *)
Theorem ledger_follows_bar_by_bar (σ : store) (bt : loc) (f : frame)
    (initial_capital : Z) (commission : Qc)
    (position open close : list cell) :
  σ !! bt = Some f → wf_frame f →
  cols f !! "Position" = Some position →
  cols f !! "Open" = Some open →
  cols f !! "Close" = Some close →
  ∃ account cash shares total,
    run_simulation bt initial_capital commission σ =
      Returns (length (σ ++ [f]), (σ ++ [f]) ++ [account]) ∧
    cols account !! "Cash" = Some cash ∧
    cols account !! "Shares" = Some shares ∧
    cols account !! "Total" = Some total ∧
    (∀ i c0 s0 p o cl,
       (1 ≤ i)%nat →
       cash !! (i - 1)%nat = Some c0 → shares !! (i - 1)%nat = Some s0 →
       position !! i = Some p → open !! i = Some o → close !! i = Some cl →
       ∃ c1 s1,
         cash !! i = Some c1 ∧ shares !! i = Some s1 ∧
         total !! i = Some (cadd c1 (cmul s1 cl)) ∧
         ((ceqb p (Num 1) = true ∧ cgtb (cfloordiv c0 o) (Num 0) = true ∧
           c1 = csub c0 (cadd (cmul (cfloordiv c0 o) o) (Num commission)) ∧
           s1 = cadd s0 (cfloordiv c0 o)) ∨
          (ceqb p (Num 1) = false ∧ ceqb p (cell_of_Z (-1)) = true ∧
           cgtb s0 (Num 0) = true ∧
           c1 = cadd c0 (csub (cmul s0 o) (Num commission)) ∧ s1 = Num 0) ∨
          ((ceqb p (Num 1) = true ∧ cgtb (cfloordiv c0 o) (Num 0) = false ∨
            ceqb p (Num 1) = false ∧ ceqb p (cell_of_Z (-1)) = true ∧
            cgtb s0 (Num 0) = false ∨
            ceqb p (Num 1) = false ∧ ceqb p (cell_of_Z (-1)) = false) ∧
           c1 = c0 ∧ s1 = s0))).
Proof.
  intros Hf Hwf Hp Ho Hc.
  destruct (run_simulation_rows σ bt f initial_capital commission
              position open close Hf Hwf Hp Ho Hc)
    as (cash & shares & total & Hrun & (Hl1 & Hl2 & Hl3) & Hrec).
  exists (ledger_frame (nrows f) cash shares total), cash, shares, total.
  split; [done|].
  rewrite ledger_frame_cash, ledger_frame_shares, ledger_frame_total.
  do 3 (split; [done|]).
  intros i c0 s0 p o cl Hi Hc0 Hs0 Hpi Hoi Hcl.
  assert (i < nrows f)%nat as Hin.
  { apply lookup_lt_Some in Hpi.
    by rewrite (wf_frame_length _ _ _ Hwf Hp) in Hpi. }
  destruct (Hrec i ltac:(lia)) as [Htrade Htotal].
  rewrite (list_lookup_total_correct _ _ _ Hc0),
    (list_lookup_total_correct _ _ _ Hs0),
    (list_lookup_total_correct _ _ _ Hpi),
    (list_lookup_total_correct _ _ _ Hoi) in Htrade.
  rewrite (list_lookup_total_correct _ _ _ Hcl) in Htotal.
  destruct (lookup_lt_is_Some_2 cash i) as [c1 Hc1]; [lia|].
  destruct (lookup_lt_is_Some_2 shares i) as [s1 Hs1]; [lia|].
  destruct (lookup_lt_is_Some_2 total i) as [t1 Ht1]; [lia|].
  rewrite (list_lookup_total_correct _ _ _ Hc1),
    (list_lookup_total_correct _ _ _ Hs1) in Htrade, Htotal.
  rewrite (list_lookup_total_correct _ _ _ Ht1) in Htotal. subst t1.
  exists c1, s1. do 3 (split; [done|]).
  by apply trade_cases.
Qed.

Lemma ledger_follows_bar_by_bar_witness :
  ∃ account cash shares total,
    run_simulation 0%nat 10000 0 [round_trip_bars] =
      Returns (length ([round_trip_bars] ++ [round_trip_bars]),
               ([round_trip_bars] ++ [round_trip_bars]) ++ [account]) ∧
    cols account !! "Cash" = Some cash ∧
    cols account !! "Shares" = Some shares ∧
    cols account !! "Total" = Some total ∧
    (∀ i c0 s0 p o cl,
       (1 ≤ i)%nat →
       cash !! (i - 1)%nat = Some c0 → shares !! (i - 1)%nat = Some s0 →
       [NaN; Num 1; cell_of_Z (-1)] !! i = Some p →
       prices [10; 11; 12]%Z !! i = Some o →
       prices [10; 12; 11]%Z !! i = Some cl →
       ∃ c1 s1,
         cash !! i = Some c1 ∧ shares !! i = Some s1 ∧
         total !! i = Some (cadd c1 (cmul s1 cl)) ∧
         ((ceqb p (Num 1) = true ∧ cgtb (cfloordiv c0 o) (Num 0) = true ∧
           c1 = csub c0 (cadd (cmul (cfloordiv c0 o) o) (Num 0)) ∧
           s1 = cadd s0 (cfloordiv c0 o)) ∨
          (ceqb p (Num 1) = false ∧ ceqb p (cell_of_Z (-1)) = true ∧
           cgtb s0 (Num 0) = true ∧
           c1 = cadd c0 (csub (cmul s0 o) (Num 0)) ∧ s1 = Num 0) ∨
          ((ceqb p (Num 1) = true ∧ cgtb (cfloordiv c0 o) (Num 0) = false ∨
            ceqb p (Num 1) = false ∧ ceqb p (cell_of_Z (-1)) = true ∧
            cgtb s0 (Num 0) = false ∨
            ceqb p (Num 1) = false ∧ ceqb p (cell_of_Z (-1)) = false) ∧
           c1 = c0 ∧ s1 = s0))).
Proof.
  apply (ledger_follows_bar_by_bar [round_trip_bars] 0%nat round_trip_bars
           10000 0 [NaN; Num 1; cell_of_Z (-1)]
           (prices [10; 11; 12]%Z) (prices [10; 12; 11]%Z)).
  - reflexivity.
  - apply (bool_decide_unpack _). vm_compute. exact I.
  - vm_compute. reflexivity.
  - vm_compute. reflexivity.
  - vm_compute. reflexivity.
Defined.


(** ** The simulation and the frames around it *)

Section simulation_edges.
Implicit Types (σ : store) (f : frame).

(** Up to the loop, the block only copies and initialises. *)
Lemma run_simulation_loop σ bt f initial_capital commission :
  σ !! bt = Some f →
  run_simulation bt initial_capital commission σ =
    match
      for_each (seq 1 (nrows f - 1))
        (simulation_step (length σ) (length (σ ++ [f])) commission)
        ((σ ++ [f]) ++
         [ledger_frame (nrows f)
            (replicate (nrows f) (cell_of_Z initial_capital))
            (replicate (nrows f) (Num 0))
            (replicate (nrows f) (cell_of_Z initial_capital))])
    with
    | Returns (_, σ') => Returns (length (σ ++ [f]), σ')
    | Raises e => Raises e
    end.
Proof.
  intros Hf. unfold run_simulation.
  rewrite bind_run, (df_copy_run _ _ _ Hf).
  rewrite bind_run. unfold df_new_like.
  rewrite bind_run, (get_frame_run _ _ _ (lookup_top σ f)).
  unfold alloc.
  rewrite bind_run, set_scalar_top. cbn [nrows cols].
  rewrite bind_run, set_scalar_top. cbn [nrows cols].
  rewrite bind_run, set_scalar_top. cbn [nrows cols].
  rewrite bind_run. unfold df_len.
  assert (((σ ++ [f]) ++
           [Frame (nrows f)
              (<["Total" := replicate (nrows f) (cell_of_Z initial_capital)]>
               (<["Shares" := replicate (nrows f) (Num 0)]>
                (<["Cash" := replicate (nrows f) (cell_of_Z initial_capital)]>
                 ∅)))]) !! length σ = Some f) as Hdata.
  { rewrite lookup_app_l by (rewrite length_app; cbn; lia).
    apply lookup_top. }
  rewrite bind_run, (get_frame_run _ _ _ Hdata), ret_run.
  rewrite bind_run.
  change (Frame (nrows f) _) with
    (ledger_frame (nrows f)
       (replicate (nrows f) (cell_of_Z initial_capital))
       (replicate (nrows f) (Num 0))
       (replicate (nrows f) (cell_of_Z initial_capital))).
  by destruct (for_each _ _ _) as [[[] σ']|e].
Qed.

Lemma simulation_step_without_position σ f n commission
    cash shares total i :
  nrows f = n → cols f !! "Position" = None →
  length cash = n → length shares = n → (1 ≤ i < n)%nat →
  simulation_step (length σ) (length (σ ++ [f])) commission i
    ((σ ++ [f]) ++ [ledger_frame n cash shares total]) =
  Raises (KeyError "Position").
Proof.
  intros Hrows Hnone Hcash Hshares Hi.
  destruct (lookup_lt_is_Some_2 cash (i - 1)) as [c0 Hc0]; [lia|].
  destruct (lookup_lt_is_Some_2 shares (i - 1)) as [s0 Hs0]; [lia|].
  unfold simulation_step.
  rewrite bind_run, at_get_cash, Hc0 by lia.
  rewrite bind_run, at_set_cash by lia.
  rewrite bind_run, at_get_shares, Hs0 by lia.
  rewrite bind_run, at_set_shares by lia.
  rewrite bind_run, at_get_below, Hrows, Hnone.
  by rewrite bool_decide_eq_true_2 by lia.
Qed.
End simulation_edges.

(** The simulation needs the Position column only when there is a second
    bar: on a frame without that column it raises KeyError('Position') as
    soon as the frame has two bars or more, and with at most one bar the
    loop body never runs and the ledger keeps its initial row. *)
Theorem simulation_without_position (σ : store) (bt : loc) (f : frame)
    (initial_capital : Z) (commission : Qc) :
  σ !! bt = Some f → cols f !! "Position" = None →
  ((2 ≤ nrows f)%nat →
   run_simulation bt initial_capital commission σ =
     Raises (KeyError "Position")) ∧
  ((nrows f ≤ 1)%nat →
   run_simulation bt initial_capital commission σ =
     Returns
       (length (σ ++ [f]),
        (σ ++ [f]) ++
        [ledger_frame (nrows f)
           (replicate (nrows f) (cell_of_Z initial_capital))
           (replicate (nrows f) (Num 0))
           (replicate (nrows f) (cell_of_Z initial_capital))])).
Proof.
  intros Hf Hnone. rewrite (run_simulation_loop _ _ _ _ _ Hf). split.
  - intros Hn.
    assert (seq 1 (nrows f - 1) = 1%nat :: seq 2 (nrows f - 2)) as ->.
    { destruct (nrows f) as [|[|n]]; [lia..|].
      cbn [Nat.sub]. by rewrite Nat.sub_0_r. }
    cbn [for_each]. rewrite bind_run.
    rewrite (simulation_step_without_position σ f (nrows f));
      [done..|by rewrite length_replicate|by rewrite length_replicate|lia].
  - intros Hn.
    assert (seq 1 (nrows f - 1) = []) as ->.
    { destruct (nrows f) as [|[|n]]; [done..|lia]. }
    reflexivity.
Qed.

Lemma simulation_without_position_witness :
  ((2 ≤ 3)%nat →
   run_simulation 0%nat 10000 0 [bars [10; 11; 12]%Z] =
     Raises (KeyError "Position")) ∧
  ((3 ≤ 1)%nat →
   run_simulation 0%nat 10000 0 [bars [10; 11; 12]%Z] =
     Returns
       (length ([bars [10; 11; 12]%Z] ++ [bars [10; 11; 12]%Z]),
        ([bars [10; 11; 12]%Z] ++ [bars [10; 11; 12]%Z]) ++
        [ledger_frame 3
           (replicate 3 (cell_of_Z 10000))
           (replicate 3 (Num 0))
           (replicate 3 (cell_of_Z 10000))])).
Proof.
  apply (simulation_without_position [bars [10; 11; 12]%Z] 0%nat
           (bars [10; 11; 12]%Z) 10000 0).
  - reflexivity.
  - vm_compute. reflexivity.
Defined.

(** The simulation works on a copy and builds a new ledger: every frame
    that was in the store is still there unchanged, and the ledger is a
    new well-formed frame with one row per bar and exactly the columns
    Cash, Shares and Total. *)
Theorem simulation_adds_a_ledger (σ : store) (bt : loc) (f : frame)
    (initial_capital : Z) (commission : Qc)
    (position open close : list cell) :
  σ !! bt = Some f → wf_frame f →
  cols f !! "Position" = Some position →
  cols f !! "Open" = Some open →
  cols f !! "Close" = Some close →
  ∃ l σ' account,
    run_simulation bt initial_capital commission σ = Returns (l, σ') ∧
    (∀ k g, σ !! k = Some g → σ' !! k = Some g) ∧
    σ !! l = None ∧
    σ' !! l = Some account ∧
    nrows account = nrows f ∧
    wf_frame account ∧
    (∀ name, is_Some (cols account !! name) ↔
             name ∈ ["Cash"; "Shares"; "Total"]).
Proof.
  intros Hf Hwf Hp Ho Hc.
  destruct (run_simulation_rows σ bt f initial_capital commission
              position open close Hf Hwf Hp Ho Hc)
    as (cash & shares & total & Hrun & (Hl1 & Hl2 & Hl3) & _).
  eexists _, _, _. split; [exact Hrun|].
  split; [|split; [|split; [|split; [|split]]]].
  - intros k g Hk. pose proof (lookup_lt_Some _ _ _ Hk).
    rewrite <- app_assoc. by rewrite lookup_app_l.
  - apply lookup_ge_None. rewrite length_app. cbn. lia.
  - apply lookup_top.
  - done.
  - unfold wf_frame, ledger_frame. cbn [cols nrows].
    repeat (apply map_Forall_insert_2; [done|]).
    apply map_Forall_empty.
  - intros name. unfold ledger_frame. cbn [cols].
    rewrite !elem_of_cons, elem_of_nil.
    destruct (decide (name = "Total")) as [->|H1];
      [rewrite lookup_insert_eq; split; [tauto|by eexists]|].
    rewrite lookup_insert_ne by done.
    destruct (decide (name = "Shares")) as [->|H2];
      [rewrite lookup_insert_eq; split; [tauto|by eexists]|].
    rewrite lookup_insert_ne by done.
    destruct (decide (name = "Cash")) as [->|H3];
      [rewrite lookup_insert_eq; split; [tauto|by eexists]|].
    rewrite lookup_insert_ne, lookup_empty by done.
    split; [by intros [? ?]|intros [?|[?|[?|[]]]]; congruence].
Qed.

Lemma simulation_adds_a_ledger_witness :
  ∃ l σ' account,
    run_simulation 0%nat 10000 0 [round_trip_bars] = Returns (l, σ') ∧
    (∀ k g, [round_trip_bars] !! k = Some g → σ' !! k = Some g) ∧
    [round_trip_bars] !! l = None ∧
    σ' !! l = Some account ∧
    nrows account = nrows round_trip_bars ∧
    wf_frame account ∧
    (∀ name, is_Some (cols account !! name) ↔
             name ∈ ["Cash"; "Shares"; "Total"]).
Proof.
  apply (simulation_adds_a_ledger [round_trip_bars] 0%nat round_trip_bars
           10000 0 [NaN; Num 1; cell_of_Z (-1)]
           (prices [10; 11; 12]%Z) (prices [10; 12; 11]%Z)).
  - reflexivity.
  - apply (bool_decide_unpack _). vm_compute. exact I.
  - vm_compute. reflexivity.
  - vm_compute. reflexivity.
  - vm_compute. reflexivity.
Defined.


(** ** The performance metrics *)

Section metrics_run.
Implicit Types (σ : store) (g : frame) (cm cs : list cell).

End metrics_run.


(** ** Entries and exits *)

Section edges.
Implicit Types (s : list cell) (x y : cell).

Lemma one_is_not_zero : Num 1 ≠ Num 0.
Proof.
  intros E.
  apply (f_equal (λ c, if c is Num q then this q else 0%Q)) in E.
  vm_compute in E. discriminate.
Qed.

(** A two-valued series that holds [x] at [a] and [y] later on steps
    from [x] to [y] somewhere in between. *)
Lemma two_valued_edge s x y a b :
  (∀ j v, s !! j = Some v → v = x ∨ v = y) →
  (a < b)%nat → s !! a = Some x → s !! b = Some y →
  ∃ k, (a < k ≤ b)%nat ∧ s !! (k - 1)%nat = Some x ∧ s !! k = Some y.
Proof.
  intros Hxy Hab Ha. induction b as [|b IH]; [lia|]. intros Hb.
  destruct (decide (a = b)) as [->|Hne].
  - exists (S b). cbn. rewrite Nat.sub_0_r. split; [lia|done].
  - destruct (lookup_lt_is_Some_2 s b) as [v Hv].
    { apply lookup_lt_Some in Hb. lia. }
    destruct (Hxy _ _ Hv) as [-> | ->].
    + exists (S b). cbn. rewrite Nat.sub_0_r. split; [lia|done].
    + destruct (IH ltac:(lia) Hv) as (k & Hk & H1 & H2).
      exists k. split; [lia|done].
Qed.

Lemma csub_binary_entry x y :
  (x = Num 0 ∨ x = Num 1) → (y = Num 0 ∨ y = Num 1) →
  csub y x = Num 1 → x = Num 0 ∧ y = Num 1.
Proof.
  intros [-> | ->] [-> | ->]; unfold csub; cbn [cneg cadd];
    intros E;
    first [ by split
          | exfalso;
            apply (f_equal (λ c, if c is Num q then this q else 0%Q)) in E;
            vm_compute in E; discriminate ].
Qed.

Lemma csub_binary_exit x y :
  (x = Num 0 ∨ x = Num 1) → (y = Num 0 ∨ y = Num 1) →
  csub y x = Num (-1) → x = Num 1 ∧ y = Num 0.
Proof.
  intros [-> | ->] [-> | ->]; unfold csub; cbn [cneg cadd];
    intros E;
    first [ by split
          | exfalso;
            apply (f_equal (λ c, if c is Num q then this q else 0%Q)) in E;
            vm_compute in E; discriminate ].
Qed.

Lemma diff_lookup_inv s i p :
  Series.diff s !! i = Some p → isnan p = false →
  ∃ a b, (1 ≤ i)%nat ∧ s !! (i - 1)%nat = Some a ∧ s !! i = Some b ∧
         p = csub b a.
Proof.
  intros Hp Hnan. pose proof (lookup_lt_Some _ _ _ Hp) as Hi.
  rewrite length_diff in Hi. destruct i as [|i].
  - rewrite diff_lookup_0 in Hp by (intros ->; cbn in Hi; lia).
    by injection Hp as <-.
  - destruct (lookup_lt_is_Some_2 s i) as [a Ha]; [lia|].
    destruct (lookup_lt_is_Some_2 s (S i)) as [b Hb]; [lia|].
    rewrite (diff_lookup_S _ _ _ _ Ha Hb) in Hp. injection Hp as <-.
    exists a, b. cbn. rewrite Nat.sub_0_r. split; [lia|done].
Qed.

Lemma diff_entry s i :
  (∀ j v, s !! j = Some v → v = Num 0 ∨ v = Num 1) →
  Series.diff s !! i = Some (Num 1) →
  (1 ≤ i)%nat ∧ s !! (i - 1)%nat = Some (Num 0) ∧ s !! i = Some (Num 1).
Proof.
  intros Hbin Hp.
  destruct (diff_lookup_inv _ _ _ Hp eq_refl) as (a & b & Hi & Ha & Hb & E).
  destruct (csub_binary_entry a b) as [-> ->]; eauto.
Qed.

Lemma diff_exit s i :
  (∀ j v, s !! j = Some v → v = Num 0 ∨ v = Num 1) →
  Series.diff s !! i = Some (Num (-1)) →
  (1 ≤ i)%nat ∧ s !! (i - 1)%nat = Some (Num 1) ∧ s !! i = Some (Num 0).
Proof.
  intros Hbin Hp.
  destruct (diff_lookup_inv _ _ _ Hp eq_refl) as (a & b & Hi & Ha & Hb & E).
  destruct (csub_binary_exit a b) as [-> ->]; eauto.
Qed.

Lemma diff_of_edge s k a b :
  (1 ≤ k)%nat → s !! (k - 1)%nat = Some a → s !! k = Some b →
  Series.diff s !! k = Some (csub b a).
Proof.
  intros Hk Ha Hb. destruct k as [|k]; [lia|].
  cbn in Ha. rewrite Nat.sub_0_r in Ha. by apply diff_lookup_S.
Qed.

(** Between two entries there is an exit, between two exits an entry. *)
Lemma diff_binary_alternates s i j :
  (∀ j v, s !! j = Some v → v = Num 0 ∨ v = Num 1) → (i < j)%nat →
  (Series.diff s !! i = Some (Num 1) → Series.diff s !! j = Some (Num 1) →
   ∃ k, (i < k < j)%nat ∧ Series.diff s !! k = Some (Num (-1))) ∧
  (Series.diff s !! i = Some (Num (-1)) →
   Series.diff s !! j = Some (Num (-1)) →
   ∃ k, (i < k < j)%nat ∧ Series.diff s !! k = Some (Num 1)).
Proof.
  intros Hbin Hij. split; intros Hi Hj.
  - destruct (diff_entry _ _ Hbin Hi) as (_ & _ & Hsi).
    destruct (diff_entry _ _ Hbin Hj) as (_ & Hsj & _).
    assert (i ≠ j - 1)%nat as Hne.
    { intros ->. apply one_is_not_zero. congruence. }
    destruct (two_valued_edge s (Num 1) (Num 0) i (j - 1))
      as (k & Hk & H1 & H0); [|lia|done..|].
    { intros n v Hv. destruct (Hbin _ _ Hv); auto. }
    exists k. split; [lia|].
    rewrite (diff_of_edge s k _ _ ltac:(lia) H1 H0).
    unfold csub. cbn [cneg cadd]. do 2 f_equal; ring.
  - destruct (diff_exit _ _ Hbin Hi) as (_ & _ & Hsi).
    destruct (diff_exit _ _ Hbin Hj) as (_ & Hsj & _).
    assert (i ≠ j - 1)%nat as Hne.
    { intros ->. apply one_is_not_zero. congruence. }
    destruct (two_valued_edge s (Num 0) (Num 1) i (j - 1))
      as (k & Hk & H0 & H1); [done|lia|done..|].
    exists k. split; [lia|].
    rewrite (diff_of_edge s k _ _ ltac:(lia) H0 H1).
    unfold csub. cbn [cneg cadd]. do 2 f_equal; ring.
Qed.

(** A series that starts at 0 has an entry before every exit. *)
Lemma diff_binary_entry_first s j :
  (∀ j v, s !! j = Some v → v = Num 0 ∨ v = Num 1) →
  s !! 0%nat = Some (Num 0) →
  Series.diff s !! j = Some (Num (-1)) →
  ∃ i, (i < j)%nat ∧ Series.diff s !! i = Some (Num 1).
Proof.
  intros Hbin H0 Hj.
  destruct (diff_exit _ _ Hbin Hj) as (Hj1 & Hsj & _).
  assert (0 ≠ j - 1)%nat as Hne.
  { intros E. rewrite <- E in Hsj. apply one_is_not_zero. congruence. }
  destruct (two_valued_edge s (Num 0) (Num 1) 0 (j - 1))
    as (k & Hk & Hk0 & Hk1); [done|lia|done..|].
  exists k. split; [lia|].
  rewrite (diff_of_edge s k _ _ ltac:(lia) Hk0 Hk1).
  unfold csub. cbn [cneg cadd]. do 2 f_equal; ring.
Qed.
End edges.

(** On every frame the backtest is ready for, the Position column
    alternates: between two bars marked +1 there is a bar marked -1,
    between two bars marked -1 a bar marked +1, and with a short window of
    at least one bar the first mark is a +1. *)
Theorem entries_and_exits_alternate (σ : store) (data : loc) (f : frame)
    (sma_short sma_long : Z) :
  σ !! data = Some f → wf_frame f → backtest_ready f sma_short sma_long →
  ∃ f' position,
    backtest_strategy data sma_short sma_long σ =
      Returns (length σ, σ ++ [f']) ∧
    cols f' !! "Position" = Some position ∧
    (∀ i j, (i < j)%nat →
       position !! i = Some (Num 1) → position !! j = Some (Num 1) →
       ∃ k, (i < k < j)%nat ∧ position !! k = Some (Num (-1))) ∧
    (∀ i j, (i < j)%nat →
       position !! i = Some (Num (-1)) → position !! j = Some (Num (-1)) →
       ∃ k, (i < k < j)%nat ∧ position !! k = Some (Num 1)) ∧
    ((1 ≤ sma_short)%Z →
     ∀ j, position !! j = Some (Num (-1)) →
       ∃ i, (i < j)%nat ∧ position !! i = Some (Num 1)).
Proof.
  intros Hf Hwf Hready.
  pose proof (backtest_ready_bound _ _ _ Hready) as Hbound.
  destruct (backtest_ready_averages _ _ _ Hready)
    as (close & short & long & Hclose & Havg).
  destruct (averages_used_lengths _ _ _ _ _ _ Hwf Hclose Havg) as [Hs Hl].
  pose proof (length_signal_column sma_short _ _ _ Hs Hl) as Hlen.
  assert (∀ j v, signal_column sma_short (nrows f) short long !! j = Some v →
                 v = Num 0 ∨ v = Num 1) as Hbin
    by (intros j v; apply signal_column_binary).
  eexists _, _. split; [by eapply backtest_strategy_run|].
  split; [apply backtest_cols_position|].
  split; [|split].
  - intros i j Hij. by apply diff_binary_alternates.
  - intros i j Hij. by apply diff_binary_alternates.
  - intros Hw j Hj. apply diff_binary_entry_first; [done| |done].
    apply signal_column_warmup; [lia| |lia].
    apply lookup_lt_Some in Hj. rewrite length_diff, Hlen in Hj. lia.
Qed.

Lemma entries_and_exits_alternate_witness :
  ∃ f' position,
    backtest_strategy 0%nat 2 3 [bars [10; 11; 12; 11; 13]%Z] =
      Returns (1%nat, [bars [10; 11; 12; 11; 13]%Z] ++ [f']) ∧
    cols f' !! "Position" = Some position ∧
    (∀ i j, (i < j)%nat →
       position !! i = Some (Num 1) → position !! j = Some (Num 1) →
       ∃ k, (i < k < j)%nat ∧ position !! k = Some (Num (-1))) ∧
    (∀ i j, (i < j)%nat →
       position !! i = Some (Num (-1)) → position !! j = Some (Num (-1)) →
       ∃ k, (i < k < j)%nat ∧ position !! k = Some (Num 1)) ∧
    ((1 ≤ 2)%Z →
     ∀ j, position !! j = Some (Num (-1)) →
       ∃ i, (i < j)%nat ∧ position !! i = Some (Num 1)).
Proof.
  apply (entries_and_exits_alternate
           [bars [10; 11; 12; 11; 13]%Z] 0%nat
           (bars [10; 11; 12; 11; 13]%Z) 2 3).
  - reflexivity.
  - apply (bool_decide_unpack _). vm_compute. exact I.
  - ready_solve.
Defined.


(** ** The buttons *)

Section buttons.
Implicit Types (σ : store) (f g : frame) (session : gmap string loc).

Lemma indicator_cols_wf f close :
  wf_frame f → cols f !! "Close" = Some close →
  wf_frame (Frame (nrows f) (indicator_cols close (cols f))).
Proof.
  intros Hwf Hclose.
  pose proof (wf_frame_length _ _ _ Hwf Hclose) as Hlc.
  unfold wf_frame, indicator_cols. cbn [nrows cols].
  repeat apply map_Forall_insert_2; [..|done].
  - rewrite length_ewm_mean, length_zip_with, !length_ewm_mean. lia.
  - rewrite length_zip_with, !length_ewm_mean. lia.
  - by rewrite length_rsi_column.
  - by rewrite length_rolling_mean.
  - by rewrite length_rolling_mean.
Qed.

Lemma indicator_cols_close close base :
  indicator_cols close base !! "Close" = base !! "Close".
Proof.
  unfold indicator_cols. by repeat (rewrite lookup_insert_ne by done).
Qed.

Lemma indicator_cols_sma20 close base :
  indicator_cols close base !! "SMA_20" =
    Some (Series.rolling_mean 20 close).
Proof.
  unfold indicator_cols.
  by repeat (rewrite lookup_insert_ne by done); rewrite lookup_insert_eq.
Qed.

Lemma indicator_cols_sma50 close base :
  indicator_cols close base !! "SMA_50" =
    Some (Series.rolling_mean 50 close).
Proof.
  unfold indicator_cols.
  by repeat (rewrite lookup_insert_ne by done); rewrite lookup_insert_eq.
Qed.

Lemma indicators_button_run session σ data f close :
  session !! "data" = Some data →
  σ !! data = Some f → wf_frame f → cols f !! "Close" = Some close →
  indicators_button session σ =
    Returns ((session, [Success "Indicators calculated!"]),
             <[data := Frame (nrows f) (indicator_cols close (cols f))]> σ).
Proof.
  intros Hs Hf Hwf Hclose. unfold indicators_button. rewrite Hs.
  rewrite bind_run, (calculate_indicators_run _ _ _ _ Hf Hwf Hclose).
  rewrite ret_run. by rewrite insert_id.
Qed.

Lemma backtest_button_run session σ data f w wl close short long :
  session !! "data" = Some data →
  σ !! data = Some f → wf_frame f → cols f !! "Close" = Some close →
  averages_used f w wl close short long →
  (- Z.of_nat (nrows f) ≤ w ≤ Z.of_nat (nrows f))%Z →
  backtest_button w wl session σ =
    Returns ((<["backtest_data" := S (length σ)]> session,
              [Success "Backtest completed!"]),
             (σ ++ [f]) ++
             [Frame (nrows f)
                (backtest_cols w (nrows f) short long close (cols f))]).
Proof.
  intros Hs Hf Hwf Hclose Havg Hw. unfold backtest_button. rewrite Hs.
  rewrite bind_run, (df_copy_run _ _ _ Hf).
  rewrite bind_run.
  rewrite (backtest_strategy_run (σ ++ [f]) (length σ) f w wl close
             short long (lookup_top _ _) Hwf Hclose Havg Hw).
  rewrite ret_run, length_app. cbn [length].
  by replace (length σ + 1)%nat with (S (length σ)) by lia.
Qed.
End buttons.

(** Once Calculate Indicators has run, Run Backtest, for every short
    period that the history is long enough for and every long period,
    takes the 20- and 50-bar averages of the close as its short and long
    averages; the frame under 'data' is the same object before and after
    both clicks, and the backtest leaves it as the indicators left it. *)
Theorem backtest_after_indicators_ignores_periods (σ : store)
    (session : gmap string loc) (data : loc) (f : frame)
    (close : list cell) (sma_short sma_long : Z) :
  session !! "data" = Some data →
  σ !! data = Some f → wf_frame f → cols f !! "Close" = Some close →
  (0 ≤ sma_short ≤ Z.of_nat (nrows f))%Z →
  ∃ σ1 σ2 bt g,
    indicators_button session σ =
      Returns ((session, [Success "Indicators calculated!"]), σ1) ∧
    backtest_button sma_short sma_long session σ1 =
      Returns ((<["backtest_data" := bt]> session,
                [Success "Backtest completed!"]), σ2) ∧
    bt ≠ data ∧
    σ2 !! bt = Some g ∧
    cols g !! "SMA_short" = Some (Series.rolling_mean 20 close) ∧
    cols g !! "SMA_long" = Some (Series.rolling_mean 50 close) ∧
    σ2 !! data = σ1 !! data.
Proof.
  intros Hs Hf Hwf Hclose Hbound.
  pose proof (lookup_lt_Some _ _ _ Hf) as Hl.
  set (f1 := Frame (nrows f) (indicator_cols close (cols f))).
  set (σ1 := <[data := f1]> σ).
  assert (σ1 !! data = Some f1) as Hf1 by by apply list_lookup_insert_eq.
  assert (wf_frame f1) as Hwf1 by by apply indicator_cols_wf.
  assert (cols f1 !! "Close" = Some close) as Hclose1.
  { unfold f1. cbn [cols]. by rewrite indicator_cols_close. }
  assert (averages_used f1 sma_short sma_long close
            (Series.rolling_mean 20 close) (Series.rolling_mean 50 close))
    as Havg.
  { unfold averages_used, f1. cbn [cols].
    rewrite indicator_cols_sma20. split; [done|apply indicator_cols_sma50]. }
  eexists σ1, _, (S (length σ1)), _.
  split; [by apply indicators_button_run|].
  split; [eapply backtest_button_run; try done; cbn [nrows f1]; lia|].
  assert (data < length σ1)%nat as Hl1 by (by apply lookup_lt_Some in Hf1).
  split; [lia|].
  split.
  { replace (S (length σ1)) with (length (σ1 ++ [f1]))
      by (rewrite length_app; cbn; lia).
    apply lookup_top. }
  cbn [cols]. split; [apply backtest_cols_short|].
  split; [apply backtest_cols_long|].
  rewrite !lookup_app_l; [done|lia|rewrite length_app; lia].
Qed.

Lemma backtest_after_indicators_ignores_periods_witness :
  ∃ σ1 σ2 bt g,
    indicators_button {[ "data" := 0%nat ]} [bars [10; 11; 12; 11; 13]%Z] =
      Returns (({[ "data" := 0%nat ]},
                [Success "Indicators calculated!"]), σ1) ∧
    backtest_button 2 3 {[ "data" := 0%nat ]} σ1 =
      Returns ((<["backtest_data" := bt]> {[ "data" := 0%nat ]},
                [Success "Backtest completed!"]), σ2) ∧
    bt ≠ 0%nat ∧
    σ2 !! bt = Some g ∧
    cols g !! "SMA_short" =
      Some (Series.rolling_mean 20 (prices [10; 11; 12; 11; 13]%Z)) ∧
    cols g !! "SMA_long" =
      Some (Series.rolling_mean 50 (prices [10; 11; 12; 11; 13]%Z)) ∧
    σ2 !! 0%nat = σ1 !! 0%nat.
Proof.
  apply (backtest_after_indicators_ignores_periods
           [bars [10; 11; 12; 11; 13]%Z] {[ "data" := 0%nat ]} 0%nat
           (bars [10; 11; 12; 11; 13]%Z)
           (prices [10; 11; 12; 11; 13]%Z) 2 3).
  - reflexivity.
  - reflexivity.
  - apply (bool_decide_unpack _). vm_compute. exact I.
  - vm_compute. reflexivity.
  - vm_compute. split; discriminate.
Defined.

(** Fetch Data never raises and never touches a frame that is already
    there.  It changes the session only when the provider hands back a
    frame with at least one row and one column: then 'data', and nothing
    else, is bound to a new object holding that frame and one success
    message is shown; in every other case the session stays as it was
    and one error message is shown. *)
Theorem fetch_binds_only_nonempty_data (answer : provider_answer)
    (ticker : string) (session : gmap string loc) (σ : store) :
  ∃ session' msgs σ',
    fetch_button answer ticker session σ = Returns ((session', msgs), σ') ∧
    (∀ l g, σ !! l = Some g → σ' !! l = Some g) ∧
    ((session' = session ∧ ∃ text, msgs = [Error text]) ∨
     (∃ f, answer = Bars f ∧ nrows f ≠ 0%nat ∧ cols f ≠ ∅ ∧
           session' = <["data" := length σ]> session ∧
           σ !! length σ = None ∧
           σ' !! length σ = Some f ∧
           msgs = [Success ("Successfully fetched data for " +:+ ticker)])).
Proof.
  unfold fetch_button, fetch_data, df_empty. destruct answer as [f|text].
  - rewrite !bind_run. unfold alloc at 1. rewrite !bind_run.
    rewrite (get_frame_run _ _ _ (lookup_top _ _)).
    rewrite ret_run. case_bool_decide as Hempty.
    + rewrite ret_run. cbn [fst snd]. rewrite ret_run.
      eexists _, _, _. split; [done|]. split.
      * intros l g Hg. rewrite lookup_app_l; [done|by eapply lookup_lt_Some].
      * left. eauto.
    + rewrite ret_run. cbn [fst snd]. rewrite ret_run.
      eexists _, _, _. split; [done|]. split.
      * intros l g Hg. rewrite lookup_app_l; [done|by eapply lookup_lt_Some].
      * right. exists f. split; [done|].
        split; [intros E; apply Hempty; by left|].
        split; [intros E; apply Hempty; by right|].
        split; [done|]. split; [by apply lookup_ge_None_2|].
        split; [apply lookup_top|done].
  - rewrite bind_run, ret_run. cbn [fst snd]. rewrite ret_run.
    eexists _, _, _. split; [done|]. split; [done|]. left. eauto.
Qed.


(** ** The figures under the simulation chart *)

Section summary.
Implicit Types (σ : store) (f : frame) (session : gmap string loc).


End summary.




(** ** What the backtest needs *)

Section backtest_failures.
Implicit Types (σ : store) (f : frame).

Lemma rolling_window_negative w σ :
  (w < 0)%Z → rolling_window w σ = Raises ValueError.
Proof.
  intros H. unfold rolling_window. by rewrite bool_decide_eq_true_2 by lia.
Qed.

Lemma backtest_without_averages_or_close σ data f w wl :
  σ !! data = Some f →
  cols f !! "SMA_20" = None → cols f !! "Close" = None →
  backtest_strategy data w wl σ = Raises (KeyError "Close").
Proof.
  intros Hf H20 Hclose. unfold backtest_strategy.
  rewrite bind_run, (df_copy_run _ _ _ Hf).
  rewrite bind_run, has_col_top, H20.
  rewrite bool_decide_eq_false_2 by (intros [? ?]; done). cbn [negb].
  run_top. by rewrite Hclose.
Qed.

Lemma backtest_negative_window σ data f w wl close :
  σ !! data = Some f → wf_frame f →
  cols f !! "SMA_20" = None → cols f !! "Close" = Some close →
  (w < 0 ∨ wl < 0)%Z →
  backtest_strategy data w wl σ = Raises ValueError.
Proof.
  intros Hf Hwf H20 Hclose Hneg.
  pose proof (wf_frame_length _ _ _ Hwf Hclose) as Hlc.
  unfold backtest_strategy.
  rewrite bind_run, (df_copy_run _ _ _ Hf).
  rewrite bind_run, has_col_top, H20.
  rewrite bool_decide_eq_false_2 by (intros [? ?]; done). cbn [negb].
  run_top. rewrite Hclose. run_top.
  destruct (decide (w < 0)%Z) as [Hw|Hw].
  - by rewrite rolling_window_negative.
  - run_top. rewrite Hclose. run_top.
    by rewrite rolling_window_negative by lia.
Qed.

Lemma backtest_without_long_average σ data f w wl c20 :
  σ !! data = Some f → wf_frame f →
  cols f !! "SMA_20" = Some c20 → cols f !! "SMA_50" = None →
  backtest_strategy data w wl σ = Raises (KeyError "SMA_50").
Proof.
  intros Hf Hwf H20 H50.
  pose proof (wf_frame_length _ _ _ Hwf H20) as Hls.
  unfold backtest_strategy.
  rewrite bind_run, (df_copy_run _ _ _ Hf).
  rewrite bind_run, has_col_top, H20.
  rewrite bool_decide_eq_true_2 by eauto. cbn [negb].
  run_top. rewrite H20. run_top. by rewrite H50.
Qed.

Lemma backtest_with_averages_without_close σ data f w wl c20 c50 :
  σ !! data = Some f → wf_frame f →
  cols f !! "SMA_20" = Some c20 → cols f !! "SMA_50" = Some c50 →
  cols f !! "Close" = None →
  (- Z.of_nat (nrows f) ≤ w ≤ Z.of_nat (nrows f))%Z →
  backtest_strategy data w wl σ = Raises (KeyError "Close").
Proof.
  intros Hf Hwf H20 H50 Hclose Hw.
  pose proof (wf_frame_length _ _ _ Hwf H20) as Hls.
  pose proof (wf_frame_length _ _ _ Hwf H50) as Hll.
  unfold backtest_strategy, set_slice_from.
  rewrite bind_run, (df_copy_run _ _ _ Hf).
  rewrite bind_run, has_col_top, H20.
  rewrite bool_decide_eq_true_2 by eauto. cbn [negb].
  run_top. rewrite H20. run_top. rewrite H50. run_top.
  rewrite length_replicate.
  rewrite (bool_decide_eq_true_2 _ (flags_fit_slice w _ _ _ Hls Hll Hw)).
  change (take _ _ ++ _) with (signal_column w (nrows f) c20 c50).
  run_top. by rewrite Hclose.
Qed.

(** The slice assignment of the signal fails when the short window
    reaches outside the rows. *)
Lemma backtest_outside_rows_averages σ data f w wl c20 c50 :
  σ !! data = Some f → wf_frame f →
  cols f !! "SMA_20" = Some c20 → cols f !! "SMA_50" = Some c50 →
  (w < - Z.of_nat (nrows f) ∨ Z.of_nat (nrows f) < w)%Z →
  backtest_strategy data w wl σ = Raises ValueError.
Proof.
  intros Hf Hwf H20 H50 Hw.
  pose proof (wf_frame_length _ _ _ Hwf H20) as Hls.
  pose proof (wf_frame_length _ _ _ Hwf H50) as Hll.
  unfold backtest_strategy, set_slice_from.
  rewrite bind_run, (df_copy_run _ _ _ Hf).
  rewrite bind_run, has_col_top, H20.
  rewrite bool_decide_eq_true_2 by eauto. cbn [negb].
  run_top. rewrite H20. run_top. rewrite H50. run_top.
  rewrite length_replicate.
  by rewrite (bool_decide_eq_false_2 _
                (flags_miss_slice w _ _ _ Hls Hll Hw)).
Qed.

Lemma backtest_outside_rows_fresh σ data f w wl close :
  σ !! data = Some f → wf_frame f →
  cols f !! "SMA_20" = None → cols f !! "Close" = Some close →
  (0 ≤ w)%Z → (0 ≤ wl)%Z → (Z.of_nat (nrows f) < w)%Z →
  backtest_strategy data w wl σ = Raises ValueError.
Proof.
  intros Hf Hwf H20 Hclose Hw0 Hwl Hw.
  pose proof (wf_frame_length _ _ _ Hwf Hclose) as Hlc.
  unfold backtest_strategy, set_slice_from.
  rewrite bind_run, (df_copy_run _ _ _ Hf).
  rewrite bind_run, has_col_top, H20.
  rewrite bool_decide_eq_false_2 by (intros [? ?]; done). cbn [negb].
  run_top. rewrite Hclose. run_top. rewrite Hclose. run_top.
  rewrite length_replicate.
  rewrite bool_decide_eq_false_2; [done|].
  apply flags_miss_slice; [by rewrite length_rolling_mean..|lia].
Qed.
End backtest_failures.

(** [backtest_strategy] returns exactly on the frames it is ready for:
    those with a Close column, with either both SMA_20 and SMA_50 or,
    SMA_20 being absent, two windows that are not negative, and with at
    least [sma_short] rows (at least [-sma_short] for a negative
    [sma_short]).  On every other frame it raises. *)
Theorem backtest_returns_iff_ready (σ : store) (data : loc) (f : frame)
    (sma_short sma_long : Z) :
  σ !! data = Some f → wf_frame f →
  (backtest_ready f sma_short sma_long ↔
   ∃ l σ', backtest_strategy data sma_short sma_long σ = Returns (l, σ')).
Proof.
  intros Hf Hwf. split.
  - intros Hready.
    pose proof (backtest_ready_bound _ _ _ Hready) as Hbound.
    destruct (backtest_ready_averages _ _ _ Hready)
      as (close & short & long & Hclose & Havg).
    eexists _, _. by eapply backtest_strategy_run.
  - intros (l & σ' & Hrun). unfold backtest_ready.
    destruct (cols f !! "SMA_20") as [c20|] eqn:H20.
    + destruct (cols f !! "SMA_50") as [c50|] eqn:H50.
      2:{ by rewrite (backtest_without_long_average σ data f _ _ c20)
            in Hrun. }
      destruct (decide (- Z.of_nat (nrows f) ≤ sma_short ≤
                        Z.of_nat (nrows f))%Z) as [Hb|Hb].
      2:{ rewrite (backtest_outside_rows_averages σ data f _ _ c20 c50)
            in Hrun; [done..|lia]. }
      destruct (cols f !! "Close") as [close|] eqn:Hclose.
      2:{ by rewrite (backtest_with_averages_without_close σ data f _ _
                        c20 c50) in Hrun. }
      split; [by eexists|]. split; [by eexists|done].
    + destruct (cols f !! "Close") as [close|] eqn:Hclose.
      2:{ by rewrite (backtest_without_averages_or_close σ data f) in Hrun. }
      destruct (decide (sma_short < 0 ∨ sma_long < 0)%Z) as [Hneg|Hneg].
      { by rewrite (backtest_negative_window σ data f _ _ close) in Hrun. }
      destruct (decide (Z.of_nat (nrows f) < sma_short)%Z) as [Hb|Hb].
      { rewrite (backtest_outside_rows_fresh σ data f _ _ close) in Hrun;
          [done..|lia|lia|done]. }
      split; [by eexists|]. split; lia.
Qed.

Lemma backtest_returns_iff_ready_witness :
  backtest_ready (bars [10; 11; 12; 11; 13]%Z) 2 3 ∧
  ∃ l σ', backtest_strategy 0%nat 2 3 [bars [10; 11; 12; 11; 13]%Z] =
            Returns (l, σ').
Proof.
  assert (backtest_ready (bars [10; 11; 12; 11; 13]%Z) 2 3) as Hready
    by ready_solve.
  split; [exact Hready|].
  apply (backtest_returns_iff_ready [bars [10; 11; 12; 11; 13]%Z] 0%nat
           (bars [10; 11; 12; 11; 13]%Z) 2 3).
  - reflexivity.
  - apply (bool_decide_unpack _). vm_compute. exact I.
  - exact Hready.
Defined.

(** A backtest needs [sma_short] bars: on a frame that has its Close
    column and, if it has SMA_20, SMA_50 as well, a short window that
    reaches outside the rows makes [backtest_strategy] raise ValueError;
    with the default windows this is every history of fewer than twenty
    bars. *)
Theorem backtest_needs_sma_short_bars (σ : store) (data : loc) (f : frame)
    (sma_short sma_long : Z) :
  σ !! data = Some f → wf_frame f →
  is_Some (cols f !! "Close") →
  (is_Some (cols f !! "SMA_20") → is_Some (cols f !! "SMA_50")) →
  (Z.of_nat (nrows f) < sma_short ∨ sma_short < - Z.of_nat (nrows f))%Z →
  backtest_strategy data sma_short sma_long σ = Raises ValueError.
Proof.
  intros Hf Hwf [close Hclose] H50 Hw.
  destruct (cols f !! "SMA_20") as [c20|] eqn:H20.
  - destruct H50 as [c50 H50]; [by eexists|].
    apply (backtest_outside_rows_averages σ data f _ _ c20 c50);
      [done..|lia].
  - destruct (decide (sma_short < 0 ∨ sma_long < 0)%Z) as [Hneg|Hneg].
    + by apply (backtest_negative_window σ data f _ _ close).
    + apply (backtest_outside_rows_fresh σ data f _ _ close);
        [done..|lia|lia|lia].
Qed.

Lemma backtest_needs_sma_short_bars_witness :
  backtest_strategy 0%nat 20 50 [bars [10; 11; 12]%Z] = Raises ValueError.
Proof.
  apply (backtest_needs_sma_short_bars [bars [10; 11; 12]%Z] 0%nat
           (bars [10; 11; 12]%Z) 20 50).
  - reflexivity.
  - apply (bool_decide_unpack _). vm_compute. exact I.
  - by eexists.
  - intros [c Hc]. vm_compute in Hc. discriminate.
  - left. vm_compute. reflexivity.
Defined.


(** ** The moving averages *)

Section averages.
Implicit Types (s : list cell) (lo hi : Qc).





End averages.



(** ** Calculating the indicators again *)

Section again.
Implicit Types (base : gmap string (list cell)).

Lemma indicator_cols_again close base :
  indicator_cols close (indicator_cols close base) =
    indicator_cols close base.
Proof.
  apply map_eq. intros k. unfold indicator_cols.
  rewrite !lookup_insert. by repeat case_decide.
Qed.
End again.

(** [calculate_indicators] reads nothing but Close and always writes the
    same five columns, so a second call changes nothing: it returns the
    same frame and leaves the store as the first call left it. *)
Theorem indicators_twice_same_as_once (σ : store) (data : loc) (f : frame)
    (close : list cell) :
  σ !! data = Some f → wf_frame f → cols f !! "Close" = Some close →
  ∃ σ1,
    calculate_indicators data σ = Returns (data, σ1) ∧
    calculate_indicators data σ1 = Returns (data, σ1).
Proof.
  intros Hf Hwf Hclose.
  pose proof (lookup_lt_Some _ _ _ Hf) as Hl.
  set (f1 := Frame (nrows f) (indicator_cols close (cols f))).
  exists (<[data := f1]> σ).
  split; [by apply calculate_indicators_run|].
  rewrite (calculate_indicators_run (<[data := f1]> σ) data f1 close).
  - unfold f1. cbn [nrows cols].
    by rewrite indicator_cols_again, list_insert_insert_eq.
  - by apply list_lookup_insert_eq.
  - by apply indicator_cols_wf.
  - unfold f1. cbn [cols]. by rewrite indicator_cols_close.
Qed.

Lemma indicators_twice_same_as_once_witness :
  ∃ σ1,
    calculate_indicators 0%nat [bars spike_and_rebound] =
      Returns (0%nat, σ1) ∧
    calculate_indicators 0%nat σ1 = Returns (0%nat, σ1).
Proof.
  apply (indicators_twice_same_as_once [bars spike_and_rebound] 0%nat
           (bars spike_and_rebound) (prices spike_and_rebound)).
  - reflexivity.
  - apply (bool_decide_unpack _). vm_compute. exact I.
  - vm_compute. reflexivity.
Defined.


(** ** MACD and its signal line *)

Section exponential_average.
Implicit Types (s : list cell) (lo hi alpha : Qc).

Lemma between_minus (a lo : Qc) : lo ≤ a ↔ 0 ≤ a + - lo.
Proof. apply Qcle_minus_iff. Qed.

(** A weighted mean of two values lies between them. *)
Lemma blend_between alpha (w c lo hi : Qc) :
  0 ≤ alpha → alpha ≤ 1 →
  lo ≤ w ∧ w ≤ hi → lo ≤ c ∧ c ≤ hi →
  lo ≤ (1 * (1 - alpha) * w + alpha * c) / (1 * (1 - alpha) + alpha) ∧
  (1 * (1 - alpha) * w + alpha * c) / (1 * (1 - alpha) + alpha) ≤ hi.
Proof.
  intros Ha0 Ha1 [Hw1 Hw2] [Hc1 Hc2].
  assert (0 ≤ 1 + - alpha) as Hb by (by apply (proj1 (between_minus _ _))).
  replace ((1 * (1 - alpha) * w + alpha * c) / (1 * (1 - alpha) + alpha))
    with ((1 + - alpha) * w + alpha * c).
  2:{ field. intros E. ring_simplify in E. revert E. by apply Qc_pos_ne. }
  apply between_minus in Hw1, Hc1.
  apply (proj1 (between_minus _ _)) in Hw2, Hc2.
  split; apply (proj2 (between_minus _ _)).
  - replace ((1 + - alpha) * w + alpha * c + - lo)
      with ((1 + - alpha) * (w + - lo) + alpha * (c + - lo)) by ring.
    apply Qcplus_nonneg_nonneg; by apply Qcmult_nonneg_nonneg.
  - replace (hi + - ((1 + - alpha) * w + alpha * c))
      with ((1 + - alpha) * (hi + - w) + alpha * (hi + - c)) by ring.
    apply Qcplus_nonneg_nonneg; by apply Qcmult_nonneg_nonneg.
Qed.

Lemma blend_weight alpha : Qc_eqb (1 * (1 - alpha) + alpha) 0 = false.
Proof.
  unfold Qc_eqb. apply bool_decide_eq_false_2.
  replace (1 * (1 - alpha) + alpha) with (Q2Qc 1) by ring.
  by apply Qc_pos_ne.
Qed.

Lemma ewm_from_between alpha lo hi s :
  0 ≤ alpha → alpha ≤ 1 →
  (∀ k x, s !! k = Some x → ∃ q, x = Num q ∧ lo ≤ q ∧ q ≤ hi) →
  ∀ w i y, lo ≤ w ∧ w ≤ hi →
    Series.ewm_from alpha (Num w) 1 s !! i = Some y →
    ∃ q, y = Num q ∧ lo ≤ q ∧ q ≤ hi.
Proof.
  intros Ha0 Ha1. induction s as [|cur s IH]; intros Hs w i y Hw; [done|].
  destruct (Hs 0%nat cur eq_refl) as (c & -> & Hc).
  assert (∀ k x, s !! k = Some x → ∃ q, x = Num q ∧ lo ≤ q ∧ q ≤ hi)
    as Hs' by (intros k x Hx; by apply (Hs (S k))).
  cbn [Series.ewm_from isnan negb ceqb cmul cadd cdiv].
  rewrite blend_weight.
  destruct (Qc_eqb w c).
  - destruct i as [|i]; cbn [lookup list_lookup].
    + intros [= <-]. by exists w.
    + by apply IH.
  - pose proof (blend_between alpha w c lo hi Ha0 Ha1 Hw Hc) as Hb.
    destruct i as [|i]; cbn [lookup list_lookup].
    + intros [= <-]. by eexists.
    + by apply IH.
Qed.

Lemma prep_values_finite s :
  (∀ k x, s !! k = Some x → is_num x = true) → Series.prep_values s = s.
Proof.
  intros Hs. unfold Series.prep_values. apply list_eq. intros k.
  rewrite list_lookup_fmap. destruct (s !! k) as [x|] eqn:Hx; [|done].
  cbn. by rewrite (Hs k x Hx).
Qed.

(** An exponential average of finite values stays between the lowest
    and the highest of them. *)
Lemma ewm_mean_between (span : Z) lo hi s :
  0 ≤ Qc_of_Z 2 / (Qc_of_Z span + 1) →
  Qc_of_Z 2 / (Qc_of_Z span + 1) ≤ 1 →
  (∀ k x, s !! k = Some x → ∃ q, x = Num q ∧ lo ≤ q ∧ q ≤ hi) →
  ∀ i y, Series.ewm_mean span s !! i = Some y →
    ∃ q, y = Num q ∧ lo ≤ q ∧ q ≤ hi.
Proof.
  intros Ha0 Ha1 Hs i y. unfold Series.ewm_mean.
  rewrite prep_values_finite
    by (intros k x Hx; by destruct (Hs k x Hx) as (q & -> & _)).
  destruct s as [|x s]; [done|].
  destruct (Hs 0%nat x eq_refl) as (q & -> & Hq).
  destruct i as [|i]; cbn [lookup list_lookup].
  - intros [= <-]. by exists q.
  - apply ewm_from_between; [done..| |done].
    intros k x Hx. by apply (Hs (S k)).
Qed.

Lemma difference_between (a b lo hi : Qc) :
  lo ≤ a ∧ a ≤ hi → lo ≤ b ∧ b ≤ hi →
  - (hi - lo) ≤ a + - b ∧ a + - b ≤ hi - lo.
Proof. intros [? ?] [? ?]. unfold Qcminus. split; qc_lra. Qed.
End exponential_average.

(** With finite closes between [lo] and [hi], MACD and Signal_Line are
    finite on every bar and at most [hi - lo] in absolute value; on a
    flat series both are 0 throughout. *)
Theorem macd_within_price_range (σ : store) (data : loc) (f : frame)
    (close : list cell) (lo hi : Qc) :
  σ !! data = Some f → wf_frame f → cols f !! "Close" = Some close →
  (∀ k c, close !! k = Some c → ∃ q, c = Num q ∧ lo ≤ q ∧ q ≤ hi) →
  ∃ f' macd signal_line,
    calculate_indicators data σ = Returns (data, <[data := f']> σ) ∧
    cols f' !! "MACD" = Some macd ∧
    cols f' !! "Signal_Line" = Some signal_line ∧
    (∀ i, (i < nrows f)%nat →
       ∃ m s, macd !! i = Some (Num m) ∧ signal_line !! i = Some (Num s) ∧
              - (hi - lo) ≤ m ∧ m ≤ hi - lo ∧
              - (hi - lo) ≤ s ∧ s ≤ hi - lo) ∧
    (lo = hi → ∀ i, (i < nrows f)%nat →
       macd !! i = Some (Num 0) ∧ signal_line !! i = Some (Num 0)).
Proof.
  intros Hf Hwf Hclose Hrange.
  pose proof (wf_frame_length _ _ _ Hwf Hclose) as Hlc.
  set (macd := zip_with csub (Series.ewm_mean 12 close)
                 (Series.ewm_mean 26 close)).
  assert (length macd = nrows f) as Hlm.
  { unfold macd. rewrite length_zip_with, !length_ewm_mean. lia. }
  assert (∀ k x, macd !! k = Some x →
            ∃ q, x = Num q ∧ - (hi - lo) ≤ q ∧ q ≤ hi - lo) as Hmacd.
  { intros k x. unfold macd. rewrite lookup_zip_with.
    destruct (Series.ewm_mean 12 close !! k) as [a|] eqn:Ha; [|done].
    destruct (Series.ewm_mean 26 close !! k) as [b|] eqn:Hb; [|done].
    cbn. intros [= <-].
    destruct (ewm_mean_between 12 lo hi close) with (i := k) (y := a)
      as (qa & -> & Hqa); [by apply (bool_decide_unpack _)..|done|done|].
    destruct (ewm_mean_between 26 lo hi close) with (i := k) (y := b)
      as (qb & -> & Hqb); [by apply (bool_decide_unpack _)..|done|done|].
    exists (qa + - qb). split; [done|]. by apply difference_between. }
  assert (∀ i, (i < nrows f)%nat →
            ∃ m s, macd !! i = Some (Num m) ∧
                   Series.ewm_mean 9 macd !! i = Some (Num s) ∧
                   - (hi - lo) ≤ m ∧ m ≤ hi - lo ∧
                   - (hi - lo) ≤ s ∧ s ≤ hi - lo) as Hboth.
  { intros i Hi.
    destruct (lookup_lt_is_Some_2 macd i) as [x Hx]; [lia|].
    destruct (lookup_lt_is_Some_2 (Series.ewm_mean 9 macd) i) as [y Hy];
      [rewrite length_ewm_mean; lia|].
    destruct (Hmacd _ _ Hx) as (m & -> & Hm1 & Hm2).
    destruct (ewm_mean_between 9 (- (hi - lo)) (hi - lo) macd)
      with (i := i) (y := y) as (s & -> & Hs1 & Hs2);
      [by apply (bool_decide_unpack _)..|done|done|].
    by exists m, s. }
  exists (Frame (nrows f) (indicator_cols close (cols f))), macd,
    (Series.ewm_mean 9 macd).
  split; [by apply calculate_indicators_run|].
  split.
  { cbn [cols]. unfold indicator_cols.
    by rewrite lookup_insert_ne, lookup_insert_eq by done. }
  split; [cbn [cols]; unfold indicator_cols; by rewrite lookup_insert_eq|].
  split; [done|].
  intros -> i Hi.
  destruct (Hboth i Hi) as (m & s & -> & -> & Hm1 & Hm2 & Hs1 & Hs2).
  assert (∀ x : Qc, - (hi - hi) ≤ x → x ≤ hi - hi → x = 0) as Hzero.
  { intros x H1 H2. apply Qcle_antisym.
    - by replace (hi - hi) with (Q2Qc 0) in H2 by ring.
    - replace (- (hi - hi)) with (Q2Qc 0) in H1 by ring. done. }
  by rewrite (Hzero m), (Hzero s).
Qed.

Lemma macd_within_price_range_witness :
  ∃ f' macd signal_line,
    calculate_indicators 0%nat [bars spike_and_rebound] =
      Returns (0%nat, <[0%nat := f']> [bars spike_and_rebound]) ∧
    cols f' !! "MACD" = Some macd ∧
    cols f' !! "Signal_Line" = Some signal_line ∧
    (∀ i, (i < 22)%nat →
       ∃ m s, macd !! i = Some (Num m) ∧ signal_line !! i = Some (Num s) ∧
              - (Qc_of_Z 12 - Qc_of_Z 1) ≤ m ∧ m ≤ Qc_of_Z 12 - Qc_of_Z 1 ∧
              - (Qc_of_Z 12 - Qc_of_Z 1) ≤ s ∧
              s ≤ Qc_of_Z 12 - Qc_of_Z 1) ∧
    (Qc_of_Z 1 = Qc_of_Z 12 → ∀ i, (i < 22)%nat →
       macd !! i = Some (Num 0) ∧ signal_line !! i = Some (Num 0)).
Proof.
  apply (macd_within_price_range [bars spike_and_rebound] 0%nat
           (bars spike_and_rebound) (prices spike_and_rebound)
           (Qc_of_Z 1) (Qc_of_Z 12)).
  - reflexivity.
  - apply (bool_decide_unpack _). vm_compute. exact I.
  - vm_compute. reflexivity.
  - intros k c Hc.
    assert (k < 22)%nat as Hk by (by apply lookup_lt_Some in Hc).
    do 22 (destruct k as [|k];
           [injection Hc as <-; eexists; split; [reflexivity|];
            split; by apply (bool_decide_unpack _)|]).
    lia.
Defined.


(** ** From the backtest to the simulation *)

Section warm_up.
Implicit Types (σ : store) (f : frame) (base : gmap string (list cell)).

Lemma backtest_cols_open w n short long close base :
  backtest_cols w n short long close base !! "Open" = base !! "Open".
Proof. unfold backtest_cols. by repeat (rewrite lookup_insert_ne by done). Qed.

Lemma backtest_cols_wf f w short long close :
  wf_frame f → length close = nrows f →
  length short = nrows f → length long = nrows f →
  wf_frame
    (Frame (nrows f) (backtest_cols w (nrows f) short long close (cols f))).
Proof.
  intros Hwf Hlc Hs Hl.
  pose proof (length_signal_column w _ _ _ Hs Hl) as Hsig.
  unfold wf_frame, backtest_cols. cbn [nrows cols].
  repeat apply map_Forall_insert_2; [..|done]; try done;
    repeat first
      [ rewrite length_cumprod | rewrite length_fmap
      | rewrite length_zip_with | rewrite length_shift
      | rewrite length_diff | rewrite length_pct_change ];
    lia.
Qed.

(** The ledger with its first row and the recurrence of its rows. *)
Lemma run_simulation_from_row0 σ bt f initial_capital commission
    position open close :
  σ !! bt = Some f → wf_frame f →
  cols f !! "Position" = Some position →
  cols f !! "Open" = Some open →
  cols f !! "Close" = Some close →
  ∃ cash shares total,
    run_simulation bt initial_capital commission σ =
      Returns (length (σ ++ [f]),
               (σ ++ [f]) ++ [ledger_frame (nrows f) cash shares total]) ∧
    (length cash = nrows f ∧ length shares = nrows f ∧
     length total = nrows f) ∧
    (nrows f ≠ 0%nat →
     cash !! 0%nat = Some (cell_of_Z initial_capital) ∧
     shares !! 0%nat = Some (Num 0) ∧
     total !! 0%nat = Some (cell_of_Z initial_capital)) ∧
    (∀ i, (1 ≤ i < nrows f)%nat →
       (cash !!! i, shares !!! i) =
         trade commission (cash !!! (i - 1)%nat) (shares !!! (i - 1)%nat)
           (position !!! i) (open !!! i) ∧
       total !!! i = cadd (cash !!! i) (cmul (shares !!! i) (close !!! i))).
Proof.
  intros Hf Hwf Hp Ho Hc.
  pose proof (wf_frame_length _ _ _ Hwf Hp) as Hlp.
  pose proof (wf_frame_length _ _ _ Hwf Ho) as Hlo.
  pose proof (wf_frame_length _ _ _ Hwf Hc) as Hlc.
  pose proof (run_simulation_run σ bt f initial_capital commission
                position open close Hf Hp Ho Hc Hlp Hlo Hlc) as Hrun.
  pose proof (ledger_columns_lengths commission position open close
                (nrows f) initial_capital) as Hlen.
  pose proof (ledger_columns_row0 commission position open close
                (nrows f) initial_capital) as Hrow0.
  pose proof (ledger_columns_recurrence commission position open close
                (nrows f) initial_capital) as Hrec.
  destruct (ledger_columns initial_capital commission position open close
              (nrows f)) as [[cash shares] total].
  by exists cash, shares, total.
Qed.

(** Rows stay at the initial values as long as no bar is marked. *)
Lemma ledger_prefix_idle (commission : Qc) (v : cell)
    (position open close cash shares total : list cell) (n k : nat) :
  length cash = n → length shares = n → length total = n →
  length position = n → length close = n →
  (n ≠ 0%nat →
   cash !! 0%nat = Some v ∧ shares !! 0%nat = Some (Num 0) ∧
   total !! 0%nat = Some v) →
  (∀ i, (1 ≤ i < n)%nat →
     (cash !!! i, shares !!! i) =
       trade commission (cash !!! (i - 1)%nat) (shares !!! (i - 1)%nat)
         (position !!! i) (open !!! i) ∧
     total !!! i = cadd (cash !!! i) (cmul (shares !!! i) (close !!! i))) →
  (∀ i p, (1 ≤ i < k)%nat → position !! i = Some p →
     ceqb p (Num 1) = false ∧ ceqb p (cell_of_Z (-1)) = false) →
  ∀ i, (i < n)%nat → (i < k)%nat →
    cash !! i = Some v ∧ shares !! i = Some (Num 0) ∧
    total !! i = Some (cadd v (cmul (Num 0) (close !!! i))) ∨
    i = 0%nat ∧ cash !! i = Some v ∧ shares !! i = Some (Num 0) ∧
    total !! i = Some v.
Proof.
  intros Hl1 Hl2 Hl3 Hlp Hlc Hrow0 Hrec Hidle.
  assert (∀ i, (i < n)%nat → (i < k)%nat →
            cash !! i = Some v ∧ shares !! i = Some (Num 0)) as Hcs.
  { induction i as [|i IH]; intros Hi Hk.
    - destruct Hrow0 as (? & ? & ?); [lia|done].
    - destruct IH as [Hc Hs]; [lia..|].
      destruct (Hrec (S i)) as [Htrade _]; [lia|].
      destruct (lookup_lt_is_Some_2 position (S i)) as [p Hp]; [lia|].
      destruct (Hidle (S i) p ltac:(lia) Hp) as [H1 H2].
      rewrite (list_lookup_total_correct _ _ _ Hp) in Htrade.
      rewrite trade_idle in Htrade by done.
      cbn [Nat.sub] in Htrade. rewrite Nat.sub_0_r in Htrade.
      rewrite (list_lookup_total_correct _ _ _ Hc),
        (list_lookup_total_correct _ _ _ Hs) in Htrade.
      injection Htrade as Hc' Hs'.
      split.
      + rewrite <- Hc'. apply list_lookup_lookup_total_lt. lia.
      + rewrite <- Hs'. apply list_lookup_lookup_total_lt. lia. }
  intros i Hi Hk. destruct (Hcs i Hi Hk) as [Hc Hs].
  destruct i as [|i].
  - right. destruct Hrow0 as (_ & _ & ?); [lia|done].
  - left. split; [done|]. split; [done|].
    destruct (Hrec (S i)) as [_ Ht]; [lia|].
    rewrite (list_lookup_total_correct _ _ _ Hc),
      (list_lookup_total_correct _ _ _ Hs) in Ht.
    rewrite <- Ht. apply list_lookup_lookup_total_lt. lia.
Qed.

Lemma position_zero_in_warmup w n short long i :
  length short = n → length long = n →
  (1 ≤ i < n)%nat → (Z.of_nat i < w)%Z →
  Series.diff (signal_column w n short long) !! i =
    Some (csub (Num 0) (Num 0)).
Proof.
  intros Hs Hl Hi Hw.
  apply diff_of_edge; [lia|..]; apply signal_column_warmup; lia.
Qed.
End warm_up.

(** The simulation of a backtest (on a frame the backtest is ready for)
    does not trade before bar [sma_short]: on every bar before it the
    ledger holds the initial capital in cash and no shares, and a total
    equal to the capital where the close is finite. *)
Theorem no_trade_before_the_short_window (σ : store) (data : loc)
    (f : frame) (sma_short sma_long : Z) (initial_capital : Z)
    (commission : Qc) (open : list cell) :
  σ !! data = Some f → wf_frame f → backtest_ready f sma_short sma_long →
  cols f !! "Open" = Some open →
  ∃ f' account close cash shares total,
    backtest_strategy data sma_short sma_long σ =
      Returns (length σ, σ ++ [f']) ∧
    run_simulation (length σ) initial_capital commission (σ ++ [f']) =
      Returns (length ((σ ++ [f']) ++ [f']),
               ((σ ++ [f']) ++ [f']) ++ [account]) ∧
    cols f !! "Close" = Some close ∧
    cols account !! "Cash" = Some cash ∧
    cols account !! "Shares" = Some shares ∧
    cols account !! "Total" = Some total ∧
    (∀ i, (i < nrows f)%nat → (Z.of_nat i < sma_short)%Z →
       cash !! i = Some (cell_of_Z initial_capital) ∧
       shares !! i = Some (Num 0) ∧
       (is_num (close !!! i) = true →
        total !! i = Some (cell_of_Z initial_capital))).
Proof.
  intros Hf Hwf Hready Hopen.
  pose proof (backtest_ready_bound _ _ _ Hready) as Hbound.
  destruct (backtest_ready_averages _ _ _ Hready)
    as (close & short & long & Hclose & Havg).
  pose proof (wf_frame_length _ _ _ Hwf Hclose) as Hlc.
  destruct (averages_used_lengths _ _ _ _ _ _ Hwf Hclose Havg) as [Hs Hl].
  pose proof (length_signal_column sma_short _ _ _ Hs Hl) as Hsig.
  set (g := Frame (nrows f)
              (backtest_cols sma_short (nrows f) short long close (cols f))).
  assert (wf_frame g) as Hwfg by by apply backtest_cols_wf.
  destruct (run_simulation_from_row0 (σ ++ [g]) (length σ) g initial_capital
              commission
              (Series.diff (signal_column sma_short (nrows f) short long))
              open close)
    as (cash & shares & total & Hrun & (Hl1 & Hl2 & Hl3) & Hrow0 & Hrec).
  { apply lookup_top. }
  { done. }
  { apply backtest_cols_position. }
  { unfold g. cbn [cols]. by rewrite backtest_cols_open. }
  { unfold g. cbn [cols]. by rewrite backtest_cols_close. }
  exists g, (ledger_frame (nrows f) cash shares total), close, cash, shares,
    total.
  split; [by eapply backtest_strategy_run|]. split; [done|].
  split; [done|].
  rewrite ledger_frame_cash, ledger_frame_shares, ledger_frame_total.
  do 3 (split; [done|]).
  intros i Hi Hw.
  destruct (ledger_prefix_idle commission (cell_of_Z initial_capital)
              (Series.diff (signal_column sma_short (nrows f) short long))
              open close cash shares total (nrows f) (S i))
    with (i := i) as [(Hc & Hsh & Ht)|(-> & Hc & Hsh & Ht)];
    [done|done|done|by rewrite length_diff|done|done|done| |done|lia|..].
  - intros j p Hj Hp.
    rewrite position_zero_in_warmup in Hp by (done || lia).
    injection Hp as <-. by vm_compute.
  - split; [done|]. split; [done|]. intros Hnum. rewrite Ht.
    destruct (close !!! i) as [q| | |]; try done.
    unfold cell_of_Z. cbn [cmul cadd]. do 2 f_equal. ring.
  - by split; [|split].
Qed.

Lemma no_trade_before_the_short_window_witness :
  ∃ f' account close cash shares total,
    backtest_strategy 0%nat 2 3 [bars [10; 11; 12; 11; 13]%Z] =
      Returns (1%nat, [bars [10; 11; 12; 11; 13]%Z] ++ [f']) ∧
    run_simulation 1%nat 10000 0 ([bars [10; 11; 12; 11; 13]%Z] ++ [f']) =
      Returns (length (([bars [10; 11; 12; 11; 13]%Z] ++ [f']) ++ [f']),
               (([bars [10; 11; 12; 11; 13]%Z] ++ [f']) ++ [f']) ++
               [account]) ∧
    cols (bars [10; 11; 12; 11; 13]%Z) !! "Close" = Some close ∧
    cols account !! "Cash" = Some cash ∧
    cols account !! "Shares" = Some shares ∧
    cols account !! "Total" = Some total ∧
    (∀ i, (i < 5)%nat → (Z.of_nat i < 2)%Z →
       cash !! i = Some (cell_of_Z 10000) ∧
       shares !! i = Some (Num 0) ∧
       (is_num (close !!! i) = true →
        total !! i = Some (cell_of_Z 10000))).
Proof.
  apply (no_trade_before_the_short_window
           [bars [10; 11; 12; 11; 13]%Z] 0%nat
           (bars [10; 11; 12; 11; 13]%Z) 2 3 10000 0
           (prices [10; 11; 12; 11; 13]%Z)).
  - reflexivity.
  - apply (bool_decide_unpack _). vm_compute. exact I.
  - ready_solve.
  - vm_compute. reflexivity.
Defined.


(** ** A backtest without a crossover *)

Section no_crossover.
Implicit Types (close short long : list cell).


End no_crossover.


